(** * Bulk provisioning client: object creation with retries

    A shallow embedding of [post_utils.py] and of [scm/__init__.py]
    (class [PanApiHandler]).  The Python functions are written as
    programs over the external calls they make (HTTP requests, the token
    provider, the token file, the clock, [time.sleep], logging, the
    refresh lock).  A program is run against an arbitrary environment
    that answers those calls; the run yields the value returned (or
    the exception raised) and the trace of the calls with their answers.

    Conventions
    - Python strings are [string]s of ASCII characters.
    - Times and delays (Python floats) are rationals; rounding is not
      modelled.
    - An exception is its class name and the text [str(e)] gives.
    - An object definition always has a [name] key (the data model of the
      client); the lookup [item_data['name']] therefore never fails. *)

From Stdlib Require Import String Ascii List ZArith QArith Lqa Bool Lia Permutation DecimalString.
Import ListNotations.

#[local] Set Warnings "-register-all".
Open Scope list_scope.
Open Scope string_scope.

(** ** Python strings *)

Definition lower_ascii (c : ascii) : ascii :=
  let n := nat_of_ascii c in
  if andb (Nat.leb 65 n) (Nat.leb n 90) then ascii_of_nat (n + 32) else c.

(** [s.lower()] *)
Fixpoint lower (s : string) : string :=
  match s with
  | EmptyString => EmptyString
  | String c s' => String (lower_ascii c) (lower s')
  end.

(** [sub in s] *)
Fixpoint contains (sub s : string) : bool :=
  if String.prefix sub s then true
  else match s with
       | EmptyString => false
       | String _ s' => contains sub s'
       end.

Fixpoint has_char (c : ascii) (s : string) : bool :=
  match s with
  | EmptyString => false
  | String d s' => if Ascii.eqb c d then true else has_char c s'
  end.

Fixpoint join (sep : string) (l : list string) : string :=
  match l with
  | [] => ""
  | [x] => x
  | x :: l' => x ++ sep ++ join sep l'
  end.

Definition squote : ascii := ascii_of_nat 39.
Definition dquote : ascii := ascii_of_nat 34.
Definition backslash : ascii := ascii_of_nat 92.

Definition hex_digit (n : nat) : ascii :=
  if Nat.ltb n 10 then ascii_of_nat (48 + n) else ascii_of_nat (87 + n).

(** One character of [repr(s)] inside the quotes [q]. *)
Definition repr_char (q : ascii) (c : ascii) : string :=
  let n := nat_of_ascii c in
  if Ascii.eqb c backslash then String backslash (String backslash "")
  else if Ascii.eqb c q then String backslash (String q "")
  else if Nat.eqb n 10 then String backslash "n"
  else if Nat.eqb n 13 then String backslash "r"
  else if Nat.eqb n 9 then String backslash "t"
  else if orb (Nat.ltb n 32) (Nat.eqb n 127)
       then String backslash
              (String "x" (String (hex_digit (n / 16)) (String (hex_digit (n mod 16)) "")))
  else String c "".

Fixpoint repr_chars (q : ascii) (s : string) : string :=
  match s with
  | EmptyString => ""
  | String c s' => repr_char q c ++ repr_chars q s'
  end.

(** [repr(s)] of a string: single quotes, unless the string has a single
    quote and no double quote. *)
Definition repr_str (s : string) : string :=
  let q := if andb (has_char squote s) (negb (has_char dquote s))
           then dquote else squote in
  String q (repr_chars q s ++ String q "").

(** ** Parsed JSON *)

(** What [json.load] and [response.json()] return.  A number carries its
    value and the text [str()] gives for it. *)
Inductive json : Type :=
| JNull
| JBool (b : bool)
| JNum (value : Q) (text : string)
| JStr (s : string)
| JArr (items : list json)
| JObj (members : list (string * json)).

Definition dict := list (string * json).

Fixpoint dict_get (d : dict) (key : string) : option json :=
  match d with
  | [] => None
  | (k, v) :: d' => if String.eqb k key then Some v else dict_get d' key
  end.

(** [d[key] = v] *)
Fixpoint dict_set (d : dict) (key : string) (v : json) : dict :=
  match d with
  | [] => [(key, v)]
  | (k, w) :: d' => if String.eqb k key then (k, v) :: d' else (k, w) :: dict_set d' key v
  end.

(** [repr(x)] *)
Fixpoint py_repr (j : json) : string :=
  match j with
  | JNull => "None"
  | JBool true => "True"
  | JBool false => "False"
  | JNum _ text => text
  | JStr s => repr_str s
  | JArr items => "[" ++ join ", " (map py_repr items) ++ "]"
  | JObj members =>
      "{" ++ join ", " (map (fun kv => let '(k, v) := kv in repr_str k ++ ": " ++ py_repr v)
                            members)
          ++ "}"
  end.

(** [str(x)] *)
Definition py_str (j : json) : string :=
  match j with
  | JStr s => s
  | _ => py_repr j
  end.

(** The value of [x] in arithmetic; [None] where Python raises TypeError. *)
Definition py_number (j : json) : option Q :=
  match j with
  | JNum value _ => Some value
  | JBool true => Some 1%Q
  | JBool false => Some 0%Q
  | _ => None
  end.

(** [a > b] on numbers *)
Definition py_gt (a b : Q) : bool := negb (Qle_bool a b).

(** [range(n)] *)
Definition range (n : Z) : list Z := map Z.of_nat (seq 0 (Z.to_nat n)).

(** [l[start:]], with Python's reading of a negative [start]. *)
Definition slice_from {A : Type} (start : Z) (l : list A) : list A :=
  let len := Z.of_nat (length l) in
  let i := if (start <? 0)%Z then Z.max 0 (len + start) else start in
  skipn (Z.to_nat i) l.

(** [str(n)] of an int *)
Definition str_int (n : Z) : string := NilZero.string_of_int (Z.to_int n).

(** [str(t)] of a tuple of strings (two elements or more) *)
Definition str_tuple (t : list string) : string :=
  "(" ++ join ", " (map repr_str t) ++ ")".

(** ** Exceptions, responses, object definitions *)

Record exn : Type := Exn { exn_class : string; exn_text : string }.

Inductive result (A : Type) : Type :=
| Ok (a : A)
| Raise (e : exn).
Arguments Ok {A} a.
Arguments Raise {A} e.

(** A [requests] response: [response.status_code], [response.text] and
    what [response.json()] does. *)
Record response : Type := Response {
  status_code : Z;
  text : string;
  response_json : result json
}.

(** An object definition: [item_data['name']] and the other keys. *)
Record object_definition : Type := ObjectDefinition {
  item_name : string;
  item_fields : dict
}.

(** The tuples [create_object] returns. *)
Definition outcome : Type := list string.

Definition Created (name : string) : outcome := ["This object created"; name].
Definition AlreadyExists (name : string) : outcome := ["This object exists"; name].
Definition Failed (name reason : string) : outcome := ["error creating object"; name; reason].

(** ** External calls *)

(** The calls a program makes to its environment, indexed by the type of
    the answer.  [obtain_api_token] is [token_utils.obtain_api_token] and
    the [session_] calls are the methods of [PanApiHandler.session];
    neither is part of these files, both are answered by the environment.
    [json_load] is [open(path)] followed by [json.load]. *)
Inductive call : Type -> Type :=
| obtain_api_token (client_id client_secret tsg_id token_file : string)
                   (force_refresh : bool) : call (result string)
| os_path_exists (path : string) : call bool
| json_load (path : string) : call (result json)
| time_time : call Q
| sleep_call (secs : Q) : call unit
| requests_post (url : string) (headers : dict) (json : object_definition)
                (timeout : Q) : call (result response)
| session_ensure_valid_token : call (result unit)
| session_get (url : string) : call (result response)
| session_post (url : string) (json : object_definition) (timeout : Q)
    : call (result response)
| logging (level : string) (msg : string) : call unit
| print (msg : string) : call unit
| lock_acquire : call unit
| lock_release : call unit.

Inductive prog (R : Type) : Type :=
| Ret (r : R)
| Vis {X : Type} (c : call X) (k : X -> prog R).
Arguments Ret {R} r.
Arguments Vis {R X} c k.

Fixpoint bind_prog {A B : Type} (p : prog A) (f : A -> prog B) : prog B :=
  match p with
  | Ret a => f a
  | Vis c k => Vis c (fun x => bind_prog (k x) f)
  end.

(** A call together with the answer it received. *)
Inductive event : Type :=
| Event {X : Type} (c : call X) (x : X).

(** An environment: a state and the answer to every call. *)
Definition handler (S : Type) : Type := forall X : Type, call X -> S -> X * S.

Fixpoint run {S R : Type} (h : handler S) (p : prog R) (s : S) : R * S * list event :=
  match p with
  | Ret r => (r, s, [])
  | Vis c k =>
      let '(x, s1) := h _ c s in
      let '(r, s2, tr) := run h (k x) s1 in
      (r, s2, Event c x :: tr)
  end.

Definition returned {S R : Type} (x : R * S * list event) : R := fst (fst x).
Definition trace {S R : Type} (x : R * S * list event) : list event := snd x.

(** ** Python control flow

    A function body with local variables [L]: it runs from the current
    values of the locals and ends with a value or an exception, and the
    new values of the locals (kept when an exception is raised, as the
    [except] clause sees them). *)
Definition M (L A : Type) : Type := L -> prog (result A * L).

Definition ret {L A : Type} (a : A) : M L A := fun l => Ret (Ok a, l).

Definition raise {L A : Type} (e : exn) : M L A := fun l => Ret (Raise e, l).

Definition bind {L A B : Type} (m : M L A) (f : A -> M L B) : M L B :=
  fun l => bind_prog (m l)
             (fun rl => match rl with
                        | (Ok a, l1) => f a l1
                        | (Raise e, l1) => Ret (Raise e, l1)
                        end).

Notation "x <- m ;; k" := (bind m (fun x => k))
  (at level 61, m at next level, right associativity).
Notation "m ;; k" := (bind m (fun _ => k))
  (at level 61, right associativity).

(** [try: body / except Exception as e: handler e] *)
Definition try_except {L A : Type} (body : M L A) (handler : exn -> M L A) : M L A :=
  fun l => bind_prog (body l)
             (fun rl => match rl with
                        | (Ok a, l1) => Ret (Ok a, l1)
                        | (Raise e, l1) => handler e l1
                        end).

(** A call that cannot raise. *)
Definition perform {L X : Type} (c : call X) : M L X :=
  fun l => Vis c (fun x => Ret (Ok x, l)).

(** A call that returns or raises. *)
Definition attempt_call {L X : Type} (c : call (result X)) : M L X :=
  fun l => Vis c (fun x => Ret (x, l)).

Definition of_result {L A : Type} (r : result A) : M L A := fun l => Ret (r, l).

Definition get_local {L A : Type} (f : L -> A) : M L A := fun l => Ret (Ok (f l), l).
Definition set_local {L : Type} (f : L -> L) : M L unit := fun l => Ret (Ok tt, f l).

(** [with lock: body]: the lock is released however the body ends. *)
Definition with_lock {L A : Type} (body : M L A) : M L A :=
  fun l => Vis lock_acquire
             (fun _ => bind_prog (body l) (fun rl => Vis lock_release (fun _ => Ret rl))).

(** [for x in xs: body x], where the body either falls through to the
    next iteration ([None], also on [continue]) or returns from the
    function ([Some v]). *)
Fixpoint for_in {L R : Type} (xs : list Z) (body : Z -> M L (option R)) : M L (option R) :=
  match xs with
  | [] => ret None
  | x :: xs' =>
      r <- body x ;;
      match r with
      | Some v => ret (Some v)
      | None => for_in xs' body
      end
  end.

(** The function called with initial locals [l]. *)
Definition call_with {L A : Type} (l : L) (m : M L A) : prog (result A) :=
  bind_prog (m l) (fun rl => Ret (fst rl)).

(** [time.sleep(secs)] converts the length to a number of nanoseconds in a
    signed 64-bit integer: a length out of that range raises OverflowError,
    and a negative length in the range raises ValueError. *)
Definition sleep_error : exn := Exn "ValueError" "sleep length must be non-negative".

Definition sleep_overflow : exn :=
  Exn "OverflowError" "timestamp too large to convert to C _PyTime_t".

(** 2^63 nanoseconds, in seconds. *)
Definition sleep_limit : Q := 9223372036854775808 # 1000000000.

(** What [time.sleep(secs)] raises, if it raises. *)
Definition sleep_exception (secs : Q) : option exn :=
  if Qle_bool sleep_limit secs then Some sleep_overflow
  else if negb (Qle_bool (- sleep_limit) secs) then Some sleep_overflow
  else if Qle_bool 0 secs then None
  else Some sleep_error.

Definition time_sleep {L : Type} (secs : Q) : M L unit :=
  match sleep_exception secs with
  | None => perform (sleep_call secs)
  | Some e => raise e
  end.

(** [x[key]] on a parsed JSON value *)
Definition subscript {L : Type} (x : json) (key : string) : M L json :=
  match x with
  | JObj members =>
      match dict_get members key with
      | Some v => ret v
      | None => raise (Exn "KeyError" (repr_str key))
      end
  | _ => raise (Exn "TypeError" "object is not subscriptable with a string")
  end.

(** The operand of [x - 180] *)
Definition number {L : Type} (x : json) : M L Q :=
  match py_number x with
  | Some q => ret q
  | None => raise (Exn "TypeError" "unsupported operand type(s) for -")
  end.

(** ** The thread pool

    [create_objects] submits one call of [create_object] per object
    definition to a [ThreadPoolExecutor] and collects the futures with
    [as_completed].  The workers share the token file and the session;
    what one worker observes of them, the effect of the other workers
    included, is the environment that worker runs against: worker [i]
    runs from the state [worker_state i].  [completed] lists the
    positions of the futures in the order in which they complete. *)

Definition as_completed {A : Type} (futures : list A) (completed : list nat) : list A :=
  flat_map (fun i => match nth_error futures i with
                     | Some future => [future]
                     | None => []
                     end) completed.

Definition enumerate {A : Type} (l : list A) : list (nat * A) :=
  combine (seq 0 (length l)) l.

(** [executor.submit(f, item)] for every item: the future of item [i] holds
    what the call returns or raises. *)
Definition submit_all {S : Type} (h : handler S) (worker_state : nat -> S)
    (f : object_definition -> prog (result outcome)) (items : list object_definition)
  : list (result outcome) :=
  map (fun ix => returned (run h (f (snd ix)) (worker_state (fst ix)))) (enumerate items).

(** [for future in as_completed(futures): result = future.result();
    results.append(result); print(result); logging.info(result)];
    [future.result()] raises what the call raised. *)
Fixpoint collect (futures : list (result outcome)) : M (list outcome) unit :=
  match futures with
  | [] => ret tt
  | future :: rest =>
      result <- of_result future ;;
      set_local (fun results => results ++ [result])%list ;;
      perform (print (str_tuple result)) ;;
      perform (logging "INFO" (str_tuple result)) ;;
      collect rest
  end.

(** [ThreadPoolExecutor(max_workers=n)] *)
Definition check_max_workers {L : Type} (max_workers : Z) : M L unit :=
  if (max_workers <=? 0)%Z
  then raise (Exn "ValueError" "max_workers must be greater than 0")
  else ret tt.

(** ** post_utils.py *)

Module PostUtils.

(** [token_is_expired(access_token, token_file)] *)
Definition token_is_expired {L : Type} (access_token token_file : string) : M L bool :=
  file_exists <- perform (os_path_exists token_file) ;;
  if file_exists : bool then
    token_data <- attempt_call (json_load token_file) ;;
    current_time <- perform time_time ;;
    expires_at <- subscript token_data "expires_at" ;;
    expires_at <- number expires_at ;;
    ret (py_gt current_time (expires_at - 180))
  else
    ret true.

(** The local variables of [create_object] that its statements assign;
    [error_response] is [None] until its first assignment.  [headers] is
    the dict of the caller, into which [create_object] assigns: the record
    holds its contents as the statements of this call leave them.
    [create_objects] passes one dict to all its workers; what another
    worker assigns into it while this call runs is not part of a run of
    this call. *)
Record locals : Type := Locals {
  access_token : string;
  headers : dict;
  error_response : option json
}.

Definition set_access_token (v : string) (l : locals) : locals :=
  Locals v (headers l) (error_response l).
Definition set_authorization (v : string) (l : locals) : locals :=
  Locals (access_token l) (dict_set (headers l) "Authorization" (JStr v)) (error_response l).
Definition set_error_response (v : json) (l : locals) : locals :=
  Locals (access_token l) (headers l) (Some v).

(** Reading the local [error_response] *)
Definition read_error_response : M locals json :=
  v <- get_local error_response ;;
  match v with
  | Some j => ret j
  | None =>
      raise (Exn "UnboundLocalError"
               "cannot access local variable 'error_response' where it is not associated with a value")
  end.

(** One iteration of the loop of [create_object]: the [try] statement. *)
Definition create_object_attempt (url : string) (item_data : object_definition)
    (delay : Q) (client_id client_secret tsg_id token_file : string)
    (attempt : Z) : M locals (option outcome) :=
  try_except
    (with_lock
       (tok <- get_local access_token ;;
        expired <- token_is_expired tok token_file ;;
        if expired : bool then
          perform (print "Token expired, refreshing token...") ;;
          perform (logging "DEBUG" "Token expired, refreshing token...") ;;
          tok <- attempt_call
                   (obtain_api_token client_id client_secret tsg_id token_file true) ;;
          set_local (set_access_token tok) ;;
          set_local (set_authorization ("Bearer " ++ tok))
        else ret tt) ;;
     hdrs <- get_local headers ;;
     response <- attempt_call (requests_post url hdrs item_data 10) ;;
     if (status_code response =? 201)%Z then
       ret (Some ["This object created"; item_name item_data])
     else if (status_code response =? 400)%Z then
       body <- of_result (response_json response) ;;
       set_local (set_error_response body) ;;
       let error_response_str := lower (py_str body) in
       if contains "object already exists" error_response_str then
         ret (Some ["This object exists"; item_name item_data])
       else if contains "is not a valid reference" error_response_str then
         perform (print ("Invalid reference in object '" ++ item_name item_data ++ "'")) ;;
         perform (logging "WARNING"
                    ("Invalid reference in object '" ++ item_name item_data
                     ++ " -- we do re-attempt, verify this went through properly'")) ;;
         time_sleep delay ;;
         ret None
       else
         perform (logging "ERROR"
                    ("Error response for '" ++ item_name item_data ++ "': " ++ py_str body)) ;;
         ret (Some ["error creating object"; item_name item_data;
                    "Error: Object creation failed"])
     else
       ret None)
    (fun e =>
       body <- read_error_response ;;
       perform (logging "ERROR"
                  ("Error response for '" ++ item_name item_data ++ "': " ++ py_str body)) ;;
       ret (Some ["error creating object"; item_name item_data; "Exception occurred"])).

(** [create_object(url, headers, item_data, retries, delay, client_id,
    client_secret, tsg_id, token_file)] *)
Definition create_object (url : string) (headers : dict) (item_data : object_definition)
    (retries : Z) (delay : Q) (client_id client_secret tsg_id token_file : string)
  : prog (result outcome) :=
  call_with (Locals "" headers None)
    (tok <- attempt_call (obtain_api_token client_id client_secret tsg_id token_file false) ;;
     set_local (set_access_token tok) ;;
     set_local (set_authorization ("Bearer " ++ tok)) ;;
     r <- for_in (range (retries + 1))
            (create_object_attempt url item_data delay
               client_id client_secret tsg_id token_file) ;;
     match r with
     | Some v => ret v
     | None => ret ["error creating object"; item_name item_data; "Failed after retries"]
     end).

(** [create_objects(scope, start_index, object_type, data, client_id,
    client_secret, tsg_id, token_file, max_workers, object_name_field,
    extra_query_params)] *)
Definition create_objects {S : Type} (h : handler S) (s : S) (worker_state : nat -> S)
    (completed : list nat)
    (scope : string) (start_index : Z) (object_type : string)
    (data : list object_definition)
    (client_id client_secret tsg_id token_file : string) (max_workers : Z)
    (extra_query_params : string)
  : result (list outcome) * S * list event :=
  let url := "https://api.sase.paloaltonetworks.com/sse/config/v1/" ++ object_type
             ++ extra_query_params ++ "type=container&folder=" ++ scope in
  let headers := [("Content-Type", JStr "application/json")] in
  run h
    (call_with []
       (tok <- attempt_call
                 (obtain_api_token client_id client_secret tsg_id token_file false) ;;
        let headers := dict_set headers "Authorization" (JStr ("Bearer " ++ tok)) in
        check_max_workers max_workers ;;
        let futures :=
          submit_all h worker_state
            (fun item_data =>
               create_object url headers item_data 2 10
                 client_id client_secret tsg_id token_file)
            (slice_from start_index data) in
        collect (as_completed futures completed) ;;
        get_local (fun results => results)))
    s.

Definition default_retries : Z := 1.
Definition default_delay : Q := 5.

(** [refresh_token_if_needed(access_token, client_id, client_secret,
    tsg_id, token_file)]; it returns the pair of the token and of the
    Authorization header. *)
Definition refresh_token_if_needed
    (access_token client_id client_secret tsg_id token_file : string)
  : prog (result (string * string)) :=
  call_with tt
    (file_exists <- perform (os_path_exists token_file) ;;
     token_data <- (if file_exists : bool
                    then attempt_call (json_load token_file)
                    else ret (JObj [("access_token", JNull);
                                    ("expires_at", JNum 0 "0")])) ;;
     expired <- token_is_expired access_token token_file ;;
     if expired : bool then
       access_token <- attempt_call
                         (obtain_api_token client_id client_secret tsg_id token_file true) ;;
       let auth_header := "Bearer " ++ access_token in
       ret (access_token, auth_header)
     else
       ret (access_token, "Bearer " ++ access_token)).

End PostUtils.

(** ** scm/__init__.py, class PanApiHandler *)

Module PanApiHandler.

Definition BASE_URL : string := "https://api.sase.paloaltonetworks.com".

(** [self.ensure_valid_token()] *)
Definition ensure_valid_token {L : Type} : M L unit :=
  attempt_call session_ensure_valid_token.

(** [x.get("data", [])] on what [response.json()] returned *)
Definition get_data {L : Type} (x : json) : M L json :=
  match x with
  | JObj members =>
      match dict_get members "data" with
      | Some v => ret v
      | None => ret (JArr [])
      end
  | _ => raise (Exn "AttributeError" "object has no attribute 'get'")
  end.

(** [list_objects(self, endpoint, folder_scope, position, limit)] *)
Definition list_objects (endpoint folder_scope position : string) (limit : Z)
  : prog (result json) :=
  call_with tt
    (ensure_valid_token ;;
     let url := BASE_URL ++ "/" ++ endpoint ++ "?position=" ++ position
                ++ "&folder=" ++ folder_scope ++ "&limit=" ++ str_int limit
                ++ "&offset=0" in
     got <- try_except
              (response <- attempt_call (session_get url) ;;
               ret (Some response))
              (fun err =>
                 perform (logging "ERROR" ("Error in list_objects: " ++ exn_text err)) ;;
                 ret None) ;;
     match got with
     | None => ret (JArr [])
     | Some response =>
         if (status_code response =? 200)%Z then
           body <- of_result (response_json response) ;;
           get_data body
         else
           perform (logging "ERROR"
                      ("Error retrieving list: Status Code "
                       ++ str_int (status_code response)
                       ++ ", Response: " ++ text response)) ;;
           ret (JArr [])
     end).

(** One iteration of the loop of [create_object]: the [try] statement. *)
Definition create_object_attempt (url : string) (item_data : object_definition)
    (retries : Z) (delay : Q) (attempt : Z) : M unit (option outcome) :=
  try_except
    (ensure_valid_token ;;
     response <- attempt_call (session_post url item_data 10) ;;
     if (status_code response =? 201)%Z then
       ret (Some ["This object created"; item_name item_data])
     else
       error_response <- of_result (response_json response) ;;
       let failed :=
         ret (Some ["error creating object"; item_name item_data;
                    "Error: Object creation failed"]) in
       if (status_code response =? 400)%Z then
         if contains "object already exists" (lower (py_str error_response)) then
           perform (logging "INFO"
                      ("Object already exists for '" ++ item_name item_data ++ "'")) ;;
           ret (Some ["This object exists"; item_name item_data])
         else if contains "is not a valid reference" (lower (py_str error_response)) then
           perform (logging "WARNING"
                      ("Invalid reference in object '" ++ item_name item_data ++ "'")) ;;
           time_sleep delay ;;
           ret None
         else if contains "max retries exceeded" (lower (py_str error_response)) then
           perform (logging "WARNING"
                      ("You might be hitting rate limiter with object '"
                       ++ item_name item_data)) ;;
           time_sleep delay ;;
           ret None
         else
           perform (logging "ERROR"
                      ("API Error for '" ++ item_name item_data ++ "': Response: "
                       ++ text response ++ ", Status Code: "
                       ++ str_int (status_code response))) ;;
           failed
       else failed)
    (fun e =>
       perform (logging "ERROR"
                  ("Exception occurred for '" ++ item_name item_data ++ "': "
                   ++ exn_text e)) ;;
       if (attempt <? retries)%Z then
         time_sleep delay ;;
         ret None
       else
         ret (Some ["error creating object"; item_name item_data;
                    "Exception: " ++ exn_text e])).

(** [create_object(self, endpoint, item_data, retries, delay)] *)
Definition create_object (endpoint : string) (item_data : object_definition)
    (retries : Z) (delay : Q) : prog (result outcome) :=
  call_with tt
    (let url := BASE_URL ++ endpoint in
     r <- for_in (range (retries + 1)) (create_object_attempt url item_data retries delay) ;;
     match r with
     | Some v => ret v
     | None => ret ["error creating object"; item_name item_data; "Failed after retries"]
     end).

(** [create_objects(self, scope, start_index, object_type, data,
    max_workers, object_name_field, extra_query_params)] *)
Definition create_objects {S : Type} (h : handler S) (s : S) (worker_state : nat -> S)
    (completed : list nat)
    (scope : string) (start_index : Z) (object_type : string)
    (data : list object_definition) (max_workers : Z) (extra_query_params : string)
  : result (list outcome) * S * list event :=
  let endpoint := object_type ++ extra_query_params ++ "&type=container&folder=" ++ scope in
  run h
    (call_with []
       (check_max_workers max_workers ;;
        perform (print ("Running with " ++ str_int max_workers ++ " workers.")) ;;
        perform (logging "INFO" ("Running with " ++ str_int max_workers ++ " workers.")) ;;
        let futures :=
          submit_all h worker_state
            (fun item_data => create_object endpoint item_data 2 0.5)
            (slice_from start_index data) in
        collect (as_completed futures completed) ;;
        get_local (fun results => results)))
    s.

Definition default_retries : Z := 1.
Definition default_delay : Q := 0.5.
Definition default_limit : Z := 10000.

End PanApiHandler.

(** ** Observations on a trace *)

(** The requests and the sleeps of a run, in order. *)
Inductive step : Type :=
| Posted (answer : result response)
| Slept (secs : Q).

Definition step_of (ev : event) : list step :=
  match ev with
  | Event c x =>
      match c in call X return X -> list step with
      | requests_post _ _ _ _ => fun answer => [Posted answer]
      | session_post _ _ _ => fun answer => [Posted answer]
      | sleep_call secs => fun _ => [Slept secs]
      | _ => fun _ => []
      end x
  end.

Definition steps (tr : list event) : list step := flat_map step_of tr.

Definition post_of (st : step) : list (result response) :=
  match st with
  | Posted answer => [answer]
  | Slept _ => []
  end.

(** The answers to the POST requests of a run, in order. *)
Definition posts (tr : list event) : list (result response) :=
  flat_map post_of (steps tr).

Definition sleep_of (st : step) : list Q :=
  match st with
  | Posted _ => []
  | Slept secs => [secs]
  end.

(** The lengths of the sleeps of a run, in order. *)
Definition sleeps (tr : list event) : list Q := flat_map sleep_of (steps tr).

(** Every iteration of the loop of [PanApiHandler.create_object] starts
    with [ensure_valid_token], and every iteration of the loop of
    [post_utils.create_object] starts by taking the refresh lock: the
    number of these calls is the number of attempts made. *)
Definition starts_attempt (ev : event) : bool :=
  match ev with
  | Event session_ensure_valid_token _ => true
  | Event lock_acquire _ => true
  | _ => false
  end.

Definition attempts (tr : list event) : nat := length (filter starts_attempt tr).

(** Calls of [obtain_api_token] with [force_refresh=True]. *)
Definition is_refresh (ev : event) : bool :=
  match ev with
  | Event (obtain_api_token _ _ _ _ true) _ => true
  | _ => false
  end.

Definition refreshes (tr : list event) : nat := length (filter is_refresh tr).

(** ** Classification of a response, as the claims word it *)

Definition body_contains (sub : string) (r : response) : bool :=
  match response_json r with
  | Ok body => contains sub (lower (py_str body))
  | Raise _ => false
  end.

Definition is_400_with (sub : string) (answer : result response) : bool :=
  match answer with
  | Ok r => andb (status_code r =? 400)%Z (body_contains sub r)
  | Raise _ => false
  end.

Definition raised {A : Type} (answer : result A) : bool :=
  match answer with
  | Ok _ => false
  | Raise _ => true
  end.

(** A response that is neither a 201 nor a 400 with one of the three
    phrases, and whose body parses. *)
Definition is_other_failure (answer : result response) : bool :=
  match answer with
  | Ok r =>
      andb (negb (status_code r =? 201)%Z)
        (andb (negb (raised (response_json r)))
           (negb (andb (status_code r =? 400)%Z
                    (orb (body_contains "object already exists" r)
                       (orb (body_contains "is not a valid reference" r)
                          (body_contains "max retries exceeded" r))))))
  | Raise _ => false
  end.

(** A response after which the local [error_response] of
    [post_utils.create_object] is bound: a 400 whose body parses. *)
Definition binds_error_response (answer : result response) : bool :=
  match answer with
  | Ok r => andb (status_code r =? 400)%Z (negb (raised (response_json r)))
  | Raise _ => false
  end.

(** The phrases: a 400 with [sub] and without the phrase of an existing
    object. *)
Definition is_retried_400 (sub : string) (answer : result response) : bool :=
  andb (is_400_with sub answer) (negb (is_400_with "object already exists" answer)).

(** In [st], every request whose answer satisfies [P] is directly followed
    by a sleep of [delay]. *)
Fixpoint sleeps_after (P : result response -> bool) (delay : Q) (st : list step) : Prop :=
  match st with
  | [] => True
  | Posted a :: rest =>
      (P a = true -> exists rest', rest = Slept delay :: rest')
      /\ sleeps_after P delay rest
  | Slept _ :: rest => sleeps_after P delay rest
  end.

(** The steps of a run that sleeps after every request but the last. *)
Fixpoint retry_steps (delay : Q) (answers : list (result response)) : list step :=
  match answers with
  | [] => []
  | [a] => [Posted a]
  | a :: rest => Posted a :: Slept delay :: retry_steps delay rest
  end.

(** ** A scripted environment

    A concrete environment for running the programs on examples: the
    token file, the clock, and the answers the services give to the
    successive requests. *)
Record world : Type := World {
  token_store : option json;               (* the token file; [None]: no file *)
  clock : Q;
  post_answers : list (result response);   (* answers to the successive POSTs *)
  get_answers : list (result response);    (* answers to the successive GETs *)
  provider : list (result (string * json));(* successive answers of the token provider *)
  session_token : list (result unit)       (* successive [session.ensure_valid_token()] *)
}.

Definition connection_error : exn :=
  Exn "ConnectionError" "Max retries exceeded with url".

Definition next_answer {A : Type} (l : list (result A)) (default : result A)
  : result A * list (result A) :=
  match l with
  | [] => (default, [])
  | a :: l' => (a, l')
  end.

(** Modelled from the spec: [token_utils.obtain_api_token] is not part of
    these files.  Without [force_refresh] it serves the token cached in the
    token store when there is one; otherwise it asks the provider for a
    credential, writes it to the store and returns its token; a provider
    failure is raised. *)
Definition world_obtain_api_token (force_refresh : bool) (w : world)
  : result string * world :=
  let cached :=
    match token_store w with
    | Some (JObj members) =>
        match dict_get members "access_token" with
        | Some (JStr tok) => Some tok
        | _ => None
        end
    | _ => None
    end in
  match force_refresh, cached with
  | false, Some tok => (Ok tok, w)
  | _, _ =>
      match provider w with
      | [] => (Raise (Exn "AuthError" "no credential"), w)
      | Raise e :: rest =>
          (Raise e,
           World (token_store w) (clock w) (post_answers w) (get_answers w) rest
             (session_token w))
      | Ok (tok, credential) :: rest =>
          (Ok tok,
           World (Some credential) (clock w) (post_answers w) (get_answers w) rest
             (session_token w))
      end
  end.

Definition world_post (w : world) : result response * world :=
  let '(a, rest) := next_answer (post_answers w) (Raise connection_error) in
  (a, World (token_store w) (clock w) rest (get_answers w) (provider w) (session_token w)).

Definition world_handler : handler world :=
  fun X c =>
    match c in call X return world -> X * world with
    | obtain_api_token _ _ _ _ force_refresh => world_obtain_api_token force_refresh
    | os_path_exists _ =>
        fun w => (match token_store w with Some _ => true | None => false end, w)
    | json_load _ =>
        fun w => (match token_store w with
                  | Some j => Ok j
                  | None => Raise (Exn "FileNotFoundError" "No such file or directory")
                  end, w)
    | time_time => fun w => (clock w, w)
    | sleep_call secs =>
        fun w => (tt, World (token_store w) (clock w + secs) (post_answers w) (get_answers w)
                        (provider w) (session_token w))
    | requests_post _ _ _ _ => world_post
    | session_post _ _ _ => world_post
    | session_ensure_valid_token =>
        fun w => let '(a, rest) := next_answer (session_token w) (Ok tt) in
                 (a, World (token_store w) (clock w) (post_answers w) (get_answers w)
                       (provider w) rest)
    | session_get _ =>
        fun w => let '(a, rest) := next_answer (get_answers w) (Raise connection_error) in
                 (a, World (token_store w) (clock w) (post_answers w) rest (provider w)
                       (session_token w))
    | logging _ _ => fun w => (tt, w)
    | print _ => fun w => (tt, w)
    | lock_acquire => fun w => (tt, w)
    | lock_release => fun w => (tt, w)
    end.

(** Example data. *)

Definition credential (tok : string) (expires_at : Z) : json :=
  JObj [("access_token", JStr tok);
        ("expires_at", JNum (inject_Z expires_at) (str_int expires_at))].

Definition address1 : object_definition :=
  ObjectDefinition "web-1" [("name", JStr "web-1"); ("ip_netmask", JStr "10.0.0.1/32")].

Definition address2 : object_definition :=
  ObjectDefinition "web-2" [("name", JStr "web-2"); ("ip_netmask", JStr "10.0.0.2/32")].

(** The text of a JSON document (no character of the examples needs an
    escape other than the two given). *)
Fixpoint json_text_chars (s : string) : string :=
  match s with
  | EmptyString => ""
  | String c s' =>
      (if orb (Ascii.eqb c dquote) (Ascii.eqb c backslash)
       then String backslash (String c "") else String c "")
      ++ json_text_chars s'
  end.

Definition json_text_str (s : string) : string :=
  String dquote (json_text_chars s ++ String dquote "").

Fixpoint json_text (j : json) : string :=
  match j with
  | JNull => "null"
  | JBool true => "true"
  | JBool false => "false"
  | JNum _ text => text
  | JStr s => json_text_str s
  | JArr items => "[" ++ join ", " (map json_text items) ++ "]"
  | JObj members =>
      "{" ++ join ", " (map (fun kv => let '(k, v) := kv in
                                       json_text_str k ++ ": " ++ json_text v) members)
          ++ "}"
  end.

Definition json_response (status : Z) (body : json) : response :=
  Response status (json_text body) (Ok body).

Definition already_exists_400 : response :=
  json_response 400 (JObj [("detail", JStr "Object already exists")]).

Definition invalid_reference_400 : response :=
  json_response 400
    (JObj [("_errors", JArr [JObj [("message", JStr "'grp-1' is not a valid reference")]])]).

Definition rate_limited_400 : response :=
  json_response 400 (JObj [("message", JStr "Max retries exceeded")]).

Definition server_error_500 : response :=
  json_response 500 (JObj [("message", JStr "Internal Server Error")]).

Definition timeout_error : exn := Exn "ReadTimeout" "Read timed out. (read timeout=10)".

(** A body with two of the phrases: the name of the missing reference is
    "Object already exists". *)
Definition overlap_400 : response :=
  json_response 400
    (JObj [("message", JStr "'Object already exists' is not a valid reference")]).

Definition created_201 : response :=
  json_response 201 (JObj [("id", JStr "0001")]).

Definition auth_error : exn := Exn "AuthError" "token refresh failed".

(** A world with a token file valid until 2000, at time 1000. *)
Definition world_at (posts : list (result response)) : world :=
  World (Some (credential "tok-0" 2000)) 1000 posts [] [] [].

(** The same token file, at the time [now]. *)
Definition world_time (now : Q) : world :=
  World (Some (credential "tok-0" 2000)) now [] [] [] [].

(** A world whose session cannot get a valid token. *)
Definition world_without_session : world :=
  World None 1000 [] [] [] [Raise auth_error].

(** A world whose GET requests are answered by [gets]. *)
Definition world_get (gets : list (result response)) : world :=
  World None 1000 [] gets [] [].

Definition addresses_url : string :=
  "https://api.sase.paloaltonetworks.com/sse/config/v1/addresses?type=container&folder=Shared".

Definition addresses_endpoint : string :=
  "/sse/config/v1/addresses?type=container&folder=Shared".

Definition json_headers : dict := [("Content-Type", JStr "application/json")].

(** [post_utils.create_object] for [address1], as [create_objects] calls
    it but for the number of retries, in a world that answers the
    successive POSTs by [posts]. *)
Definition post_utils_run (posts : list (result response)) (retries : Z)
  : result outcome * world * list event :=
  run world_handler
    (PostUtils.create_object addresses_url json_headers address1 retries 10
       "id" "secret" "tsg" "token.json")
    (world_at posts).

(** [PanApiHandler.create_object] for [address1], likewise. *)
Definition scm_run (posts : list (result response)) (retries : Z)
  : result outcome * world * list event :=
  run world_handler
    (PanApiHandler.create_object addresses_endpoint address1 retries 0.5)
    (world_at posts).

(** Two workers: the request of the first times out, the second is
    answered by a 201. *)
Definition one_timeout (worker : nat) : world :=
  match worker with
  | O => world_at [Raise timeout_error]
  | _ => world_at [Ok created_201]
  end.

(** ** What a run can be observed to do

    The loops of [create_object] are described by what each iteration
    returns and which requests and sleeps it makes.  The relations below
    are proved to cover every run against every environment; the
    properties of [create_object] are then shown by induction on them. *)

Section Loop.
Context {L : Type}.
(** [iteration a l r l1 st]: started with locals [l], iteration [a] ends
    with [r] and locals [l1] after the steps [st]. *)
Variable iteration : Z -> L -> result (option outcome) -> L -> list step -> Prop.

(** [loop xs l r st n]: the loop over [xs] from locals [l] makes [n]
    iterations and the steps [st], and ends with [r]: [Ok (Some v)] when
    an iteration returns [v], [Ok None] when the list is exhausted. *)
Inductive loop : list Z -> L -> result (option outcome) -> list step -> nat -> Prop :=
| loop_exhausted l : loop [] l (Ok None) [] 0
| loop_return a xs l v l1 st :
    iteration a l (Ok (Some v)) l1 st ->
    loop (a :: xs) l (Ok (Some v)) st 1
| loop_raise a xs l e l1 st :
    iteration a l (Raise e) l1 st ->
    loop (a :: xs) l (Raise e) st 1
| loop_continue a xs l l1 st r st' n :
    iteration a l (Ok None) l1 st ->
    loop xs l1 r st' n ->
    loop (a :: xs) l r (st ++ st')%list (S n).
End Loop.

(** The value of the function after its loop. *)
Definition after_loop (name : string) (r : result (option outcome)) : result outcome :=
  match r with
  | Ok (Some v) => Ok v
  | Ok None => Ok (Failed name "Failed after retries")
  | Raise e => Raise e
  end.

Module PanApiHandlerSpec.
Section Spec.
Variables (name : string) (retries : Z) (delay : Q).

(** How the [try] block of an iteration ends. *)
Inductive try_block : result (option outcome) -> list step -> Prop :=
| token_raises e : try_block (Raise e) []
| post_raises e : try_block (Raise e) [Posted (Raise e)]
| created r :
    (status_code r =? 201)%Z = true ->
    try_block (Ok (Some (Created name))) [Posted (Ok r)]
| unparsed r e :
    (status_code r =? 201)%Z = false -> response_json r = Raise e ->
    try_block (Raise e) [Posted (Ok r)]
| exists_ r body :
    (status_code r =? 201)%Z = false -> response_json r = Ok body ->
    (status_code r =? 400)%Z = true ->
    contains "object already exists" (lower (py_str body)) = true ->
    try_block (Ok (Some (AlreadyExists name))) [Posted (Ok r)]
| invalid_reference r body :
    (status_code r =? 201)%Z = false -> response_json r = Ok body ->
    (status_code r =? 400)%Z = true ->
    contains "object already exists" (lower (py_str body)) = false ->
    contains "is not a valid reference" (lower (py_str body)) = true ->
    sleep_exception delay = None ->
    try_block (Ok None) [Posted (Ok r); Slept delay]
| rate_limited r body :
    (status_code r =? 201)%Z = false -> response_json r = Ok body ->
    (status_code r =? 400)%Z = true ->
    contains "object already exists" (lower (py_str body)) = false ->
    contains "is not a valid reference" (lower (py_str body)) = false ->
    contains "max retries exceeded" (lower (py_str body)) = true ->
    sleep_exception delay = None ->
    try_block (Ok None) [Posted (Ok r); Slept delay]
| invalid_reference_sleep_raises r body e :
    (status_code r =? 201)%Z = false -> response_json r = Ok body ->
    (status_code r =? 400)%Z = true ->
    contains "object already exists" (lower (py_str body)) = false ->
    contains "is not a valid reference" (lower (py_str body)) = true ->
    sleep_exception delay = Some e ->
    try_block (Raise e) [Posted (Ok r)]
| rate_limited_sleep_raises r body e :
    (status_code r =? 201)%Z = false -> response_json r = Ok body ->
    (status_code r =? 400)%Z = true ->
    contains "object already exists" (lower (py_str body)) = false ->
    contains "is not a valid reference" (lower (py_str body)) = false ->
    contains "max retries exceeded" (lower (py_str body)) = true ->
    sleep_exception delay = Some e ->
    try_block (Raise e) [Posted (Ok r)]
| failed_400 r body :
    (status_code r =? 201)%Z = false -> response_json r = Ok body ->
    (status_code r =? 400)%Z = true ->
    contains "object already exists" (lower (py_str body)) = false ->
    contains "is not a valid reference" (lower (py_str body)) = false ->
    contains "max retries exceeded" (lower (py_str body)) = false ->
    try_block (Ok (Some (Failed name "Error: Object creation failed"))) [Posted (Ok r)]
| failed_status r body :
    (status_code r =? 201)%Z = false -> response_json r = Ok body ->
    (status_code r =? 400)%Z = false ->
    try_block (Ok (Some (Failed name "Error: Object creation failed"))) [Posted (Ok r)].

(** An iteration: the [try] block, and the [except] clause when the
    block raises. *)
Inductive iteration (attempt : Z) :
  unit -> result (option outcome) -> unit -> list step -> Prop :=
| no_exception v st :
    try_block (Ok v) st -> iteration attempt tt (Ok v) tt st
| except_retry e st st' :
    try_block (Raise e) st -> (attempt <? retries)%Z = true ->
    sleep_exception delay = None -> st' = (st ++ [Slept delay])%list ->
    iteration attempt tt (Ok None) tt st'
| except_sleep_raises e st e' :
    try_block (Raise e) st -> (attempt <? retries)%Z = true ->
    sleep_exception delay = Some e' ->
    iteration attempt tt (Raise e') tt st
| except_exhausted e st :
    try_block (Raise e) st -> (attempt <? retries)%Z = false ->
    iteration attempt tt (Ok (Some (Failed name ("Exception: " ++ exn_text e)))) tt st.
End Spec.
End PanApiHandlerSpec.

Module PostUtilsSpec.
Section Spec.
Variables (name : string) (delay : Q).

Definition unbound_error : exn :=
  Exn "UnboundLocalError"
    "cannot access local variable 'error_response' where it is not associated with a value".

(** How the [try] block of an iteration ends, with the binding of the
    local [error_response] before and after it. *)
Inductive try_block (bound : option json) :
  result (option outcome) -> option json -> list step -> Prop :=
| token_raises e : try_block bound (Raise e) bound []
| post_raises e : try_block bound (Raise e) bound [Posted (Raise e)]
| created r :
    (status_code r =? 201)%Z = true ->
    try_block bound (Ok (Some (Created name))) bound [Posted (Ok r)]
| other_status r :
    (status_code r =? 201)%Z = false -> (status_code r =? 400)%Z = false ->
    try_block bound (Ok None) bound [Posted (Ok r)]
| unparsed r e :
    (status_code r =? 201)%Z = false -> (status_code r =? 400)%Z = true ->
    response_json r = Raise e ->
    try_block bound (Raise e) bound [Posted (Ok r)]
| exists_ r body :
    (status_code r =? 201)%Z = false -> (status_code r =? 400)%Z = true ->
    response_json r = Ok body ->
    contains "object already exists" (lower (py_str body)) = true ->
    try_block bound (Ok (Some (AlreadyExists name))) (Some body) [Posted (Ok r)]
| invalid_reference r body :
    (status_code r =? 201)%Z = false -> (status_code r =? 400)%Z = true ->
    response_json r = Ok body ->
    contains "object already exists" (lower (py_str body)) = false ->
    contains "is not a valid reference" (lower (py_str body)) = true ->
    sleep_exception delay = None ->
    try_block bound (Ok None) (Some body) [Posted (Ok r); Slept delay]
| sleep_raises r body e :
    (status_code r =? 201)%Z = false -> (status_code r =? 400)%Z = true ->
    response_json r = Ok body ->
    contains "object already exists" (lower (py_str body)) = false ->
    contains "is not a valid reference" (lower (py_str body)) = true ->
    sleep_exception delay = Some e ->
    try_block bound (Raise e) (Some body) [Posted (Ok r)]
| failed_400 r body :
    (status_code r =? 201)%Z = false -> (status_code r =? 400)%Z = true ->
    response_json r = Ok body ->
    contains "object already exists" (lower (py_str body)) = false ->
    contains "is not a valid reference" (lower (py_str body)) = false ->
    try_block bound (Ok (Some (Failed name "Error: Object creation failed")))
      (Some body) [Posted (Ok r)].

Definition is_bound (l : PostUtils.locals) : bool :=
  match PostUtils.error_response l with
  | Some _ => true
  | None => false
  end.

(** An iteration: the [try] block, and the [except] clause when the
    block raises; the clause reads [error_response]. *)
Inductive iteration (attempt : Z) :
  PostUtils.locals -> result (option outcome) -> PostUtils.locals -> list step -> Prop :=
| no_exception l v l1 st :
    try_block (PostUtils.error_response l) (Ok v) (PostUtils.error_response l1) st ->
    iteration attempt l (Ok v) l1 st
| except_bound l e l1 body st :
    try_block (PostUtils.error_response l) (Raise e) (PostUtils.error_response l1) st ->
    PostUtils.error_response l1 = Some body ->
    iteration attempt l (Ok (Some (Failed name "Exception occurred"))) l1 st
| except_unbound l e l1 st :
    try_block (PostUtils.error_response l) (Raise e) (PostUtils.error_response l1) st ->
    PostUtils.error_response l1 = None ->
    iteration attempt l (Raise unbound_error) l1 st.
End Spec.
End PostUtilsSpec.

(** ** Tactics *)

Ltac norm :=
  cbn -[contains lower py_str String.append str_int Z.eqb Z.ltb Qle_bool range
        sleep_exception] in *.

(** Take the answer of the environment [h] to the next call. *)
Ltac answer h :=
  match goal with
  | |- context [h ?X ?c ?s] =>
      let x := fresh "x" in
      let s' := fresh "s" in
      destruct (h X c s) as [x s']; norm
  end.

(** Follow both branches of the next test. *)
Ltac branch :=
  match goal with
  | |- context [match ?r with Ok _ => _ | Raise _ => _ end] => destruct r eqn:?; norm
  | |- context [match ?r with Some _ => _ | None => _ end] => destruct r eqn:?; norm
  | |- context [if ?b then _ else _] => destruct b eqn:?; norm
  end.


(** ** Workers running concurrently

    The workers of [post_utils.create_objects] run in threads and share the
    token file, the clock and the refresh lock.  A pool is the shared
    world, the holder of the lock and what is left to run of every worker;
    a step lets one worker make its next call, which the shared world
    answers.  A worker whose next call is [lock_acquire] cannot step while
    the lock is held.  Any order of steps is a possible execution. *)
Module Pool.

Record pool : Type := Pool_ {
  shared : world;
  lock_holder : option nat;
  threads : list (prog (result outcome));
  history : list event
}.

Definition is_acquire {X : Type} (c : call X) : bool :=
  match c with
  | lock_acquire => true
  | _ => false
  end.

Definition is_release {X : Type} (c : call X) : bool :=
  match c with
  | lock_release => true
  | _ => false
  end.

Definition held (p : pool) : bool :=
  match lock_holder p with
  | Some _ => true
  | None => false
  end.

Fixpoint set_nth {A : Type} (i : nat) (a : A) (l : list A) : list A :=
  match l, i with
  | [], _ => []
  | _ :: l', O => a :: l'
  | b :: l', S i' => b :: set_nth i' a l'
  end.

(** Worker [i] makes its next call. *)
Definition step (i : nat) (p : pool) : option pool :=
  match nth_error (threads p) i with
  | Some (Vis c k) =>
      if andb (is_acquire c) (held p) then None
      else
        let '(x, w) := world_handler _ c (shared p) in
        Some (Pool_ w
                (if is_acquire c then Some i
                 else if is_release c then None
                 else lock_holder p)
                (set_nth i (k x) (threads p))
                (history p ++ [Event c x])%list)
  | _ => None
  end.

(** The workers step in the order [turns]; the turn of a worker that is
    blocked or has returned is skipped. *)
Fixpoint schedule (turns : list nat) (p : pool) : pool :=
  match turns with
  | [] => p
  | i :: turns' =>
      match step i p with
      | Some p' => schedule turns' p'
      | None => schedule turns' p
      end
  end.

Definition start (w : world) (workers : list (prog (result outcome))) : pool :=
  Pool_ w None workers [].

Definition is_lock_release (ev : event) : bool :=
  match ev with
  | Event lock_release _ => true
  | _ => false
  end.

(** The number of times a worker has left the block guarded by the lock. *)
Definition releases (tr : list event) : nat := length (filter is_lock_release tr).

(** The calls a worker makes while it does not hold the lock. *)
Inductive ordinary : forall X : Type, call X -> Prop :=
| ordinary_obtain client_id client_secret tsg_id token_file :
    ordinary _ (obtain_api_token client_id client_secret tsg_id token_file false)
| ordinary_post url headers item timeout :
    ordinary _ (requests_post url headers item timeout)
| ordinary_sleep secs : 0 <= secs -> ordinary _ (sleep_call secs)
| ordinary_logging level msg : ordinary _ (logging level msg)
| ordinary_print msg : ordinary _ (print msg).

Section Phases.
Context {R : Type}.

(** Where a worker is.  [outside]: it does not hold the lock; its next
    calls are ordinary ones until it takes the lock.  Holding the lock it
    is [entering] (about to test the token file), [loading] (about to
    read it), [timing e] (about to read the clock, having read the expiry
    [e]), [refreshing] (it found the token expired and is about to call
    [obtain_api_token] with [force_refresh=True]) or [releasing]. *)
Inductive outside : prog R -> Prop :=
| outside_ret r : outside (Ret r)
| outside_call X (c : call X) k :
    ordinary X c -> (forall x, outside (k x)) -> outside (Vis c k)
| outside_acquire k : entering (k tt) -> outside (Vis lock_acquire k)
with entering : prog R -> Prop :=
| entering_exists path k :
    loading (k true) -> entering (Vis (os_path_exists path) k)
with loading : prog R -> Prop :=
| loading_load path k :
    (forall members e txt,
        dict_get members "expires_at" = Some (JNum e txt) ->
        timing e (k (Ok (JObj members)))) ->
    loading (Vis (json_load path) k)
with timing : Q -> prog R -> Prop :=
| timing_time e k :
    (forall now, e - 180 < now -> refreshing (k now)) ->
    (forall now, now <= e - 180 -> releasing (k now)) ->
    timing e (Vis time_time k)
with refreshing : prog R -> Prop :=
| refreshing_print msg k : refreshing (k tt) -> refreshing (Vis (print msg) k)
| refreshing_logging level msg k :
    refreshing (k tt) -> refreshing (Vis (logging level msg) k)
| refreshing_obtain client_id client_secret tsg_id token_file k :
    (forall answer, releasing (k answer)) ->
    refreshing (Vis (obtain_api_token client_id client_secret tsg_id token_file true) k)
with releasing : prog R -> Prop :=
| releasing_release k : outside (k tt) -> releasing (Vis lock_release k).

End Phases.

(** Induction over the phases together. *)
Scheme outside_mut := Minimality for outside Sort Prop
  with entering_mut := Minimality for entering Sort Prop
  with loading_mut := Minimality for loading Sort Prop
  with timing_mut := Minimality for timing Sort Prop
  with refreshing_mut := Minimality for refreshing Sort Prop
  with releasing_mut := Minimality for releasing Sort Prop.

Combined Scheme phases_mut from
  outside_mut, entering_mut, loading_mut, timing_mut, refreshing_mut, releasing_mut.

(** The token file holds one of two credentials: the one cached when the
    workers start, with the token [tok0] that expires at [e0], and the
    one the provider gives on a refresh, with [tok1] that expires at
    [e1]. *)
Definition cached (tok0 : string) (e0 : Q) (text0 : string) : json :=
  JObj [("access_token", JStr tok0); ("expires_at", JNum e0 text0)].

Definition expiry_of (j : json) : option Q :=
  match j with
  | JObj members =>
      match dict_get members "expires_at" with
      | Some (JNum e _) => Some e
      | _ => None
      end
  | _ => None
  end.

Definition next_is_release {R : Type} (p : prog R) : bool :=
  match p with
  | Vis c _ => is_release c
  | Ret _ => false
  end.

(** The next call is one of the branch that refreshes the token. *)
Definition next_refreshes {R : Type} (p : prog R) : bool :=
  match p with
  | Vis (print _) _ => true
  | Vis (logging _ _) _ => true
  | Vis (obtain_api_token _ _ _ _ true) _ => true
  | _ => false
  end.

Definition holder_is (i : nat) (p : pool) : bool :=
  match lock_holder p with
  | Some j => Nat.eqb i j
  | None => false
  end.

Definition store_expiry (w : world) : Q :=
  match token_store w with
  | Some j =>
      match expiry_of j with
      | Some e => e
      | None => 0
      end
  | None => 0
  end.

Section Invariant.
Variables (tok0 : string) (e0 : Q) (text0 : string).
Variables (tok1 : string) (e1 : Q) (text1 : string).
Variable now0 : Q.

(** Holding the lock, with the expiry [e] in the token file. *)
Definition inside (e : Q) (p : prog (result outcome)) : Prop :=
  entering p \/ loading p \/ timing e p \/ refreshing p \/ releasing p.

(** The pool is well formed: the token file holds one of the two
    credentials, the provider has the new credential to give or has given
    it, time has not gone back, and every worker is where the lock says. *)
Record well_formed (p : pool) : Prop := WellFormed {
  wf_store :
    token_store (shared p) = Some (cached tok0 e0 text0)
    \/ token_store (shared p) = Some (cached tok1 e1 text1);
  wf_provider :
    provider (shared p) = [Ok (tok1, cached tok1 e1 text1)] \/ provider (shared p) = [];
  wf_clock : now0 <= clock (shared p);
  wf_threads :
    forall i q, nth_error (threads p) i = Some q ->
                if holder_is i p then inside (store_expiry (shared p)) q else outside q
}.

(** At most one refresh: until it is made the old credential is in the
    file and no worker has left the guarded block; once it is made the
    new credential is in the file and no worker is about to refresh. *)
Record single_flight (p : pool) : Prop := SingleFlight {
  sf_before :
    refreshes (history p) = 0%nat ->
    token_store (shared p) = Some (cached tok0 e0 text0)
    /\ provider (shared p) = [Ok (tok1, cached tok1 e1 text1)]
    /\ releases (history p) = 0%nat
    /\ (forall i q, lock_holder p = Some i -> nth_error (threads p) i = Some q ->
                    next_is_release q = false);
  sf_after :
    refreshes (history p) <> 0%nat ->
    refreshes (history p) = 1%nat
    /\ token_store (shared p) = Some (cached tok1 e1 text1)
    /\ (forall i q, lock_holder p = Some i -> nth_error (threads p) i = Some q ->
                    next_refreshes q = false)
}.
End Invariant.

End Pool.

(** ** Workers of [post_utils.create_objects] at work *)

(** A token file whose token expires at 1100, read at time 1000: inside
    the 180 seconds before the expiry. *)
Definition expiring_world (posts : list (result response))
                          (answers : list (result (string * json))) : world :=
  World (Some (credential "tok-0" 1100)) 1000 posts [] answers [].

(** The workers [post_utils.create_objects] submits for [items]. *)
Definition pool_workers (items : list object_definition)
  : list (prog (result outcome)) :=
  map (fun item_data =>
         PostUtils.create_object addresses_url json_headers item_data 2 10
           "id" "secret" "tsg" "token.json") items.

(** [rounds] turns for each of [n] workers, in turn. *)
Definition round_robin (n rounds : nat) : list nat :=
  flat_map (fun _ => seq 0 n) (seq 0 rounds).

(** Three workers, a provider that answers with a credential good until
    5000. *)
Definition three_workers : Pool.pool :=
  Pool.schedule (round_robin 3 30)
    (Pool.start
       (expiring_world [Ok created_201; Ok created_201; Ok created_201]
          [Ok ("tok-1", credential "tok-1" 5000)])
       (pool_workers [address1; address2; address1])).

(** Two workers, a provider that fails. *)
Definition two_workers_failing_provider : Pool.pool :=
  Pool.schedule (round_robin 2 30)
    (Pool.start
       (expiring_world [Ok created_201; Ok created_201]
          [Raise auth_error; Raise auth_error])
       (pool_workers [address1; address2])).

(** Three workers and no token file: the first call of
    [obtain_api_token] asks the provider and writes the file. *)
Definition three_workers_without_file : Pool.pool :=
  Pool.schedule (round_robin 3 30)
    (Pool.start
       (World None 1000 [Ok created_201; Ok created_201; Ok created_201] []
          [Ok ("tok-1", credential "tok-1" 5000)] [])
       (pool_workers [address1; address2; address1])).

(** What a worker has returned, if it has. *)
Definition finished (p : prog (result outcome)) : option (result outcome) :=
  match p with
  | Ret r => Some r
  | Vis _ _ => None
  end.

(** ** The outcomes of [create_object] *)

(** The tuples [PanApiHandler.create_object] can return. *)
Definition scm_outcome (name : string) (v : outcome) : Prop :=
  v = Created name \/ v = AlreadyExists name
  \/ v = Failed name "Error: Object creation failed"
  \/ v = Failed name "Failed after retries"
  \/ exists e, v = Failed name ("Exception: " ++ exn_text e).

(** The tuples [post_utils.create_object] can return. *)
Definition post_utils_outcome (name : string) (v : outcome) : Prop :=
  v = Created name \/ v = AlreadyExists name
  \/ v = Failed name "Error: Object creation failed"
  \/ v = Failed name "Failed after retries"
  \/ v = Failed name "Exception occurred".

(** The exception of [response.json()] on a response other than a 201
    whose body is not JSON. *)
Definition unparsed_error (answer : result response) : option exn :=
  match answer with
  | Ok r =>
      if (status_code r =? 201)%Z then None
      else match response_json r with
           | Raise e => Some e
           | Ok _ => None
           end
  | Raise _ => None
  end.

Definition is_unparsed (answer : result response) : bool :=
  match unparsed_error answer with
  | Some _ => true
  | None => false
  end.

(** ** The discipline of the refresh lock *)

(** The calls of [token_is_expired] and of the refresh. *)
Definition is_guarded_call {X : Type} (c : call X) : bool :=
  match c with
  | os_path_exists _ => true
  | json_load _ => true
  | time_time => true
  | print _ => true
  | logging _ _ => true
  | obtain_api_token _ _ _ _ true => true
  | _ => false
  end.

(** The other calls of [post_utils.create_object]. *)
Definition is_open_call {X : Type} (c : call X) : bool :=
  match c with
  | obtain_api_token _ _ _ _ false => true
  | requests_post _ _ _ _ => true
  | sleep_call _ => true
  | print _ => true
  | logging _ _ => true
  | _ => false
  end.

(** A trace keeps the discipline of the lock, from a state in which the
    lock is held or not: acquisitions and releases alternate, the calls
    made while the lock is held are those of [token_is_expired] and of the
    refresh, the calls made while it is not held are the other ones, and
    at the end the lock is not held. *)
Fixpoint lock_discipline (held : bool) (tr : list event) : bool :=
  match tr with
  | [] => negb held
  | Event c _ :: rest =>
      if held then
        if Pool.is_release c then lock_discipline false rest
        else andb (is_guarded_call c) (lock_discipline true rest)
      else
        if Pool.is_acquire c then lock_discipline true rest
        else andb (is_open_call c) (lock_discipline false rest)
  end.

(** A program keeps the discipline of the lock whatever the answers to
    its calls are. *)
Inductive disciplined {R : Type} : bool -> prog R -> Prop :=
| disciplined_ret r : disciplined false (Ret r)
| disciplined_open X (c : call X) k :
    is_open_call c = true -> (forall x, disciplined false (k x)) ->
    disciplined false (Vis c k)
| disciplined_acquire k :
    disciplined true (k tt) -> disciplined false (Vis lock_acquire k)
| disciplined_guarded X (c : call X) k :
    is_guarded_call c = true -> (forall x, disciplined true (k x)) ->
    disciplined true (Vis c k)
| disciplined_release k :
    disciplined false (k tt) -> disciplined true (Vis lock_release k).

(** ** The token held *)

(** The token a function holds after an event, when it
    held [tok] before: the one [obtain_api_token] has just returned, if it
    did. *)
Definition token_after (tok : option string) (ev : event) : option string :=
  match ev with
  | Event c x =>
      match c in call X return X -> option string with
      | obtain_api_token _ _ _ _ _ =>
          fun answer => match answer with
                        | Ok t => Some t
                        | Raise _ => tok
                        end
      | _ => fun _ => tok
      end x
  end.

(** ** scm/__init__.py: [get_object] and [move_security_rule]

    These two methods call the session with arguments the calls above do
    not carry: [session.get(url, timeout=10)] and
    [session.post(url, json=payload)] with a payload that is any dict.
    Their programs are written over the calls above together with these
    two. *)
Module Extended.

Inductive request : Type -> Type :=
| earlier {X : Type} (c : call X) : request X
| session_get_timeout (url : string) (timeout : Q) : request (result response)
| session_post_json (url : string) (json : dict) : request (result response).

Inductive program (R : Type) : Type :=
| Return (r : R)
| Request {X : Type} (c : request X) (k : X -> program R).
Arguments Return {R} r.
Arguments Request {R X} c k.

Fixpoint and_then {A B : Type} (p : program A) (f : A -> program B) : program B :=
  match p with
  | Return a => f a
  | Request c k => Request c (fun x => and_then (k x) f)
  end.

(** A request together with the answer it received. *)
Inductive entry : Type :=
| Entry {X : Type} (c : request X) (x : X).

Definition environment (S : Type) : Type := forall X : Type, request X -> S -> X * S.

Fixpoint exec {S R : Type} (h : environment S) (p : program R) (s : S)
  : R * S * list entry :=
  match p with
  | Return r => (r, s, [])
  | Request c k =>
      let '(x, s1) := h _ c s in
      let '(r, s2, tr) := exec h (k x) s1 in
      (r, s2, Entry c x :: tr)
  end.

Definition value {S R : Type} (x : R * S * list entry) : R := fst (fst x).
Definition log {S R : Type} (x : R * S * list entry) : list entry := snd x.

(** A function body without assigned locals: it ends with a value or an
    exception. *)
Definition body (A : Type) : Type := program (result A).

Definition ret {A : Type} (a : A) : body A := Return (Ok a).
Definition raise {A : Type} (e : exn) : body A := Return (Raise e).

Definition bind {A B : Type} (m : body A) (f : A -> body B) : body B :=
  and_then m (fun r => match r with
                       | Ok a => f a
                       | Raise e => Return (Raise e)
                       end).

Declare Scope body_scope.
Notation "x <- m ;; k" := (bind m (fun x => k))
  (at level 61, m at next level, right associativity) : body_scope.
Notation "m ;; k" := (bind m (fun _ => k))
  (at level 61, right associativity) : body_scope.
#[local] Open Scope body_scope.

(** [try: m / except Exception as e: handler e] *)
Definition try_except {A : Type} (m : body A) (handler : exn -> body A) : body A :=
  and_then m (fun r => match r with
                       | Ok a => Return (Ok a)
                       | Raise e => handler e
                       end).

Definition perform {X : Type} (c : request X) : body X :=
  Request c (fun x => Return (Ok x)).

Definition attempt_call {X : Type} (c : request (result X)) : body X :=
  Request c (fun x => Return x).

Definition of_result {A : Type} (r : result A) : body A := Return r.

(** [for x in xs: f x], where [f x] falls through ([None]) or returns from
    the function ([Some v]). *)
Fixpoint for_in {R : Type} (xs : list Z) (f : Z -> body (option R)) : body (option R) :=
  match xs with
  | [] => ret None
  | x :: xs' =>
      r <- f x ;;
      match r with
      | Some v => ret (Some v)
      | None => for_in xs' f
      end
  end.

(** [time.sleep(secs)], with the exceptions of [sleep_exception]. *)
Definition time_sleep (secs : Q) : body unit :=
  match sleep_exception secs with
  | None => perform (earlier (sleep_call secs))
  | Some e => raise e
  end.

(** [x[key]] on a parsed JSON value *)
Definition subscript (x : json) (key : string) : body json :=
  match x with
  | JObj members =>
      match dict_get members key with
      | Some v => ret v
      | None => raise (Exn "KeyError" (repr_str key))
      end
  | _ => raise (Exn "TypeError" "object is not subscriptable with a string")
  end.

(** [self.ensure_valid_token()] *)
Definition ensure_valid_token : body unit :=
  attempt_call (earlier session_ensure_valid_token).

(** [if attempt < retries: time.sleep(delay)] *)
Definition sleep_if_attempts_remain (attempt retries : Z) (delay : Q) : body unit :=
  if (attempt <? retries)%Z then time_sleep delay else ret tt.

(** One iteration of the loop of [get_object]: the [try] statement. *)
Definition get_object_attempt (url : string) (retries : Z) (delay : Q) (attempt : Z)
  : body (option json) :=
  try_except
    (ensure_valid_token ;;
     response <- attempt_call (session_get_timeout url 10) ;;
     if (status_code response =? 200)%Z then
       parsed <- of_result (response_json response) ;;
       data <- subscript parsed "data" ;;
       ret (Some data)
     else
       parsed <- of_result (response_json response) ;;
       perform (earlier (logging "ERROR"
                           ("API Error when retrieving object: " ++ py_str parsed
                            ++ ", Status Code: " ++ str_int (status_code response)))) ;;
       sleep_if_attempts_remain attempt retries delay ;;
       ret None)
    (fun e =>
       perform (earlier (logging "ERROR"
                           ("Exception occurred when retrieving object: " ++ exn_text e))) ;;
       sleep_if_attempts_remain attempt retries delay ;;
       ret None).

(** [get_object(self, endpoint, retries, delay)] *)
Definition get_object (endpoint : string) (retries : Z) (delay : Q) : body json :=
  let url := PanApiHandler.BASE_URL ++ endpoint in
  r <- for_in (range (retries + 1)) (get_object_attempt url retries delay) ;;
  match r with
  | Some data => ret data
  | None => ret (JArr [])
  end.

(** [move_security_rule(self, rule_id, folder, destination,
    destination_rule, rulebase)]; [JNull] is [None]. *)
Definition move_security_rule (rule_id folder : string) (destination : json)
    (destination_rule : json) (rulebase : json) : body bool :=
  let endpoint := "/sse/config/v1/security-rules/" ++ rule_id ++ ":move" in
  let url := PanApiHandler.BASE_URL ++ "/" ++ endpoint in
  let payload := [("destination", destination); ("rulebase", rulebase)] in
  let payload :=
    match destination_rule with
    | JNull => payload
    | _ => dict_set payload "destination_rule" destination_rule
    end in
  ensure_valid_token ;;
  response <- attempt_call (session_post_json url payload) ;;
  if negb (status_code response =? 200)%Z then
    perform (earlier (logging "ERROR"
                        ("Error moving rule " ++ rule_id ++ ": " ++ text response))) ;;
    ret false
  else
    perform (earlier (logging "INFO" ("Successfully moved rule " ++ rule_id))) ;;
    ret true.

Definition default_rulebase : json := JStr "pre".

(** Observations on a log. *)
Definition is_get (en : entry) : bool :=
  match en with
  | Entry (session_get_timeout _ _) _ => true
  | _ => false
  end.

Definition is_post (en : entry) : bool :=
  match en with
  | Entry (session_post_json _ _) _ => true
  | _ => false
  end.

Definition is_sleep (en : entry) : bool :=
  match en with
  | Entry (earlier (sleep_call _)) _ => true
  | _ => false
  end.

Definition is_token_check (en : entry) : bool :=
  match en with
  | Entry (earlier session_ensure_valid_token) _ => true
  | _ => false
  end.

Definition count (f : entry -> bool) (tr : list entry) : nat := length (filter f tr).

(** The answers to the GET requests of a run, in order. *)
Definition gets (tr : list entry) : list (result response) :=
  flat_map (fun en => match en with
                      | Entry c x =>
                          match c in request X return X -> list (result response) with
                          | session_get_timeout _ _ => fun answer => [answer]
                          | _ => fun _ => []
                          end x
                      end) tr.

(** The POST requests of a run with their answers, in order. *)
Definition posted (tr : list entry) : list (string * dict * result response) :=
  flat_map (fun en => match en with
                      | Entry c x =>
                          match c in request X
                                return X -> list (string * dict * result response) with
                          | session_post_json url payload => fun answer => [(url, payload, answer)]
                          | _ => fun _ => []
                          end x
                      end) tr.

(** What [get_object] returns on the answer to a GET, if it returns on it:
    the member "data" of the body of a 200. *)
Definition data_of (answer : result response) : option json :=
  match answer with
  | Ok response =>
      if (status_code response =? 200)%Z then
        match response_json response with
        | Ok (JObj members) => dict_get members "data"
        | _ => None
        end
      else None
  | Raise _ => None
  end.

Definition has_data (answer : result response) : bool :=
  match data_of answer with
  | Some _ => true
  | None => false
  end.

(** The scripted environment, with the two requests answered like the
    other GET and POST requests. *)
Definition world_environment : environment world :=
  fun X c =>
    match c in request X return world -> X * world with
    | earlier c => world_handler _ c
    | session_get_timeout url _ => world_handler _ (session_get url)
    | session_post_json _ _ => world_post
    end.

End Extended.

(** What one iteration of the loop of [get_object] does: how it ends,
    the answers to its GET requests and the number of its sleeps. *)
Inductive get_attempt (retries : Z) (delay : Q) (attempt : Z) :
  result (option json) -> list (result response) -> nat -> Prop :=
| get_data answer data :
    Extended.data_of answer = Some data ->
    get_attempt retries delay attempt (Ok (Some data)) [answer] 0
| get_failed answers :
    (length answers <= 1)%nat -> existsb Extended.has_data answers = false ->
    (attempt <? retries)%Z = false ->
    get_attempt retries delay attempt (Ok None) answers 0
| get_failed_sleep answers :
    (length answers <= 1)%nat -> existsb Extended.has_data answers = false ->
    (attempt <? retries)%Z = true -> sleep_exception delay = None ->
    get_attempt retries delay attempt (Ok None) answers 1
| get_sleep_raises answers e :
    (length answers <= 1)%nat -> existsb Extended.has_data answers = false ->
    (attempt <? retries)%Z = true -> sleep_exception delay = Some e ->
    get_attempt retries delay attempt (Raise e) answers 0.

(** The attempts of [xs] after which a sleep can follow. *)
Definition with_attempts_left (retries : Z) (xs : list Z) : list Z :=
  filter (fun attempt => (attempt <? retries)%Z) xs.

(** ** More example data *)

Definition json_error : exn :=
  Exn "JSONDecodeError" "Expecting value: line 1 column 1 (char 0)".

(** A 502 whose body is a page of a gateway, not JSON. *)
Definition bad_gateway_502 : response :=
  Response 502 "<html><body>502 Bad Gateway</body></html>" (Raise json_error).

(** The scripted environment with a token file that cannot be parsed. *)
Definition unreadable_token_file : handler world :=
  fun X c =>
    match c in call X return world -> X * world with
    | json_load _ => fun w => (Raise json_error, w)
    | c' => world_handler _ c'
    end.

(** The workers of [post_utils.create_objects], as it submits them. *)
Definition post_utils_worker (scope object_type extra_query_params tok : string)
    (client_id client_secret tsg_id token_file : string) (item_data : object_definition)
  : prog (result outcome) :=
  PostUtils.create_object
    ("https://api.sase.paloaltonetworks.com/sse/config/v1/" ++ object_type
     ++ extra_query_params ++ "type=container&folder=" ++ scope)
    [("Content-Type", JStr "application/json"); ("Authorization", JStr ("Bearer " ++ tok))]
    item_data 2 10 client_id client_secret tsg_id token_file.

(** What [create_objects] prints and logs for the outcomes it collects. *)
Definition reported (results : list outcome) : list event :=
  flat_map (fun result => [Event (print (str_tuple result)) tt;
                           Event (logging "INFO" (str_tuple result)) tt]) results.

(** ** The attempts of [PanApiHandler.create_object], one by one *)

(** What an attempt does: it checks the token, sends its request, sleeps. *)
Inductive move : Type :=
| Checked (answer : result unit)
| Requested (answer : result response)
| Rested (secs : Q).

Definition move_of (ev : event) : list move :=
  match ev with
  | Event c x =>
      match c in call X return X -> list move with
      | session_ensure_valid_token => fun answer => [Checked answer]
      | session_post _ _ _ => fun answer => [Requested answer]
      | sleep_call secs => fun _ => [Rested secs]
      | _ => fun _ => []
      end x
  end.

Definition moves (tr : list event) : list move := flat_map move_of tr.

(** A move that neither starts an attempt nor is a request that raises. *)
Definition quiet (m : move) : bool :=
  match m with
  | Checked _ => false
  | Requested (Raise _) => false
  | _ => true
  end.

(** In the moves [mv], made from the attempt numbered [attempt] on (the
    attempts are numbered from 0, and a token check starts the next one),
    every request that raises is retried when attempts remain, that is
    when [attempt < retries]: it is followed by a sleep of [delay] and by
    the token check of the next attempt.  When no attempt remains it is
    the last move of the run. *)
Fixpoint raising_requests_retried (retries : Z) (delay : Q) (attempt : Z) (mv : list move)
  : Prop :=
  match mv with
  | [] => True
  | Checked _ :: rest => raising_requests_retried retries delay (attempt + 1) rest
  | Requested (Raise _) :: rest =>
      (if (attempt <? retries)%Z
       then exists answer rest', rest = Rested delay :: Checked answer :: rest'
       else rest = [])
      /\ raising_requests_retried retries delay attempt rest
  | _ :: rest => raising_requests_retried retries delay attempt rest
  end.

(** The moves of one attempt, with a delay that [time.sleep] accepts, and
    how the attempt ends. *)
Inductive scm_attempt_moves (name : string) (retries : Z) (delay : Q) (attempt : Z) :
  result (option outcome) -> list move -> Prop :=
| request_raises_retried e :
    (attempt <? retries)%Z = true ->
    scm_attempt_moves name retries delay attempt (Ok None)
      [Checked (Ok tt); Requested (Raise e); Rested delay]
| request_raises_last e :
    (attempt <? retries)%Z = false ->
    scm_attempt_moves name retries delay attempt
      (Ok (Some (Failed name ("Exception: " ++ exn_text e))))
      [Checked (Ok tt); Requested (Raise e)]
| no_request_raises c r rest :
    forallb quiet rest = true ->
    scm_attempt_moves name retries delay attempt r (Checked c :: rest).

(** ** More responses *)

(** A body with "max retries exceeded" and "object already exists". *)
Definition rate_limit_overlap_400 : response :=
  json_response 400
    (JObj [("message", JStr "Max retries exceeded: object already exists")]).

(** A 400 whose body is a text, not JSON. *)
Definition already_exists_text_400 : response :=
  Response 400 "Object already exists" (Raise json_error).

(** * Properties *)

(** ** Runs of composed programs *)

Lemma run_bind_prog {S A B : Type} (h : handler S) (p : prog A) (f : A -> prog B) (s : S) :
  run h (bind_prog p f) s =
  let '(a, s1, t1) := run h p s in
  let '(b, s2, t2) := run h (f a) s1 in
  (b, s2, (t1 ++ t2)%list).
Proof.
  revert s. induction p as [a | X c k IH]; intros s; cbn [bind_prog run].
  - destruct (run h (f a) s) as [[b s2] t2]. reflexivity.
  - destruct (h X c s) as [x s1]. rewrite IH.
    destruct (run h (k x) s1) as [[a s2] t1].
    destruct (run h (f a) s2) as [[b s3] t2]. reflexivity.
Qed.

Lemma run_call_with {S L A : Type} (h : handler S) (l : L) (m : M L A) (s : S) :
  run h (call_with l m) s =
  let '(rl, s1, t1) := run h (m l) s in (fst rl, s1, t1).
Proof.
  unfold call_with. rewrite run_bind_prog.
  destruct (run h (m l) s) as [[rl s1] t1]. cbn. now rewrite app_nil_r.
Qed.

Lemma run_bind {S L A B : Type} (h : handler S) (m : M L A) (f : A -> M L B) (l : L) (s : S) :
  run h (bind m f l) s =
  let '(rl, s1, t1) := run h (m l) s in
  match rl with
  | (Ok a, l1) => let '(b, s2, t2) := run h (f a l1) s1 in (b, s2, (t1 ++ t2)%list)
  | (Raise e, l1) => ((Raise e, l1), s1, t1)
  end.
Proof.
  unfold bind. rewrite run_bind_prog.
  destruct (run h (m l) s) as [[[[a | e] l1] s1] t1]; cbn.
  - reflexivity.
  - now rewrite app_nil_r.
Qed.

Lemma steps_app (t1 t2 : list event) : steps (t1 ++ t2) = (steps t1 ++ steps t2)%list.
Proof. apply flat_map_app. Qed.

Lemma posts_app (t1 t2 : list event) : posts (t1 ++ t2) = (posts t1 ++ posts t2)%list.
Proof. unfold posts. now rewrite steps_app, flat_map_app. Qed.

Lemma attempts_app (t1 t2 : list event) : attempts (t1 ++ t2) = (attempts t1 + attempts t2)%nat.
Proof. unfold attempts. now rewrite filter_app, length_app. Qed.

(** ** The loops are covered by the relations *)

Section LoopSound.
Context {S L : Type} (h : handler S).
Variable iteration : Z -> L -> result (option outcome) -> L -> list step -> Prop.
Variable body : Z -> M L (option outcome).
Hypothesis body_sound :
  forall a l s,
    let x := run h (body a l) s in
    iteration a l (fst (returned x)) (snd (returned x)) (steps (trace x))
    /\ attempts (trace x) = 1%nat.

Lemma for_in_sound (xs : list Z) (l : L) (s : S) :
  let x := run h (for_in xs body l) s in
  loop iteration xs l (fst (returned x)) (steps (trace x)) (attempts (trace x)).
Proof.
  revert l s. induction xs as [| a xs IH]; intros l s.
  - cbn. constructor.
  - cbn [for_in]. rewrite run_bind.
    pose proof (body_sound a l s) as [Hit Hn]. cbn zeta in Hit, Hn.
    destruct (run h (body a l) s) as [[[r l1] s1] t1].
    unfold returned, trace in *. cbn [fst snd] in *.
    destruct r as [[v |] | e].
    + cbn [ret run fst snd]. rewrite app_nil_r, Hn. eapply loop_return; eauto.
    + specialize (IH l1 s1). cbn zeta in IH.
      destruct (run h (for_in xs body l1) s1) as [[[r2 l2] s2] t2].
      cbn [fst snd] in *. rewrite steps_app, attempts_app, Hn.
      eapply loop_continue; eauto.
    + cbn [fst snd]. rewrite Hn. eapply loop_raise; eauto.
Qed.
End LoopSound.

Lemma scm_iteration_sound {S : Type} (h : handler S) url item retries delay a l s :
  let x := run h (PanApiHandler.create_object_attempt url item retries delay a l) s in
  PanApiHandlerSpec.iteration (item_name item) retries delay a l
    (fst (returned x)) (snd (returned x)) (steps (trace x))
  /\ attempts (trace x) = 1%nat.
Proof.
  destruct l.
  unfold PanApiHandler.create_object_attempt, PanApiHandler.ensure_valid_token, time_sleep.
  norm. repeat (answer h || branch).
  all: unfold returned, trace; norm; split; [| reflexivity].
  all: first
         [ eapply PanApiHandlerSpec.no_exception; econstructor; eassumption
         | eapply PanApiHandlerSpec.except_retry;
           [econstructor; eassumption | eassumption | eassumption | reflexivity]
         | eapply PanApiHandlerSpec.except_sleep_raises;
           [econstructor; eassumption | eassumption | eassumption]
         | eapply PanApiHandlerSpec.except_exhausted; [econstructor; eassumption | eassumption] ].
  Unshelve. all: exact sleep_error.
Qed.

Lemma scm_create_object_sound {S : Type} (h : handler S) endpoint item retries delay s :
  let x := run h (PanApiHandler.create_object endpoint item retries delay) s in
  exists r,
    loop (PanApiHandlerSpec.iteration (item_name item) retries delay)
      (range (retries + 1)) tt r (steps (trace x)) (attempts (trace x))
    /\ returned x = after_loop (item_name item) r.
Proof.
  unfold PanApiHandler.create_object. rewrite run_call_with, run_bind.
  pose proof (for_in_sound h _ _
                (scm_iteration_sound h (PanApiHandler.BASE_URL ++ endpoint) item retries delay)
                (range (retries + 1)) tt s) as Hloop.
  cbn zeta in Hloop.
  destruct (run h (for_in _ _ tt) s) as [[[r l1] s1] t1].
  unfold returned, trace in *. cbn [fst snd] in Hloop.
  exists r. destruct r as [[v |] | e]; cbn [ret run fst snd after_loop];
    rewrite ?app_nil_r; auto.
Qed.

Ltac branch_json :=
  match goal with
  | |- context [match ?j with JObj _ => _ | _ => _ end] => destruct j; norm
  | |- context [match ?j with Some _ => _ | None => _ end] => destruct j eqn:?; norm
  end.

Lemma post_utils_iteration_sound {S : Type} (h : handler S)
    url item delay client_id client_secret tsg_id token_file a l s :
  let x := run h (PostUtils.create_object_attempt url item delay
                    client_id client_secret tsg_id token_file a l) s in
  PostUtilsSpec.iteration (item_name item) delay a l
    (fst (returned x)) (snd (returned x)) (steps (trace x))
  /\ attempts (trace x) = 1%nat.
Proof.
  destruct l as [tok hdrs er].
  unfold PostUtils.create_object_attempt, PostUtils.token_is_expired,
    PostUtils.read_error_response, time_sleep, subscript, number.
  norm. repeat (answer h || branch || branch_json).
  all: unfold returned, trace; norm; split; [| reflexivity].
  all: first
         [ eapply PostUtilsSpec.no_exception; econstructor; eassumption
         | eapply PostUtilsSpec.except_bound; [econstructor; eassumption | reflexivity]
         | eapply PostUtilsSpec.except_unbound; [econstructor; eassumption | reflexivity] ].
  Unshelve. all: exact sleep_error.
Qed.

Lemma post_utils_create_object_sound {S : Type} (h : handler S)
    url headers item retries delay client_id client_secret tsg_id token_file s :
  let x := run h (PostUtils.create_object url headers item retries delay
                    client_id client_secret tsg_id token_file) s in
  match fst (h _ (obtain_api_token client_id client_secret tsg_id token_file false) s) with
  | Raise e => returned x = Raise e /\ trace x = [Event
      (obtain_api_token client_id client_secret tsg_id token_file false) (Raise e)]
  | Ok _ =>
      exists l r,
        PostUtils.error_response l = None
        /\ loop (PostUtilsSpec.iteration (item_name item) delay)
             (range (retries + 1)) l r (steps (trace x)) (attempts (trace x))
        /\ returned x = after_loop (item_name item) r
  end.
Proof.
  unfold PostUtils.create_object. rewrite run_call_with, run_bind.
  cbn [attempt_call run]. answer h. destruct x as [tok | e].
  - rewrite !run_bind. cbn [set_local run].
    match goal with
    | |- context [run h (for_in ?xs ?body ?l) ?s] =>
        pose proof (for_in_sound h _ _
                      (post_utils_iteration_sound h url item delay
                         client_id client_secret tsg_id token_file) xs l s) as Hloop;
        cbn zeta in Hloop;
        exists l;
        destruct (run h (for_in xs body l) s) as [[[r l1] s1] t1]
    end.
    unfold returned, trace in *. cbn [fst snd] in Hloop.
    exists r. split; [reflexivity |].
    destruct r as [[v |] | e]; cbn [ret run fst snd]; rewrite ?app_nil_r; auto.
  - cbn. auto.
Qed.

(** ** Facts on the observations *)

Lemma is_400_with_true (sub : string) (r : response) :
  is_400_with sub (Ok r) = true ->
  (status_code r =? 400)%Z = true
  /\ exists body, response_json r = Ok body /\ contains sub (lower (py_str body)) = true.
Proof.
  unfold is_400_with, body_contains. intros H. apply andb_prop in H as [H1 H2].
  split; [assumption |]. destruct (response_json r) as [body | e]; [eauto | discriminate].
Qed.

Lemma is_400_with_false (sub : string) (r : response) (body : json) :
  response_json r = Ok body ->
  is_400_with sub (Ok r) = false ->
  (status_code r =? 400)%Z = false \/ contains sub (lower (py_str body)) = false.
Proof.
  unfold is_400_with, body_contains. intros -> H.
  apply andb_false_iff in H. exact H.
Qed.

(** [time.sleep] accepts the lengths from 0 to its limit. *)
Lemma sleep_exception_none (secs : Q) :
  sleep_exception secs = None <-> 0 <= secs /\ secs < sleep_limit.
Proof.
  unfold sleep_exception.
  destruct (Qle_bool sleep_limit secs) eqn:Hlimit.
  - apply Qle_bool_iff in Hlimit. split; [discriminate |].
    intros [_ Hlt]. exfalso. eapply Qlt_not_le; eassumption.
  - assert (secs < sleep_limit) as Hlt.
    { apply Qnot_le_lt. intros Hle. apply Qle_bool_iff in Hle. congruence. }
    destruct (Qle_bool (- sleep_limit) secs) eqn:Hlow; cbn [negb].
    + destruct (Qle_bool 0 secs) eqn:Hzero.
      * apply Qle_bool_iff in Hzero. split; auto.
      * split; [discriminate |]. intros [Hle _].
        apply Qle_bool_iff in Hle. congruence.
    + split; [discriminate |]. intros [Hle _]. exfalso.
      assert (- sleep_limit <= secs) as Hlow'.
      { eapply Qle_trans; [| exact Hle]. unfold sleep_limit. discriminate. }
      apply Qle_bool_iff in Hlow'. congruence.
Qed.

Ltac inv H := inversion H; subst; clear H.

(** Hypotheses that contradict each other on the status or the body of a
    response. *)
Ltac contradictory :=
  repeat match goal with
         | H : (_ =? _)%Z = true |- _ => apply Z.eqb_eq in H
         | H : (_ =? _)%Z = false |- _ => apply Z.eqb_neq in H
         | H : is_400_with _ (Ok _) = true |- _ =>
             apply is_400_with_true in H as (? & ? & ? & ?)
         | H : is_400_with _ (Ok ?r) = false, Hj : response_json ?r = Ok _ |- _ =>
             apply (is_400_with_false _ _ _ Hj) in H as [H | H]
         | H : is_400_with _ (Raise _) = true |- _ => discriminate H
         end;
  congruence.

Ltac in_steps :=
  repeat match goal with
         | H : In _ [] |- _ => destruct H
         | H : In _ (_ :: _) |- _ => destruct H as [H | H]
         | H : In _ (_ ++ _)%list |- _ => apply in_app_or in H as [H | H]
         | H : Posted _ = Posted _ |- _ => inv H
         | H : Slept _ = Posted _ |- _ => discriminate H
         | H : Posted _ = Slept _ |- _ => discriminate H
         end.

Section PanApiHandlerFacts.
Variables (name : string) (retries : Z) (delay : Q).
Let iteration := PanApiHandlerSpec.iteration name retries delay.

Lemma scm_loop_exists xs l r st n resp :
  loop iteration xs l r st n ->
  In (Posted (Ok resp)) st ->
  is_400_with "object already exists" (Ok resp) = true ->
  r = Ok (Some (AlreadyExists name))
  /\ exists before, st = (before ++ [Posted (Ok resp)])%list.
Proof.
  intros Hloop Hin Hresp. induction Hloop as [l | a xs l v l1 st Hit | a xs l e l1 st Hit
                                            | a xs l l1 st r st' n Hit Hloop IH].
  - destruct Hin.
  - inv Hit; match goal with H : PanApiHandlerSpec.try_block _ _ _ _ |- _ => inv H end;
      in_steps; try contradictory.
    split; [reflexivity | exists []; reflexivity].
  - inv Hit; match goal with H : PanApiHandlerSpec.try_block _ _ _ _ |- _ => inv H end;
      in_steps; try contradictory.
  - apply in_app_or in Hin as [Hin | Hin].
    + inv Hit; match goal with H : PanApiHandlerSpec.try_block _ _ _ _ |- _ => inv H end;
        in_steps; try contradictory.
    + destruct (IH Hin) as [-> [before ->]]. split; [reflexivity |].
      exists (st ++ before)%list. now rewrite app_assoc.
Qed.

Ltac iteration_cases H :=
  inv H; match goal with H' : PanApiHandlerSpec.try_block _ _ _ _ |- _ => inv H' end.
Ltac on_iteration :=
  match goal with H : iteration _ _ _ _ _ |- _ => iteration_cases H end.

Lemma scm_iteration_posts_le a l r l1 st :
  iteration a l r l1 st -> (length (flat_map post_of st) <= 1)%nat.
Proof. intros Hit. iteration_cases Hit; cbn; lia. Qed.

Lemma scm_loop_posts_le xs l r st n :
  loop iteration xs l r st n -> (length (flat_map post_of st) <= n)%nat.
Proof.
  induction 1 as [l | a xs l v l1 st Hit | a xs l e l1 st Hit
                 | a xs l l1 st r st' n Hit Hloop IH].
  - cbn. lia.
  - eapply scm_iteration_posts_le; eassumption.
  - eapply scm_iteration_posts_le; eassumption.
  - rewrite flat_map_app, length_app. apply scm_iteration_posts_le in Hit. lia.
Qed.

(** Every iteration makes its request and receives a 400 whose body has
    [sub], one of the two retried phrases, and not the phrase of an
    existing object. *)
Lemma scm_loop_retried sub xs l r st n :
  sub = "is not a valid reference" \/ sub = "max retries exceeded" ->
  sleep_exception delay = None ->
  loop iteration xs l r st n ->
  (n <= length (flat_map post_of st))%nat ->
  forallb (is_retried_400 sub) (flat_map post_of st) = true ->
  r = Ok None
  /\ st = flat_map (fun a => [Posted a; Slept delay]) (flat_map post_of st)
  /\ n = length xs.
Proof.
  intros Hsub Hdelay Hloop.
  induction Hloop as [l | a xs l v l1 st Hit | a xs l e l1 st Hit
                     | a xs l l1 st r st' n Hit Hloop IH]; intros Hn Hall.
  - auto.
  - exfalso. iteration_cases Hit; cbn [flat_map post_of app forallb length] in Hn, Hall;
      try lia; try discriminate;
      rewrite ?andb_true_r in Hall; apply andb_prop in Hall as [Hp Hq];
      try discriminate; apply negb_true_iff in Hq;
      try (destruct Hsub; subst sub; contradictory).
  - exfalso. inv Hit. congruence.
  - rewrite flat_map_app, length_app in Hn. rewrite flat_map_app, forallb_app in Hall.
    apply andb_prop in Hall as [Hall1 Hall2].
    pose proof (scm_iteration_posts_le _ _ _ _ _ Hit) as Hle1.
    pose proof (scm_loop_posts_le _ _ _ _ _ Hloop) as Hle2.
    destruct IH as (-> & Hst' & Hxs); [lia | assumption |].
    split; [reflexivity |]. split; [| cbn; lia].
    rewrite flat_map_app, flat_map_app, <- Hst'. f_equal.
    iteration_cases Hit; cbn [flat_map post_of app forallb length] in Hle1, Hn, Hall1 |- *;
      try reflexivity; try lia; try congruence;
      rewrite ?andb_true_r in Hall1; apply andb_prop in Hall1 as [Hp Hq];
      try discriminate; contradictory.
Qed.

Lemma scm_loop_returns xs l r st n :
  sleep_exception delay = None ->
  loop iteration xs l r st n ->
  exists v, r = Ok v.
Proof.
  intros Hdelay. induction 1 as [l | a xs l v l1 st Hit | a xs l e l1 st Hit
                                | a xs l l1 st r st' n Hit Hloop IH]; eauto.
  inv Hit. congruence.
Qed.

(** Every iteration makes its request and the request raises. *)
Lemma scm_loop_raising m : forall k l r st n,
  sleep_exception delay = None ->
  Z.of_nat (k + m) = (retries + 1)%Z ->
  loop iteration (map Z.of_nat (seq k m)) l r st n ->
  (n <= length (flat_map post_of st))%nat ->
  forallb raised (flat_map post_of st) = true ->
  st = retry_steps delay (flat_map post_of st)
  /\ length (flat_map post_of st) = m
  /\ match m with
     | O => r = Ok None
     | _ => exists before e,
              flat_map post_of st = (before ++ [Raise e])%list
              /\ r = Ok (Some (Failed name ("Exception: " ++ exn_text e)))
     end.
Proof.
  induction m as [| m IH]; intros k l r st n Hdelay Hk Hloop Hn Hall.
  - inv Hloop. auto.
  - cbn [seq map] in Hloop. inv Hloop.
    + on_iteration; cbn [flat_map post_of app forallb length raised] in *;
        try discriminate; try lia.
      match goal with H : (_ <? _)%Z = false |- _ => apply Z.ltb_ge in H end.
      assert (m = 0)%nat as -> by lia.
      split; [reflexivity | split; [reflexivity | exists [], e; auto]].
    + on_iteration; congruence.
    + rewrite flat_map_app, length_app in Hn. rewrite flat_map_app, forallb_app in Hall.
      apply andb_prop in Hall as [Hall1 Hall2].
      match goal with
      | Hit : iteration _ _ _ _ _, Hrest : loop _ _ _ _ _ _ |- _ =>
          pose proof (scm_iteration_posts_le _ _ _ _ _ Hit) as Hle1;
          pose proof (scm_loop_posts_le _ _ _ _ _ Hrest) as Hle2;
          assert (Z.of_nat (S k + m) = (retries + 1)%Z) as Hk' by lia;
          destruct (IH _ _ _ _ _ Hdelay Hk' Hrest ltac:(lia) Hall2)
            as (Hst' & Hlen & Hr)
      end.
      assert (m <= length (flat_map post_of st') <= m)%nat as Hlen' by lia. clear Hlen.
      on_iteration; cbn [flat_map post_of app forallb length raised] in *;
        try discriminate; try lia.
      match goal with H : (_ <? _)%Z = true |- _ => apply Z.ltb_lt in H end.
      destruct m as [| m]; [lia |].
      destruct Hr as (before & e' & Hposts & ->).
      rewrite Hposts in *. split; [| split].
      * rewrite Hst' at 1. destruct before; reflexivity.
      * cbn. lia.
      * exists (Raise e :: before), e'. auto.
Qed.

Lemma scm_loop_other_failure xs l r st n resp :
  loop iteration xs l r st n ->
  In (Posted (Ok resp)) st ->
  is_other_failure (Ok resp) = true ->
  r = Ok (Some (Failed name "Error: Object creation failed"))
  /\ exists before, st = (before ++ [Posted (Ok resp)])%list.
Proof.
  intros Hloop Hin Hresp.
  unfold is_other_failure, body_contains in Hresp.
  apply andb_prop in Hresp as [H201 Hresp]. apply negb_true_iff in H201.
  apply andb_prop in Hresp as [Hparsed Hresp].
  destruct (response_json resp) as [body |] eqn:Hbody; [| discriminate].
  apply negb_true_iff, andb_false_iff in Hresp.
  assert ((status_code resp =? 400)%Z = true ->
          contains "object already exists" (lower (py_str body)) = false
          /\ contains "is not a valid reference" (lower (py_str body)) = false
          /\ contains "max retries exceeded" (lower (py_str body)) = false) as H400.
  { intros H. destruct Hresp as [Hresp | Hresp]; [congruence |].
    apply orb_false_iff in Hresp as [? Hresp]. apply orb_false_iff in Hresp as [? ?].
    auto. }
  clear Hresp.
  induction Hloop as [l | a xs l v l1 st Hit | a xs l e l1 st Hit
                     | a xs l l1 st r st' n Hit Hloop IH].
  - destruct Hin.
  - iteration_cases Hit; in_steps; try congruence;
      try (specialize (H400 ltac:(assumption)); destruct H400 as (? & ? & ?); congruence);
      (split; [reflexivity | exists []; reflexivity]).
  - iteration_cases Hit; in_steps; try congruence;
      specialize (H400 ltac:(assumption)); destruct H400 as (? & ? & ?); congruence.
  - apply in_app_or in Hin as [Hin | Hin].
    + iteration_cases Hit; in_steps; try congruence;
        specialize (H400 ltac:(assumption)); destruct H400 as (? & ? & ?); congruence.
    + destruct (IH Hin) as [-> [before ->]]. split; [reflexivity |].
      exists (st ++ before)%list. now rewrite app_assoc.
Qed.

Lemma scm_loop_sleeps_after sub xs l r st n :
  sub = "is not a valid reference" \/ sub = "max retries exceeded" ->
  sleep_exception delay = None ->
  loop iteration xs l r st n ->
  sleeps_after (is_retried_400 sub) delay st.
Proof.
  intros Hsub Hdelay.
  assert (forall a l r l1 st, iteration a l r l1 st ->
          forall st', sleeps_after (is_retried_400 sub) delay st' ->
                      sleeps_after (is_retried_400 sub) delay (st ++ st')) as Hit.
  { intros a l0 r0 l1 st0 H st' Hst'. iteration_cases H;
      cbn [app sleeps_after]; repeat split; eauto; try congruence;
      intros Hp; apply andb_prop in Hp as [Hp Hq]; apply negb_true_iff in Hq;
      try discriminate; exfalso; destruct Hsub; subst sub; contradictory. }
  induction 1 as [l | a xs l v l1 st Hit' | a xs l e l1 st Hit'
                 | a xs l l1 st r st' n Hit' Hloop IH].
  - exact I.
  - rewrite <- (app_nil_r st). eapply Hit; [eassumption | exact I].
  - rewrite <- (app_nil_r st). eapply Hit; [eassumption | exact I].
  - eapply Hit; eassumption.
Qed.
End PanApiHandlerFacts.

Section PostUtilsFacts.
Variables (name : string) (delay : Q).
Let iteration := PostUtilsSpec.iteration name delay.

Ltac iteration_cases H :=
  inv H; match goal with H' : PostUtilsSpec.try_block _ _ _ _ _ _ |- _ => inv H' end.

Lemma post_utils_loop_exists xs l r st n resp :
  loop iteration xs l r st n ->
  In (Posted (Ok resp)) st ->
  is_400_with "object already exists" (Ok resp) = true ->
  r = Ok (Some (AlreadyExists name))
  /\ exists before, st = (before ++ [Posted (Ok resp)])%list.
Proof.
  intros Hloop Hin Hresp. induction Hloop as [l | a xs l v l1 st Hit | a xs l e l1 st Hit
                                            | a xs l l1 st r st' n Hit Hloop IH].
  - destruct Hin.
  - iteration_cases Hit; in_steps; try contradictory.
    split; [reflexivity | exists []; reflexivity].
  - iteration_cases Hit; in_steps; try contradictory.
  - apply in_app_or in Hin as [Hin | Hin].
    + iteration_cases Hit; in_steps; try contradictory.
    + destruct (IH Hin) as [-> [before ->]]. split; [reflexivity |].
      exists (st ++ before)%list. now rewrite app_assoc.
Qed.

(** A 400 whose parsed body has neither of the two phrases that
    [post_utils.create_object] looks for. *)
Lemma post_utils_loop_failed_400 xs l r st n resp body :
  loop iteration xs l r st n ->
  In (Posted (Ok resp)) st ->
  (status_code resp =? 400)%Z = true ->
  response_json resp = Ok body ->
  contains "object already exists" (lower (py_str body)) = false ->
  contains "is not a valid reference" (lower (py_str body)) = false ->
  r = Ok (Some (Failed name "Error: Object creation failed"))
  /\ exists before, st = (before ++ [Posted (Ok resp)])%list.
Proof.
  intros Hloop Hin H400 Hbody Hexists Hinvalid.
  induction Hloop as [l | a xs l v l1 st Hit | a xs l e l1 st Hit
                     | a xs l l1 st r st' n Hit Hloop IH].
  - destruct Hin.
  - iteration_cases Hit; in_steps; try contradictory.
    split; [reflexivity | exists []; reflexivity].
  - iteration_cases Hit; in_steps; try contradictory.
  - apply in_app_or in Hin as [Hin | Hin].
    + iteration_cases Hit; in_steps; try contradictory.
    + destruct (IH Hin) as [-> [before ->]]. split; [reflexivity |].
      exists (st ++ before)%list. now rewrite app_assoc.
Qed.

Lemma post_utils_iteration_posts_le a l r l1 st :
  iteration a l r l1 st -> (length (flat_map post_of st) <= 1)%nat.
Proof. intros Hit. iteration_cases Hit; cbn; lia. Qed.

Lemma post_utils_loop_posts_le xs l r st n :
  loop iteration xs l r st n -> (length (flat_map post_of st) <= n)%nat.
Proof.
  induction 1 as [l | a xs l v l1 st Hit | a xs l e l1 st Hit
                 | a xs l l1 st r st' n Hit Hloop IH].
  - cbn. lia.
  - eapply post_utils_iteration_posts_le; eassumption.
  - eapply post_utils_iteration_posts_le; eassumption.
  - rewrite flat_map_app, length_app. apply post_utils_iteration_posts_le in Hit. lia.
Qed.

(** Every iteration makes its request and receives a 400 whose body has
    the phrase of an invalid reference and not that of an existing
    object. *)
Lemma post_utils_loop_retried xs l r st n :
  sleep_exception delay = None ->
  loop iteration xs l r st n ->
  (n <= length (flat_map post_of st))%nat ->
  forallb (is_retried_400 "is not a valid reference") (flat_map post_of st) = true ->
  r = Ok None
  /\ st = flat_map (fun a => [Posted a; Slept delay]) (flat_map post_of st)
  /\ n = length xs.
Proof.
  intros Hdelay Hloop.
  induction Hloop as [l | a xs l v l1 st Hit | a xs l e l1 st Hit
                     | a xs l l1 st r st' n Hit Hloop IH]; intros Hn Hall.
  - auto.
  - exfalso. iteration_cases Hit; cbn [flat_map post_of app forallb length] in Hn, Hall;
      try lia; try discriminate;
      rewrite ?andb_true_r in Hall; apply andb_prop in Hall as [Hp Hq];
      try discriminate; apply negb_true_iff in Hq; contradictory.
  - exfalso. iteration_cases Hit; cbn [flat_map post_of app forallb length] in Hn, Hall;
      try lia; try discriminate;
      rewrite ?andb_true_r in Hall; apply andb_prop in Hall as [Hp Hq];
      try discriminate; apply negb_true_iff in Hq; contradictory.
  - rewrite flat_map_app, length_app in Hn. rewrite flat_map_app, forallb_app in Hall.
    apply andb_prop in Hall as [Hall1 Hall2].
    pose proof (post_utils_iteration_posts_le _ _ _ _ _ Hit) as Hle1.
    pose proof (post_utils_loop_posts_le _ _ _ _ _ Hloop) as Hle2.
    destruct IH as (-> & Hst' & Hxs); [lia | assumption |].
    split; [reflexivity |]. split; [| cbn; lia].
    rewrite flat_map_app, flat_map_app, <- Hst'. f_equal.
    iteration_cases Hit; cbn [flat_map post_of app forallb length] in Hle1, Hn, Hall1 |- *;
      try reflexivity; try lia; try congruence;
      rewrite ?andb_true_r in Hall1; apply andb_prop in Hall1 as [Hp Hq];
      try discriminate; contradictory.
Qed.

Lemma post_utils_iteration_binds a l l1 st :
  iteration a l (Ok None) l1 st ->
  PostUtilsSpec.is_bound l1
  = orb (PostUtilsSpec.is_bound l) (existsb binds_error_response (flat_map post_of st)).
Proof.
  intros Hit. unfold PostUtilsSpec.is_bound.
  iteration_cases Hit; cbn [flat_map post_of app existsb binds_error_response];
    repeat match goal with
           | H : (_ =? 400)%Z = _ |- _ => rewrite H
           | H : response_json _ = Ok _ |- _ => rewrite H
           end;
    cbn [raised negb andb orb]; destruct (PostUtils.error_response l); reflexivity.
Qed.

(** A request that raises ends the call: nothing follows it, and the
    value depends on whether [error_response] was bound before. *)
Lemma post_utils_loop_post_raises xs l r st n e :
  loop iteration xs l r st n ->
  In (Posted (Raise e)) st ->
  exists before,
    st = (before ++ [Posted (Raise e)])%list
    /\ r = if orb (PostUtilsSpec.is_bound l)
                 (existsb binds_error_response (flat_map post_of before))
           then Ok (Some (Failed name "Exception occurred"))
           else Raise PostUtilsSpec.unbound_error.
Proof.
  intros Hloop Hin. induction Hloop as [l | a xs l v l1 st Hit | a xs l e' l1 st Hit
                                      | a xs l l1 st r st' n Hit Hloop IH].
  - destruct Hin.
  - exists []. unfold PostUtilsSpec.is_bound.
    iteration_cases Hit; in_steps.
    split; [reflexivity |].
    repeat match goal with H : PostUtils.error_response _ = _ |- _ => rewrite H end.
    reflexivity.
  - exists []. unfold PostUtilsSpec.is_bound.
    iteration_cases Hit; in_steps.
    split; [reflexivity |].
    repeat match goal with H : PostUtils.error_response _ = _ |- _ => rewrite H end.
    reflexivity.
  - apply in_app_or in Hin as [Hin | Hin].
    + iteration_cases Hit; in_steps.
    + destruct (IH Hin) as (before & -> & ->).
      exists (st ++ before)%list. split; [now rewrite app_assoc |].
      rewrite (post_utils_iteration_binds _ _ _ _ Hit), flat_map_app, existsb_app.
      now rewrite orb_assoc.
Qed.

Lemma post_utils_loop_sleeps_after xs l r st n :
  sleep_exception delay = None ->
  loop iteration xs l r st n ->
  sleeps_after (is_retried_400 "is not a valid reference") delay st.
Proof.
  intros Hdelay.
  assert (forall a l r l1 st, iteration a l r l1 st ->
          forall st', sleeps_after (is_retried_400 "is not a valid reference") delay st' ->
                      sleeps_after (is_retried_400 "is not a valid reference") delay
                        (st ++ st')) as Hit.
  { intros a l0 r0 l1 st0 H st' Hst'. iteration_cases H;
      cbn [app sleeps_after]; repeat split; eauto; try congruence;
      intros Hp; apply andb_prop in Hp as [Hp Hq]; apply negb_true_iff in Hq;
      try discriminate; exfalso; contradictory. }
  induction 1 as [l | a xs l v l1 st Hit' | a xs l e l1 st Hit'
                 | a xs l l1 st r st' n Hit' Hloop IH].
  - exact I.
  - rewrite <- (app_nil_r st). eapply Hit; [eassumption | exact I].
  - rewrite <- (app_nil_r st). eapply Hit; [eassumption | exact I].
  - eapply Hit; eassumption.
Qed.
End PostUtilsFacts.

Lemma length_range (n : Z) : length (range n) = Z.to_nat n.
Proof. unfold range. now rewrite length_map, length_seq. Qed.

(** ** The claims on [create_object] *)

(** C6, as amended.  In every run of [create_object], of [PanApiHandler]
    and of [post_utils] alike, a POST answered by a 400 whose body parses
    as JSON and has "object already exists" (in any case) in the text
    that [str] gives for it ends the call on that attempt with ('This
    object exists', name): the request is the last step of the run, so
    that no sleep and no further attempt follows it. *)
Theorem already_exists_is_terminal :
  forall (S : Type) (h : handler S) (s : S) (item_data : object_definition)
         (retries : Z) (delay : Q) (resp : response),
    is_400_with "object already exists" (Ok resp) = true ->
    (forall endpoint,
        let x := run h (PanApiHandler.create_object endpoint item_data retries delay) s in
        In (Posted (Ok resp)) (steps (trace x)) ->
        returned x = Ok (AlreadyExists (item_name item_data))
        /\ exists before, steps (trace x) = (before ++ [Posted (Ok resp)])%list)
    /\ (forall url headers client_id client_secret tsg_id token_file,
        let x := run h (PostUtils.create_object url headers item_data retries delay
                          client_id client_secret tsg_id token_file) s in
        In (Posted (Ok resp)) (steps (trace x)) ->
        returned x = Ok (AlreadyExists (item_name item_data))
        /\ exists before, steps (trace x) = (before ++ [Posted (Ok resp)])%list).
Proof.
  intros S h s item_data retries delay resp Hresp. split.
  - intros endpoint x Hin.
    destruct (scm_create_object_sound h endpoint item_data retries delay s)
      as (r & Hloop & Hret).
    fold x in Hloop, Hret.
    destruct (scm_loop_exists _ _ _ _ _ _ _ _ _ Hloop Hin Hresp) as [-> Hlast].
    split; [exact Hret | exact Hlast].
  - intros url headers client_id client_secret tsg_id token_file x Hin.
    pose proof (post_utils_create_object_sound h url headers item_data retries delay
                  client_id client_secret tsg_id token_file s) as Hsound.
    cbn zeta in Hsound. fold x in Hsound.
    destruct (fst (h _ (obtain_api_token client_id client_secret tsg_id token_file false) s)).
    + destruct Hsound as (l & r & _ & Hloop & Hret).
      destruct (post_utils_loop_exists _ _ _ _ _ _ _ _ Hloop Hin Hresp) as [-> Hlast].
      split; [exact Hret | exact Hlast].
    + destruct Hsound as [_ Htr]. rewrite Htr in Hin. destruct Hin.
Qed.

(** What both implementations do on a 400 with the phrase of an invalid
    reference, and [PanApiHandler] also on one with the phrase of the rate
    limiter. *)
Lemma scm_retried_400 {S : Type} (h : handler S) (s : S) (item_data : object_definition)
    (retries : Z) (delay : Q) (sub endpoint : string) :
  sub = "is not a valid reference" \/ sub = "max retries exceeded" ->
  sleep_exception delay = None ->
  let x := run h (PanApiHandler.create_object endpoint item_data retries delay) s in
  sleeps_after (is_retried_400 sub) delay (steps (trace x))
  /\ ((attempts (trace x) <= length (posts (trace x)))%nat ->
      forallb (is_retried_400 sub) (posts (trace x)) = true ->
      returned x = Ok (Failed (item_name item_data) "Failed after retries")
      /\ steps (trace x) = flat_map (fun a => [Posted a; Slept delay]) (posts (trace x))
      /\ length (posts (trace x)) = Z.to_nat (retries + 1)).
Proof.
  intros Hsub Hdelay x.
  destruct (scm_create_object_sound h endpoint item_data retries delay s)
    as (r & Hloop & Hret).
  fold x in Hloop, Hret. split.
  - eapply scm_loop_sleeps_after; eassumption.
  - intros Hn Hall.
    destruct (scm_loop_retried _ _ _ _ _ _ _ _ _ Hsub Hdelay Hloop Hn Hall)
      as (-> & Hst & Hlen).
    split; [exact Hret |]. split; [exact Hst |].
    pose proof (scm_loop_posts_le _ _ _ _ _ _ _ _ Hloop) as Hle.
    rewrite length_range in Hlen. unfold posts in *. lia.
Qed.

Lemma post_utils_retried_400 {S : Type} (h : handler S) (s : S)
    (item_data : object_definition) (retries : Z) (delay : Q)
    (url : string) (headers : dict) (client_id client_secret tsg_id token_file : string) :
  sleep_exception delay = None ->
  let x := run h (PostUtils.create_object url headers item_data retries delay
                    client_id client_secret tsg_id token_file) s in
  sleeps_after (is_retried_400 "is not a valid reference") delay (steps (trace x))
  /\ (raised (fst (h _ (obtain_api_token client_id client_secret tsg_id token_file false) s))
      = false ->
      (attempts (trace x) <= length (posts (trace x)))%nat ->
      forallb (is_retried_400 "is not a valid reference") (posts (trace x)) = true ->
      returned x = Ok (Failed (item_name item_data) "Failed after retries")
      /\ steps (trace x) = flat_map (fun a => [Posted a; Slept delay]) (posts (trace x))
      /\ length (posts (trace x)) = Z.to_nat (retries + 1)).
Proof.
  intros Hdelay x.
  pose proof (post_utils_create_object_sound h url headers item_data retries delay
                client_id client_secret tsg_id token_file s) as Hsound.
  cbn zeta in Hsound. fold x in Hsound.
  destruct (fst (h _ (obtain_api_token client_id client_secret tsg_id token_file false) s)).
  - destruct Hsound as (l & r & _ & Hloop & Hret). split.
    + eapply post_utils_loop_sleeps_after; eassumption.
    + intros _ Hn Hall.
      destruct (post_utils_loop_retried _ _ _ _ _ _ _ Hdelay Hloop Hn Hall)
        as (-> & Hst & Hlen).
      split; [exact Hret |]. split; [exact Hst |].
      pose proof (post_utils_loop_posts_le _ _ _ _ _ _ _ Hloop) as Hle.
      rewrite length_range in Hlen. unfold posts in *. lia.
  - destruct Hsound as [_ Htr]. rewrite Htr. split; [exact I | discriminate].
Qed.



(** ** A request that raises, in [PanApiHandler.create_object] *)

Lemma moves_app (t1 t2 : list event) : moves (t1 ++ t2) = (moves t1 ++ moves t2)%list.
Proof. apply flat_map_app. Qed.

Lemma scm_attempt_moves_sound {S : Type} (h : handler S) url item retries delay a l s :
  sleep_exception delay = None ->
  let x := run h (PanApiHandler.create_object_attempt url item retries delay a l) s in
  scm_attempt_moves (item_name item) retries delay a (fst (returned x)) (moves (trace x)).
Proof.
  intros Hdelay. destruct l.
  unfold PanApiHandler.create_object_attempt, PanApiHandler.ensure_valid_token, time_sleep.
  rewrite Hdelay.
  norm. repeat (answer h || branch).
  all: unfold returned, trace; norm.
  all: repeat match goal with u : unit |- _ => destruct u end.
  all: first [ apply request_raises_retried; assumption
             | apply request_raises_last; assumption
             | apply no_request_raises; reflexivity ].
Qed.

Lemma quiet_moves_retried retries delay attempt (quiet_moves rest : list move) :
  forallb quiet quiet_moves = true ->
  raising_requests_retried retries delay attempt rest ->
  raising_requests_retried retries delay attempt (quiet_moves ++ rest).
Proof.
  intros Hquiet Hrest. induction quiet_moves as [| m quiet_moves IH]; [exact Hrest |].
  cbn [forallb] in Hquiet. apply andb_prop in Hquiet as [Hm Hquiet].
  destruct m as [c | [r | e] | secs]; cbn in Hm; try discriminate; cbn; auto.
Qed.

Lemma quiet_moves_last (c : result unit) (quiet_moves before : list move) (e : exn) :
  forallb quiet quiet_moves = true ->
  Checked c :: quiet_moves <> (before ++ [Requested (Raise e)])%list.
Proof.
  intros Hquiet Heq.
  assert (In (Requested (Raise e)) (Checked c :: quiet_moves)) as [Hin | Hin]
    by (rewrite Heq; apply in_or_app; right; left; reflexivity).
  - discriminate.
  - rewrite forallb_forall in Hquiet. apply Hquiet in Hin. discriminate.
Qed.

Lemma last_of_app {A : Type} (l1 l2 before : list A) (x : A) :
  l2 <> [] -> (l1 ++ l2 = before ++ [x])%list -> exists before', l2 = (before' ++ [x])%list.
Proof.
  intros Hl2 Heq. destruct (exists_last Hl2) as (l2' & y & ->).
  rewrite app_assoc in Heq. apply app_inj_tail in Heq as [_ ->]. eauto.
Qed.

Lemma scm_attempt_moves_cases name retries delay attempt r mv :
  scm_attempt_moves name retries delay attempt r mv ->
  (exists e, (attempt <? retries)%Z = true /\ r = Ok None
             /\ mv = [Checked (Ok tt); Requested (Raise e); Rested delay])
  \/ (exists e, (attempt <? retries)%Z = false
                /\ r = Ok (Some (Failed name ("Exception: " ++ exn_text e)))
                /\ mv = [Checked (Ok tt); Requested (Raise e)])
  \/ (exists c rest, forallb quiet rest = true /\ mv = Checked c :: rest).
Proof. destruct 1; eauto 10. Qed.

Section Retried.
Context {S : Type} (h : handler S).
Variables (url : string) (item : object_definition) (retries : Z) (delay : Q).
Hypothesis accepted : sleep_exception delay = None.

Lemma scm_moves_loop (m : nat) : forall (k : nat) (s : S),
  Z.of_nat (k + m) = (retries + 1)%Z ->
  let x := run h (for_in (map Z.of_nat (seq k m))
                    (PanApiHandler.create_object_attempt url item retries delay) tt) s in
  raising_requests_retried retries delay (Z.of_nat k - 1) (moves (trace x))
  /\ (m <> 0%nat -> exists c rest, moves (trace x) = Checked c :: rest)
  /\ (forall before e,
         moves (trace x) = (before ++ [Requested (Raise e)])%list ->
         fst (returned x)
         = Ok (Some (Failed (item_name item) ("Exception: " ++ exn_text e)))).
Proof.
  induction m as [| m IH]; intros k s Hk.
  - cbn. repeat split; auto.
    + congruence.
    + intros [| ? ?] e Heq; discriminate Heq.
  - cbn [seq map for_in]. rewrite run_bind.
    pose proof (scm_attempt_moves_sound h url item retries delay (Z.of_nat k) tt s accepted)
      as Hattempt.
    cbn zeta in Hattempt. apply scm_attempt_moves_cases in Hattempt.
    destruct (run h (PanApiHandler.create_object_attempt url item retries delay
                       (Z.of_nat k) tt) s) as [[[r []] s1] t1].
    unfold returned, trace in *. cbn [fst snd] in *.
    assert (Z.of_nat k - 1 + 1 = Z.of_nat k)%Z as Hnext by lia.
    assert (Z.of_nat (Datatypes.S k) - 1 = Z.of_nat k)%Z as Hsucc by lia.
    specialize (IH (Datatypes.S k)).
    destruct Hattempt as [(e & Hleft & -> & Hmoves)
                         | [(e & Hleft & -> & Hmoves) | (c & rest & Hquiet & Hmoves)]].
    + (* the request raises and attempts remain *)
      specialize (IH s1 ltac:(lia)). cbn zeta in IH.
      destruct (run h (for_in (map Z.of_nat (seq (Datatypes.S k) m)) _ tt) s1)
        as [[[r []] s2] t2].
      cbn [fst snd] in *. rewrite moves_app, Hmoves.
      destruct IH as (Hretried & Hstarts & Hlast). rewrite Hsucc in Hretried.
      apply Z.ltb_lt in Hleft as Hlt.
      destruct (Hstarts ltac:(lia)) as (c & rest & Hrest).
      cbn [app raising_requests_retried]. rewrite Hnext, Hleft.
      repeat split; eauto.
      * rewrite Hrest. eauto.
      * intros before e' Heq.
        change (Checked (Ok tt) :: Requested (Raise e) :: Rested delay :: moves t2)
          with ([Checked (Ok tt); Requested (Raise e); Rested delay] ++ moves t2)%list
          in Heq.
        apply last_of_app in Heq as [before' Heq]; [| rewrite Hrest; discriminate].
        eapply Hlast. exact Heq.
    + (* the request raises in the last attempt *)
      cbn [ret run fst snd]. rewrite app_nil_r, Hmoves.
      cbn [raising_requests_retried]. rewrite Hnext, Hleft.
      repeat split; eauto.
      intros before e' Heq.
      change [Checked (Ok tt); Requested (Raise e)]
        with ([Checked (Ok tt)] ++ [Requested (Raise e)])%list in Heq.
      apply app_inj_tail in Heq as [_ Heq]. inv Heq. reflexivity.
    + (* no request raises *)
      destruct r as [[v |] | e0].
      * cbn [ret run fst snd]. rewrite app_nil_r, Hmoves.
        cbn [raising_requests_retried]. rewrite Hnext. repeat split; eauto.
        -- rewrite <- (app_nil_r rest). apply quiet_moves_retried; [assumption | exact I].
        -- intros before e' Heq. exfalso. eapply quiet_moves_last; eassumption.
      * specialize (IH s1 ltac:(lia)). cbn zeta in IH.
        destruct (run h (for_in (map Z.of_nat (seq (Datatypes.S k) m)) _ tt) s1)
          as [[[r []] s2] t2].
        cbn [fst snd] in *. rewrite moves_app, Hmoves.
        destruct IH as (Hretried & Hstarts & Hlast). rewrite Hsucc in Hretried.
        cbn [app raising_requests_retried]. rewrite Hnext. repeat split; eauto.
        -- apply quiet_moves_retried; assumption.
        -- intros before e' Heq.
           destruct (moves t2) as [| m2 mv2] eqn:Hmv2.
           ++ rewrite app_nil_r in Heq. exfalso. eapply quiet_moves_last; eassumption.
           ++ change (Checked c :: rest ++ m2 :: mv2)%list
                with ((Checked c :: rest) ++ m2 :: mv2)%list in Heq.
              apply last_of_app in Heq as [before' Heq]; [| discriminate].
              eapply Hlast. exact Heq.
      * cbn [fst snd]. rewrite Hmoves.
        cbn [raising_requests_retried]. rewrite Hnext. repeat split; eauto.
        -- rewrite <- (app_nil_r rest). apply quiet_moves_retried; [assumption | exact I].
        -- intros before e' Heq. exfalso. eapply quiet_moves_last; eassumption.
Qed.

End Retried.


(** ** The token file *)

Lemma py_gt_spec (a b : Q) : py_gt a b = true <-> b < a.
Proof.
  unfold py_gt. rewrite negb_true_iff. split.
  - intros H. apply Qnot_le_lt. intros Hle. apply Qle_bool_iff in Hle. congruence.
  - intros H. destruct (Qle_bool a b) eqn:Hle; [| reflexivity].
    apply Qle_bool_iff in Hle. exfalso. eapply Qlt_not_le; eassumption.
Qed.

(** C5, as amended.  When the token file exists and holds an object whose
    "expires_at" is the number [expires_at], [token_is_expired] returns
    whether [now > expires_at - 180], for the time [now] that [time.time()]
    gives: 179 seconds before the expiry the token is reported expired,
    181 seconds before it the token is reported valid. *)
Theorem token_is_expired_buffer :
  forall (S L : Type) (h : handler S) (s s1 s2 s3 : S) (l : L)
         (access_token token_file : string)
         (token_data : dict) (expires_at now : Q) (text : string),
    h _ (os_path_exists token_file) s = (true, s1) ->
    h _ (json_load token_file) s1 = (Ok (JObj token_data), s2) ->
    h _ time_time s2 = (now, s3) ->
    dict_get token_data "expires_at" = Some (JNum expires_at text) ->
    exists expired : bool,
      returned (run h (PostUtils.token_is_expired access_token token_file l) s)
      = (Ok expired, l)
      /\ (expired = true <-> expires_at - 180 < now)
      /\ (now == expires_at - 179 -> expired = true)
      /\ (now == expires_at - 181 -> expired = false).
Proof.
  intros S L h s s1 s2 s3 l access_token token_file token_data expires_at now text
         Hexists Hload Htime Hkey.
  exists (py_gt now (expires_at - 180)). split; [| split; [| split]].
  - unfold PostUtils.token_is_expired, returned. cbn [bind perform bind_prog run].
    rewrite Hexists. cbn [bind perform attempt_call bind_prog run].
    rewrite Hload. cbn [bind perform attempt_call bind_prog run].
    rewrite Htime. cbn [bind subscript bind_prog run].
    rewrite Hkey. reflexivity.
  - apply py_gt_spec.
  - intros Hnow. apply py_gt_spec. lra.
  - intros Hnow. destruct (py_gt now (expires_at - 180)) eqn:Hgt; [| reflexivity].
    apply py_gt_spec in Hgt. lra.
Qed.

(** X1.  Without a token file [token_is_expired] reports the token
    expired. *)
Lemma token_is_expired_without_file {S L : Type} (h : handler S) (s s1 : S) (l : L)
    (access_token token_file : string) :
  h _ (os_path_exists token_file) s = (false, s1) ->
  returned (run h (PostUtils.token_is_expired access_token token_file l) s) = (Ok true, l).
Proof.
  intros Hexists. unfold PostUtils.token_is_expired, returned.
  cbn [bind perform bind_prog run]. rewrite Hexists. reflexivity.
Qed.

(** ** [list_objects] *)

(** C10, as amended.  When [ensure_valid_token] returns, [list_objects]
    returns the empty list if the GET request raises or comes back with a
    status other than 200, and on a 200 whose body parses to an object it
    returns the "data" field of the body, the empty list when there is
    none.  An exception of [ensure_valid_token] is raised to the caller. *)
Theorem list_objects_results :
  forall (S : Type) (h : handler S) (s : S) (endpoint folder_scope position : string)
         (limit : Z),
    let x := run h (PanApiHandler.list_objects endpoint folder_scope position limit) s in
    let url := PanApiHandler.BASE_URL ++ "/" ++ endpoint ++ "?position=" ++ position
               ++ "&folder=" ++ folder_scope ++ "&limit=" ++ str_int limit ++ "&offset=0" in
    match h _ session_ensure_valid_token s with
    | (Raise e, _) => returned x = Raise e
    | (Ok _, s1) =>
        match fst (h _ (session_get url) s1) with
        | Raise _ => returned x = Ok (JArr [])
        | Ok response =>
            if (status_code response =? 200)%Z then
              match response_json response with
              | Ok (JObj members) =>
                  returned x = Ok (match dict_get members "data" with
                                   | Some data => data
                                   | None => JArr []
                                   end)
              | _ => True
              end
            else returned x = Ok (JArr [])
        end
    end.
Proof.
  intros S h s endpoint folder_scope position limit.
  unfold PanApiHandler.list_objects, PanApiHandler.ensure_valid_token,
    PanApiHandler.get_data, returned.
  norm. answer h. destruct x as [[] | e]; norm; [| reflexivity].
  answer h. destruct x as [response | e]; norm.
  - destruct (status_code response =? 200)%Z; norm.
    + destruct (response_json response) as [[| | | | | members] | e]; norm; trivial.
      destruct (dict_get members "data"); reflexivity.
    + answer h. reflexivity.
  - answer h. reflexivity.
Qed.

(** ** Supporting facts on the two implementations *)

(** [PanApiHandler.create_object] returns an outcome, whatever the
    environment does, when [time.sleep] accepts its delay. *)
Lemma scm_create_object_returns {S : Type} (h : handler S) (s : S)
    (endpoint : string) (item_data : object_definition) (retries : Z) (delay : Q) :
  sleep_exception delay = None ->
  exists v : outcome,
    returned (run h (PanApiHandler.create_object endpoint item_data retries delay) s) = Ok v.
Proof.
  intros Hdelay.
  destruct (scm_create_object_sound h endpoint item_data retries delay s)
    as (r & Hloop & Hret).
  destruct (scm_loop_returns _ _ _ _ _ _ _ _ Hdelay Hloop) as [v ->].
  rewrite Hret. destruct v; cbn; eauto.
Qed.

(** X2.  In [PanApiHandler.create_object] a response that is neither a 201 nor
    a 400 with one of the three phrases, and whose body parses, ends the
    call on that attempt with "Error: Object creation failed". *)
Lemma scm_other_failure_is_terminal {S : Type} (h : handler S) (s : S)
    (endpoint : string) (item_data : object_definition) (retries : Z) (delay : Q)
    (resp : response) :
  is_other_failure (Ok resp) = true ->
  let x := run h (PanApiHandler.create_object endpoint item_data retries delay) s in
  In (Posted (Ok resp)) (steps (trace x)) ->
  returned x = Ok (Failed (item_name item_data) "Error: Object creation failed")
  /\ exists before, steps (trace x) = (before ++ [Posted (Ok resp)])%list.
Proof.
  intros Hresp x Hin.
  destruct (scm_create_object_sound h endpoint item_data retries delay s)
    as (r & Hloop & Hret).
  fold x in Hloop, Hret.
  destruct (scm_loop_other_failure _ _ _ _ _ _ _ _ _ Hloop Hin Hresp) as [-> Hlast].
  split; [exact Hret | exact Hlast].
Qed.

(** X3.  In [post_utils.create_object] a request that raises before any 400
    body has been parsed makes the call raise UnboundLocalError: the
    [except] clause reads [error_response], which no statement has
    assigned. *)
Lemma post_utils_exception_before_400_raises {S : Type} (h : handler S) (s : S)
    (url : string) (headers : dict) (item_data : object_definition)
    (retries : Z) (delay : Q) (client_id client_secret tsg_id token_file : string)
    (e : exn) :
  let x := run h (PostUtils.create_object url headers item_data retries delay
                    client_id client_secret tsg_id token_file) s in
  In (Posted (Raise e)) (steps (trace x)) ->
  existsb binds_error_response (posts (trace x)) = false ->
  returned x = Raise PostUtilsSpec.unbound_error.
Proof.
  intros x Hin Hunbound.
  pose proof (post_utils_create_object_sound h url headers item_data retries delay
                client_id client_secret tsg_id token_file s) as Hsound.
  cbn zeta in Hsound. fold x in Hsound.
  destruct (fst (h _ (obtain_api_token client_id client_secret tsg_id token_file false) s)).
  - destruct Hsound as (l & r & Hl & Hloop & Hret).
    destruct (post_utils_loop_post_raises _ _ _ _ _ _ _ _ Hloop Hin) as (before & Hst & Hr).
    unfold posts in Hunbound. rewrite Hst, flat_map_app, existsb_app in Hunbound.
    apply orb_false_iff in Hunbound as [Hunbound _].
    unfold PostUtilsSpec.is_bound in Hr. rewrite Hl, Hunbound in Hr. subst r. exact Hret.
  - destruct Hsound as [_ Htr]. rewrite Htr in Hin. destruct Hin.
Qed.

(** ** [create_objects] *)

Lemma as_completed_in_order {A : Type} (futures : list A) :
  as_completed futures (seq 0 (length futures)) = futures.
Proof.
  unfold as_completed.
  enough (forall before l,
             flat_map (fun i => match nth_error (before ++ l) i with
                                | Some future => [future]
                                | None => []
                                end) (seq (length before) (length l)) = l) as H
      by exact (H [] futures).
  intros before l. revert before. induction l as [| a l IH]; intros before.
  - reflexivity.
  - cbn [length seq flat_map]. rewrite nth_error_app2, Nat.sub_diag by lia. cbn.
    f_equal. specialize (IH (before ++ [a])%list).
    rewrite length_app, <- app_assoc in IH. cbn in IH.
    rewrite Nat.add_1_r in IH. exact IH.
Qed.

Lemma as_completed_permutation {A : Type} (futures : list A) (completed : list nat) :
  Permutation completed (seq 0 (length futures)) ->
  Permutation (as_completed futures completed) futures.
Proof.
  intros H. rewrite <- (as_completed_in_order futures) at 2.
  unfold as_completed. now apply Permutation_flat_map.
Qed.

Lemma run_collect {S : Type} (h : handler S) (outcomes : list outcome) :
  forall (results : list outcome) (s : S),
    returned (run h (collect (map Ok outcomes) results) s)
    = (Ok tt, (results ++ outcomes)%list).
Proof.
  induction outcomes as [| o outcomes IH]; intros results s.
  - cbn. now rewrite app_nil_r.
  - unfold returned in *. cbn [map collect bind of_result set_local perform bind_prog run].
    destruct (h unit (print (str_tuple o)) s) as [[] s1].
    destruct (h unit (logging "INFO" (str_tuple o)) s1) as [[] s2].
    specialize (IH (results ++ [o])%list s2).
    destruct (run h (collect (map Ok outcomes) (results ++ [o])%list) s2) as [[rl s3] t3].
    cbn [fst] in *. rewrite IH, <- app_assoc. reflexivity.
Qed.

Lemma scm_submit_all_return {S : Type} (h : handler S) (worker_state : nat -> S)
    (endpoint : string) (items : list object_definition) :
  exists outcomes,
    submit_all h worker_state
      (fun item_data => PanApiHandler.create_object endpoint item_data 2 0.5) items
    = map Ok outcomes.
Proof.
  unfold submit_all, enumerate. generalize 0%nat as k.
  induction items as [| item items IH]; intros k.
  - exists []. reflexivity.
  - cbn [length seq combine map fst snd].
    destruct (scm_create_object_returns h (worker_state k) endpoint item 2 0.5 eq_refl)
      as [v Hv].
    destruct (IH (Datatypes.S k)) as [outcomes Houtcomes].
    exists (v :: outcomes). cbn [map]. now rewrite Hv, Houtcomes.
Qed.

Lemma length_submit_all {S : Type} (h : handler S) (worker_state : nat -> S)
    (f : object_definition -> prog (result outcome)) (items : list object_definition) :
  length (submit_all h worker_state f items) = length items.
Proof.
  unfold submit_all, enumerate.
  rewrite length_map, length_combine, length_seq. lia.
Qed.


(** ** Runs on examples *)

(** C8.  The first request of a call of [post_utils.create_object] times
    out: the [except] clause does not return a Failed tuple, the call
    raises UnboundLocalError (a NameError) on [error_response]. *)
Theorem post_utils_timeout_on_first_attempt_raises :
  returned (post_utils_run [Raise timeout_error] 2) = Raise PostUtilsSpec.unbound_error
  /\ steps (trace (post_utils_run [Raise timeout_error] 2)) = [Posted (Raise timeout_error)].
Proof. split; vm_compute; reflexivity. Qed.

(** C1.  [post_utils.create_objects] on two definitions, the request for the
    first of which times out: the call for the second returns ('This
    object created', 'web-2'), the call for the first raises, and
    [create_objects] raises that exception in place of returning the list
    of the two outcomes. *)
Theorem post_utils_create_objects_raises :
  submit_all world_handler one_timeout
    (fun item_data =>
       PostUtils.create_object addresses_url
         (dict_set json_headers "Authorization" (JStr "Bearer tok-0")) item_data 2 10
         "id" "secret" "tsg" "token.json")
    (slice_from 0 [address1; address2])
  = [Raise PostUtilsSpec.unbound_error; Ok (Created "web-2")]
  /\ returned (PostUtils.create_objects world_handler (world_at []) one_timeout [1; 0]%nat
                 "Shared" 0 "addresses?" [address1; address2]
                 "id" "secret" "tsg" "token.json" 4 "")
     = Raise PostUtilsSpec.unbound_error.
Proof. split; vm_compute; reflexivity. Qed.

(** C3.  Every request of a call of [post_utils.create_object] is answered
    by a 500: the call does not end on the first of them with "Error:
    Object creation failed", it repeats the request at once for every
    attempt it has and returns "Failed after retries". *)
Theorem post_utils_status_500_is_retried :
  returned (post_utils_run [Ok server_error_500; Ok server_error_500; Ok server_error_500] 2)
  = Ok (Failed "web-1" "Failed after retries")
  /\ steps (trace (post_utils_run
                     [Ok server_error_500; Ok server_error_500; Ok server_error_500] 2))
     = [Posted (Ok server_error_500); Posted (Ok server_error_500);
        Posted (Ok server_error_500)].
Proof. split; vm_compute; reflexivity. Qed.

(** The same answers to [PanApiHandler.create_object]: the call ends on
    the first 500. *)
Example scm_status_500_is_terminal :
  returned (scm_run [Ok server_error_500; Ok server_error_500; Ok server_error_500] 2)
  = Ok (Failed "web-1" "Error: Object creation failed")
  /\ steps (trace (scm_run [Ok server_error_500; Ok server_error_500;
                            Ok server_error_500] 2))
     = [Posted (Ok server_error_500)].
Proof. split; vm_compute; reflexivity. Qed.



(** Against C6 as stated: the body of the 400 is the text "Object already
    exists", which is not JSON; [response.json()] raises, and
    [PanApiHandler.create_object] returns the outcome of an exception. *)
Lemma already_exists_counterexample :
  status_code already_exists_text_400 = 400%Z
  /\ contains "object already exists" (lower (text already_exists_text_400)) = true
  /\ returned (scm_run [Ok already_exists_text_400] 0)
     = Ok (Failed "web-1" "Exception: Expecting value: line 1 column 1 (char 0)")
  /\ returned (scm_run [Ok already_exists_text_400] 0) <> Ok (AlreadyExists "web-1").
Proof.
  repeat split; try (vm_compute; reflexivity).
  vm_compute. discriminate.
Qed.

(** [post_utils.create_object] does not look for "max retries exceeded":
    the call ends on the first such 400. *)
Example post_utils_rate_limit_is_terminal :
  returned (post_utils_run [Ok rate_limited_400; Ok rate_limited_400;
                            Ok rate_limited_400] 2)
  = Ok (Failed "web-1" "Error: Object creation failed")
  /\ steps (trace (post_utils_run [Ok rate_limited_400; Ok rate_limited_400;
                                   Ok rate_limited_400] 2))
     = [Posted (Ok rate_limited_400)].
Proof. split; vm_compute; reflexivity. Qed.

(** Against C5 as stated: with a token that expires at 2000,
    [token_is_expired] reports it valid at 1819, 181 seconds before, and
    expired at 1821, 179 seconds before. *)
Lemma token_is_expired_counterexample :
  returned (run world_handler (PostUtils.token_is_expired "tok-0" "token.json" tt)
              (world_time (2000 - 181)))
  = (Ok false, tt)
  /\ returned (run world_handler (PostUtils.token_is_expired "tok-0" "token.json" tt)
                 (world_time (2000 - 179)))
     = (Ok true, tt).
Proof. split; vm_compute; reflexivity. Qed.


(** Against C10 as stated: [list_objects] raises when
    [ensure_valid_token] does. *)
Lemma list_objects_counterexample :
  returned (run world_handler
              (PanApiHandler.list_objects "sse/config/v1/addresses" "Shared" "pre" 10000)
              world_without_session)
  = Raise auth_error.
Proof. vm_compute. reflexivity. Qed.

(** The theorems at work on the examples. *)

Lemma already_exists_is_terminal_witness :
  returned (scm_run [Ok invalid_reference_400; Ok already_exists_400] 2)
  = Ok (AlreadyExists "web-1")
  /\ returned (post_utils_run [Ok invalid_reference_400; Ok already_exists_400] 2)
     = Ok (AlreadyExists "web-1").
Proof.
  split.
  - refine (proj1 (proj1 (already_exists_is_terminal world world_handler
                            (world_at [Ok invalid_reference_400; Ok already_exists_400])
                            address1 2 0.5 already_exists_400 eq_refl)
                     addresses_endpoint _)).
    vm_compute. right. right. left. reflexivity.
  - refine (proj1 (proj2 (already_exists_is_terminal world world_handler
                            (world_at [Ok invalid_reference_400; Ok already_exists_400])
                            address1 2 10 already_exists_400 eq_refl)
                     addresses_url json_headers "id" "secret" "tsg" "token.json" _)).
    vm_compute. right. right. left. reflexivity.
Defined.




Lemma token_is_expired_buffer_witness :
  exists expired : bool,
    returned (run world_handler (PostUtils.token_is_expired "tok-0" "token.json" tt)
                (world_time 1900))
    = (Ok expired, tt)
    /\ (expired = true <-> 2000 - 180 < 1900)
    /\ (1900 == 2000 - 179 -> expired = true)
    /\ (1900 == 2000 - 181 -> expired = false).
Proof.
  apply (token_is_expired_buffer world unit world_handler
           (world_time 1900) (world_time 1900) (world_time 1900) (world_time 1900) tt
           "tok-0" "token.json"
           [("access_token", JStr "tok-0"); ("expires_at", JNum 2000 "2000")]
           2000 1900 "2000");
    reflexivity.
Defined.

(** ** The refresh lock *)


Lemma phases_bind_prog {A B : Type} (f : A -> prog B) :
  (forall a, Pool.outside (f a)) ->
  (forall p : prog A, Pool.outside p -> Pool.outside (bind_prog p f))
  /\ (forall p : prog A, Pool.entering p -> Pool.entering (bind_prog p f))
  /\ (forall p : prog A, Pool.loading p -> Pool.loading (bind_prog p f))
  /\ (forall e (p : prog A), Pool.timing e p -> Pool.timing e (bind_prog p f))
  /\ (forall p : prog A, Pool.refreshing p -> Pool.refreshing (bind_prog p f))
  /\ (forall p : prog A, Pool.releasing p -> Pool.releasing (bind_prog p f)).
Proof.
  intros Hf.
  apply (Pool.phases_mut A
           (fun p => Pool.outside (bind_prog p f))
           (fun p => Pool.entering (bind_prog p f))
           (fun p => Pool.loading (bind_prog p f))
           (fun e p => Pool.timing e (bind_prog p f))
           (fun p => Pool.refreshing (bind_prog p f))
           (fun p => Pool.releasing (bind_prog p f)));
    cbn [bind_prog]; intros; try (constructor; now auto).
  apply Hf.
Qed.

Lemma outside_bind_prog {A B : Type} (p : prog A) (f : A -> prog B) :
  Pool.outside p -> (forall a, Pool.outside (f a)) -> Pool.outside (bind_prog p f).
Proof. intros Hp Hf. now apply (phases_bind_prog f Hf). Qed.

Lemma outside_bind {L A B : Type} (m : M L A) (f : A -> M L B) (l : L) :
  Pool.outside (m l) -> (forall a l1, Pool.outside (f a l1)) -> Pool.outside (bind m f l).
Proof.
  intros Hm Hf. unfold bind. apply outside_bind_prog; [exact Hm |].
  intros [[a | e] l1]; [apply Hf | constructor].
Qed.

Lemma py_gt_false (a b : Q) : a <= b -> py_gt a b = false.
Proof.
  intros H. destruct (py_gt a b) eqn:Hgt; [| reflexivity].
  apply py_gt_spec in Hgt. exfalso. eapply Qlt_not_le; eassumption.
Qed.

Ltac phase_step :=
  first
    [ apply Pool.outside_ret
    | apply Pool.outside_acquire
    | apply Pool.entering_exists
    | apply Pool.loading_load;
      let members := fresh "members" in
      let e := fresh "e" in
      let txt := fresh "txt" in
      let Hget := fresh "Hget" in
      intros members e txt Hget; norm
    | apply Pool.timing_time;
      [ let now := fresh "now" in
        let Hnow := fresh "Hnow" in
        intros now Hnow; norm;
        match goal with H : dict_get _ "expires_at" = Some _ |- _ => rewrite H end; norm;
        rewrite (proj2 (py_gt_spec _ _) Hnow); norm
      | let now := fresh "now" in
        let Hnow := fresh "Hnow" in
        intros now Hnow; norm;
        match goal with H : dict_get _ "expires_at" = Some _ |- _ => rewrite H end; norm;
        rewrite (py_gt_false _ _ Hnow); norm ]
    | apply Pool.refreshing_print
    | apply Pool.refreshing_logging
    | apply Pool.refreshing_obtain; let x := fresh "x" in intros x; destruct x; norm
    | apply Pool.releasing_release
    | apply Pool.outside_call;
      [ constructor; try (apply sleep_exception_none; assumption)
      | let x := fresh "x" in intros x; try destruct x; norm ]
    | match goal with
      | |- context [if ?b then _ else _] => destruct b eqn:?; norm
      | |- context [match ?r with Ok _ => _ | Raise _ => _ end] => destruct r eqn:?; norm
      | |- context [match ?r with Some _ => _ | None => _ end] => destruct r eqn:?; norm
      end ].

Lemma post_utils_attempt_outside url item delay client_id client_secret tsg_id token_file a l :
  Pool.outside (PostUtils.create_object_attempt url item delay
                  client_id client_secret tsg_id token_file a l).
Proof.
  destruct l as [tok hdrs er].
  unfold PostUtils.create_object_attempt, PostUtils.token_is_expired,
    PostUtils.read_error_response, time_sleep, subscript, number.
  norm. repeat phase_step.
Qed.

Lemma for_in_outside {L : Type} (body : Z -> M L (option outcome)) (xs : list Z) :
  (forall a l, Pool.outside (body a l)) ->
  forall l, Pool.outside (for_in xs body l).
Proof.
  intros Hbody. induction xs as [| a xs IH]; intros l.
  - constructor.
  - cbn [for_in]. apply outside_bind; [apply Hbody |].
    intros [v |] l1; [constructor | apply IH].
Qed.

(** A worker of [post_utils.create_objects] takes the lock before it tests
    the token, refreshes only while it holds the lock, and releases the
    lock after the block. *)
Lemma post_utils_create_object_outside url headers item retries delay
    client_id client_secret tsg_id token_file :
  Pool.outside (PostUtils.create_object url headers item retries delay
                  client_id client_secret tsg_id token_file).
Proof.
  unfold PostUtils.create_object, call_with.
  apply outside_bind_prog; [| intros; constructor].
  apply outside_bind.
  - cbn. apply Pool.outside_call; [constructor |]. intros x. constructor.
  - intros tok l1. apply outside_bind; [constructor |]. intros _ l2.
    apply outside_bind; [constructor |]. intros _ l3.
    apply outside_bind.
    + apply for_in_outside. intros a l. apply post_utils_attempt_outside.
    + intros [v |] l4; constructor.
Qed.

Lemma nth_error_set_nth {A : Type} (l : list A) (i j : nat) (a : A) :
  nth_error (Pool.set_nth i a l) j
  = if Nat.eqb j i
    then match nth_error l i with
         | Some _ => Some a
         | None => None
         end
    else nth_error l j.
Proof.
  revert i j. induction l as [| b l IH]; intros i j.
  - cbn. destruct (Nat.eqb j i); destruct i, j; reflexivity.
  - destruct i as [| i], j as [| j]; cbn; try reflexivity. apply IH.
Qed.

Lemma refreshes_app (t1 t2 : list event) :
  refreshes (t1 ++ t2) = (refreshes t1 + refreshes t2)%nat.
Proof. unfold refreshes. now rewrite filter_app, length_app. Qed.

Lemma releases_app (t1 t2 : list event) :
  Pool.releases (t1 ++ t2) = (Pool.releases t1 + Pool.releases t2)%nat.
Proof. unfold Pool.releases. now rewrite filter_app, length_app. Qed.

(** What the next call of a worker is, in every phase. *)
Lemma entering_next {R : Type} (p : prog R) :
  Pool.entering p -> Pool.next_is_release p = false /\ Pool.next_refreshes p = false.
Proof. destruct 1; auto. Qed.

Lemma loading_next {R : Type} (p : prog R) :
  Pool.loading p -> Pool.next_is_release p = false /\ Pool.next_refreshes p = false.
Proof. destruct 1; auto. Qed.

Lemma timing_next {R : Type} (e : Q) (p : prog R) :
  Pool.timing e p -> Pool.next_is_release p = false /\ Pool.next_refreshes p = false.
Proof. destruct 1; auto. Qed.

Lemma refreshing_next {R : Type} (p : prog R) :
  Pool.refreshing p -> Pool.next_is_release p = false /\ Pool.next_refreshes p = true.
Proof. destruct 1; auto. Qed.

Lemma releasing_next {R : Type} (p : prog R) :
  Pool.releasing p -> Pool.next_is_release p = true /\ Pool.next_refreshes p = false.
Proof. destruct 1; auto. Qed.


Section SingleFlight.
Variables (tok0 : string) (e0 : Q) (text0 : string).
Variables (tok1 : string) (e1 : Q) (text1 : string).
Variable now0 : Q.
Local Abbreviation well_formed := (Pool.well_formed tok0 e0 text0 tok1 e1 text1 now0).
Local Abbreviation single_flight := (Pool.single_flight tok0 e0 text0 tok1 e1 text1).

Lemma holder_is_true i pl : Pool.holder_is i pl = true -> Pool.lock_holder pl = Some i.
Proof.
  unfold Pool.holder_is. destruct (Pool.lock_holder pl) as [j |]; [| discriminate].
  intros H. apply Nat.eqb_eq in H. now subst.
Qed.

(** The workers other than the one that steps are where they were. *)
Lemma others_stay pl i q q' w' holder' history' :
  well_formed pl ->
  nth_error (Pool.threads pl) i = Some q ->
  (forall j, j <> i ->
             Pool.holder_is j (Pool.Pool_ w' holder' (Pool.set_nth i q' (Pool.threads pl))
                                 history')
             = Pool.holder_is j pl) ->
  (Pool.store_expiry w' = Pool.store_expiry (Pool.shared pl)
   \/ Pool.lock_holder pl = Some i) ->
  (if Pool.holder_is i (Pool.Pool_ w' holder' (Pool.set_nth i q' (Pool.threads pl)) history')
   then Pool.inside (Pool.store_expiry w') q' else Pool.outside q') ->
  forall j q'',
    nth_error (Pool.set_nth i q' (Pool.threads pl)) j = Some q'' ->
    if Pool.holder_is j (Pool.Pool_ w' holder' (Pool.set_nth i q' (Pool.threads pl)) history')
    then Pool.inside (Pool.store_expiry w') q'' else Pool.outside q''.
Proof.
  intros Hwf Hq Hothers Hstore Hnew j q'' Hj.
  rewrite nth_error_set_nth in Hj. destruct (Nat.eqb j i) eqn:Hji.
  - apply Nat.eqb_eq in Hji. subst j. rewrite Hq in Hj. now inversion Hj; subst.
  - apply Nat.eqb_neq in Hji. rewrite (Hothers j Hji).
    pose proof (Pool.wf_threads _ _ _ _ _ _ _ _ Hwf j q'' Hj) as Hold.
    destruct (Pool.holder_is j pl) eqn:Hholder; [| exact Hold].
    apply holder_is_true in Hholder.
    destruct Hstore as [-> | Hi]; [exact Hold | congruence].
Qed.

Lemma holder_is_self i w threads history :
  Pool.holder_is i (Pool.Pool_ w (Some i) threads history) = true.
Proof. unfold Pool.holder_is. cbn. apply Nat.eqb_refl. Qed.

Ltac stepped Hstep :=
  injection Hstep as <-; cbn [Pool.shared Pool.lock_holder Pool.threads Pool.history].

Ltac wf_split Hwf Hq :=
  constructor;
  [ cbn; auto | cbn; auto | cbn; auto
  | cbn [Pool.threads Pool.shared];
    eapply (others_stay _ _ _ _ _ _ _ Hwf Hq); eauto ].

Lemma step_well_formed pl i pl' :
  well_formed pl -> Pool.step i pl = Some pl' ->
  well_formed pl' /\ clock (Pool.shared pl) <= clock (Pool.shared pl').
Proof.
  intros Hwf Hstep. unfold Pool.step in Hstep.
  destruct (nth_error (Pool.threads pl) i) as [q |] eqn:Hq; [| discriminate].
  pose proof (Pool.wf_threads _ _ _ _ _ _ _ _ Hwf i q Hq) as Hphase.
  pose proof (Pool.wf_store _ _ _ _ _ _ _ _ Hwf) as Hstore.
  pose proof (Pool.wf_provider _ _ _ _ _ _ _ _ Hwf) as Hprovider.
  pose proof (Pool.wf_clock _ _ _ _ _ _ _ _ Hwf) as Hclock.
  destruct (Pool.holder_is i pl) eqn:Hholder.
  - apply holder_is_true in Hholder.
    assert (forall w' q' history' j, j <> i ->
              Pool.holder_is j (Pool.Pool_ w' (Pool.lock_holder pl)
                                  (Pool.set_nth i q' (Pool.threads pl)) history')
              = Pool.holder_is j pl) as Hsame by reflexivity.
    destruct Hphase as [H | [H | [H | [H | H]]]]; destruct H; cbn in Hstep.
    + (* entering *)
      stepped Hstep. split; [| apply Qle_refl].
      wf_split Hwf Hq.
      rewrite Hholder, holder_is_self.
      destruct Hstore as [-> | ->]; right; left; assumption.
    + (* loading *)
      stepped Hstep. split; [| apply Qle_refl].
      wf_split Hwf Hq.
      rewrite Hholder, holder_is_self.
      destruct Hstore as [Hs | Hs]; rewrite Hs; right; right; left;
        unfold Pool.store_expiry, Pool.cached; rewrite Hs; cbn; eapply H; reflexivity.
    + (* timing *)
      stepped Hstep. split; [| apply Qle_refl].
      wf_split Hwf Hq.
      rewrite Hholder, holder_is_self.
      destruct (Qlt_le_dec (e - 180) (clock (Pool.shared pl))) as [Hnow | Hnow].
      * right; right; right; left. auto.
      * right; right; right; right. auto.
    + (* refreshing: print *)
      stepped Hstep. split; [| apply Qle_refl].
      wf_split Hwf Hq.
      rewrite Hholder, holder_is_self. right; right; right; left. assumption.
    + (* refreshing: logging *)
      stepped Hstep. split; [| apply Qle_refl].
      wf_split Hwf Hq.
      rewrite Hholder, holder_is_self. right; right; right; left. assumption.
    + (* refreshing: obtain_api_token with force_refresh *)
      unfold world_obtain_api_token in Hstep.
      destruct Hprovider as [Hp | Hp]; rewrite Hp in Hstep; cbn in Hstep.
      * stepped Hstep. split; [| apply Qle_refl].
        wf_split Hwf Hq.
        rewrite Hholder, holder_is_self. right; right; right; right. apply H.
      * stepped Hstep. split; [| apply Qle_refl].
        wf_split Hwf Hq.
        rewrite Hholder, holder_is_self. right; right; right; right. apply H.
    + (* releasing *)
      stepped Hstep. split; [| apply Qle_refl].
      wf_split Hwf Hq.
      intros j Hj. unfold Pool.holder_is. cbn. rewrite Hholder.
      symmetry. apply Nat.eqb_neq. exact Hj.
  - assert (forall w' q' history',
              Pool.holder_is i (Pool.Pool_ w' (Pool.lock_holder pl)
                                  (Pool.set_nth i q' (Pool.threads pl)) history')
              = false) as Hfree by exact (fun _ _ _ => Hholder).
    destruct Hphase as [r | X c k Hord Hk | k Hent].
    + discriminate.
    + destruct Hord; cbn in Hstep.
      * (* obtain_api_token without force_refresh: the cached token *)
        unfold world_obtain_api_token in Hstep.
        destruct Hstore as [Hs | Hs]; rewrite Hs in Hstep; cbn in Hstep;
          stepped Hstep; (split; [| apply Qle_refl]); wf_split Hwf Hq;
          rewrite Hfree; apply Hk.
      * (* requests.post *)
        unfold world_post in Hstep.
        destruct (next_answer (post_answers (Pool.shared pl)) (Raise connection_error))
          as [a rest].
        stepped Hstep. split; [| apply Qle_refl]. wf_split Hwf Hq.
        rewrite Hfree. apply Hk.
      * (* time.sleep *)
        stepped Hstep. split; [| cbn; lra]. wf_split Hwf Hq.
        -- cbn. lra.
        -- rewrite Hfree. apply Hk.
      * stepped Hstep. split; [| apply Qle_refl]. wf_split Hwf Hq.
        rewrite Hfree. apply Hk.
      * stepped Hstep. split; [| apply Qle_refl]. wf_split Hwf Hq.
        rewrite Hfree. apply Hk.
    + (* lock_acquire *)
      cbn in Hstep. unfold Pool.held in Hstep.
      destruct (Pool.lock_holder pl) as [other |] eqn:Hlock; [discriminate |].
      stepped Hstep. split; [| apply Qle_refl]. wf_split Hwf Hq.
      * intros j Hj. unfold Pool.holder_is. cbn. rewrite Hlock.
        apply Nat.eqb_neq. exact Hj.
      * rewrite holder_is_self. left. exact Hent.
Qed.


(** The worker that holds the lock after a step of worker [i]. *)
Lemma holder_after (P : prog (result outcome) -> bool) pl i q0 q' holder' :
  (forall j q, Pool.lock_holder pl = Some j -> nth_error (Pool.threads pl) j = Some q ->
               P q = false) ->
  nth_error (Pool.threads pl) i = Some q0 ->
  (holder' = Some i -> P q' = false) ->
  (forall j, j <> i -> holder' = Some j -> Pool.lock_holder pl = Some j) ->
  forall j q, holder' = Some j -> nth_error (Pool.set_nth i q' (Pool.threads pl)) j = Some q ->
              P q = false.
Proof.
  intros Hold Hq0 Hnew Hothers j q Hj Hq.
  rewrite nth_error_set_nth in Hq. destruct (Nat.eqb j i) eqn:Hji.
  - apply Nat.eqb_eq in Hji. subst j. rewrite Hq0 in Hq. inversion Hq; subst. auto.
  - apply Nat.eqb_neq in Hji. eauto.
Qed.

Lemma store_expiry_cached w tok e txt :
  token_store w = Some (Pool.cached tok e txt) -> Pool.store_expiry w = e.
Proof. intros H. unfold Pool.store_expiry. now rewrite H. Qed.

(** A step that is neither a refresh nor a release, and leaves the token
    file and the provider as they are. *)
Lemma quiet_step pl i q0 q' w' holder' ev :
  single_flight pl ->
  nth_error (Pool.threads pl) i = Some q0 ->
  token_store w' = token_store (Pool.shared pl) ->
  provider w' = provider (Pool.shared pl) ->
  is_refresh ev = false -> Pool.is_lock_release ev = false ->
  (holder' = Some i -> refreshes (Pool.history pl) = 0%nat ->
   Pool.next_is_release q' = false) ->
  (holder' = Some i -> refreshes (Pool.history pl) <> 0%nat ->
   Pool.next_refreshes q' = false) ->
  (forall j, j <> i -> holder' = Some j -> Pool.lock_holder pl = Some j) ->
  single_flight (Pool.Pool_ w' holder' (Pool.set_nth i q' (Pool.threads pl))
                   (Pool.history pl ++ [ev])).
Proof.
  intros [Hbefore Hafter] Hq0 Hstore Hprovider Hev1 Hev2 Hnew0 Hnew1 Hothers.
  assert (refreshes (Pool.history pl ++ [ev]) = refreshes (Pool.history pl)) as Hcount.
  { rewrite refreshes_app. unfold refreshes at 2. cbn. rewrite Hev1. cbn. lia. }
  assert (Pool.releases (Pool.history pl ++ [ev]) = Pool.releases (Pool.history pl))
    as Hreleases.
  { rewrite releases_app. unfold Pool.releases at 2. cbn. rewrite Hev2. cbn. lia. }
  constructor; cbn [Pool.shared Pool.lock_holder Pool.threads Pool.history];
    rewrite Hcount, Hstore, ?Hprovider, ?Hreleases; intros Hc.
  - destruct (Hbefore Hc) as (H1 & H2 & H3 & H4). repeat split; auto.
    eapply holder_after; eauto.
  - destruct (Hafter Hc) as (H1 & H2 & H3). repeat split; auto.
    eapply holder_after; eauto.
Qed.


Hypothesis expired : e0 - 180 < now0.

Lemma step_single_flight pl i pl' :
  well_formed pl -> single_flight pl ->
  Pool.step i pl = Some pl' ->
  clock (Pool.shared pl') <= e1 - 180 ->
  single_flight pl'.
Proof.
  intros Hwf Hsf Hstep Hbound. unfold Pool.step in Hstep.
  destruct (nth_error (Pool.threads pl) i) as [q |] eqn:Hq; [| discriminate].
  pose proof (Pool.wf_threads _ _ _ _ _ _ _ _ Hwf i q Hq) as Hphase.
  pose proof (Pool.wf_clock _ _ _ _ _ _ _ _ Hwf) as Hclock.
  pose proof Hsf as [Hbefore Hafter].
  destruct (Pool.holder_is i pl) eqn:Hholder.
  - apply holder_is_true in Hholder.
    assert (forall j, j <> i -> Pool.lock_holder pl = Some j -> Pool.lock_holder pl = Some j)
      as Hothers by auto.
    remember (Pool.store_expiry (Pool.shared pl)) as e eqn:He.
    destruct Hphase as [H | [H | [H | [H | H]]]]; destruct H; cbn in Hstep.
    + (* entering *)
      destruct (Pool.wf_store _ _ _ _ _ _ _ _ Hwf) as [Hs | Hs]; rewrite Hs in Hstep;
        stepped Hstep; eapply quiet_step; eauto; intros; eapply loading_next; eauto.
    + (* loading *)
      destruct (Pool.wf_store _ _ _ _ _ _ _ _ Hwf) as [Hs | Hs]; rewrite Hs in Hstep;
        stepped Hstep; eapply quiet_step; eauto; intros;
        unfold Pool.cached; eapply timing_next; eapply H; reflexivity.
    + (* timing *)
      stepped Hstep. cbn in Hbound. eapply quiet_step; eauto.
      * intros _ Hc. destruct (Hbefore Hc) as (Hs & _).
        apply store_expiry_cached in Hs. assert (e = e0) as -> by congruence.
        eapply refreshing_next. apply H. lra.
      * intros _ Hc. destruct (Hafter Hc) as (_ & Hs & _).
        apply store_expiry_cached in Hs. assert (e = e1) as -> by congruence.
        eapply releasing_next. apply H0. lra.
    + (* refreshing: print *)
      stepped Hstep. eapply quiet_step; eauto.
      * intros. eapply refreshing_next; eauto.
      * intros _ Hc. destruct (Hafter Hc) as (_ & _ & Hh).
        specialize (Hh i _ Hholder Hq). discriminate.
    + (* refreshing: logging *)
      stepped Hstep. eapply quiet_step; eauto.
      * intros. eapply refreshing_next; eauto.
      * intros _ Hc. destruct (Hafter Hc) as (_ & _ & Hh).
        specialize (Hh i _ Hholder Hq). discriminate.
    + (* refreshing: the refresh *)
      assert (refreshes (Pool.history pl) = 0%nat) as Hc.
      { destruct (refreshes (Pool.history pl)) eqn:Hc; [reflexivity |].
        destruct (Hafter ltac:(lia)) as (_ & _ & Hh).
        specialize (Hh i _ Hholder Hq). discriminate. }
      destruct (Hbefore Hc) as (Hs & Hp & Hr & Hh).
      unfold world_obtain_api_token in Hstep. rewrite Hp in Hstep. cbn in Hstep.
      stepped Hstep.
      assert (refreshes (Pool.history pl ++
                [Event (obtain_api_token client_id client_secret tsg_id token_file true)
                   (Ok tok1)]) = 1%nat) as Hcount.
      { rewrite refreshes_app, Hc. reflexivity. }
      constructor; cbn [Pool.shared Pool.lock_holder Pool.threads Pool.history];
        rewrite Hcount; intros Hc'; [discriminate |].
      repeat split; auto.
      intros j q' Hj Hq'. assert (j = i) as -> by congruence.
      rewrite nth_error_set_nth, Nat.eqb_refl, Hq in Hq'. inversion Hq'; subst.
      eapply releasing_next. apply H.
    + (* releasing *)
      assert (refreshes (Pool.history pl) <> 0%nat) as Hc.
      { intros Hc. destruct (Hbefore Hc) as (_ & _ & _ & Hh).
        specialize (Hh i _ Hholder Hq). discriminate. }
      destruct (Hafter Hc) as (H1 & Hs & Hh).
      stepped Hstep.
      assert (refreshes (Pool.history pl ++ [Event lock_release tt]) = 1%nat) as Hcount.
      { rewrite refreshes_app, H1. reflexivity. }
      constructor; cbn [Pool.shared Pool.lock_holder Pool.threads Pool.history];
        rewrite Hcount; intros Hc'; [discriminate |].
      repeat split; auto. intros j q' Hj. discriminate.
  - assert (Pool.lock_holder pl <> Some i) as Hnot.
    { intros Hl. unfold Pool.holder_is in Hholder. rewrite Hl, Nat.eqb_refl in Hholder.
      discriminate. }
    destruct Hphase as [r | X c k Hord Hk | k Hent].
    + discriminate.
    + destruct Hord; cbn in Hstep.
      * pose proof (Pool.wf_store _ _ _ _ _ _ _ _ Hwf) as Hstore.
        unfold world_obtain_api_token in Hstep.
        destruct Hstore as [Hs | Hs]; rewrite Hs in Hstep; cbn in Hstep;
          stepped Hstep; eapply quiet_step; eauto; intros; congruence.
      * unfold world_post in Hstep.
        destruct (next_answer (post_answers (Pool.shared pl)) (Raise connection_error))
          as [a rest].
        stepped Hstep. eapply quiet_step; eauto; intros; congruence.
      * stepped Hstep. eapply quiet_step; eauto; intros; congruence.
      * stepped Hstep. eapply quiet_step; eauto; intros; congruence.
      * stepped Hstep. eapply quiet_step; eauto; intros; congruence.
    + cbn in Hstep. unfold Pool.held in Hstep.
      destruct (Pool.lock_holder pl) as [other |] eqn:Hlock; [discriminate |].
      stepped Hstep. eapply quiet_step; eauto.
      * intros. eapply entering_next; eauto.
      * intros. eapply entering_next; eauto.
      * intros j Hj Hs. congruence.
Qed.


Lemma schedule_invariant turns : forall pl,
  well_formed pl ->
  (clock (Pool.shared pl) <= e1 - 180 -> single_flight pl) ->
  well_formed (Pool.schedule turns pl)
  /\ (clock (Pool.shared (Pool.schedule turns pl)) <= e1 - 180 ->
      single_flight (Pool.schedule turns pl)).
Proof.
  induction turns as [| i turns IH]; intros pl Hwf Hsf.
  - auto.
  - cbn [Pool.schedule]. destruct (Pool.step i pl) as [pl' |] eqn:Hstep; [| auto].
    destruct (step_well_formed pl i pl' Hwf Hstep) as [Hwf' Hclock].
    apply IH; [exact Hwf' |].
    intros Hbound.
    assert (clock (Pool.shared pl) <= e1 - 180) as Hbefore
      by (eapply Qle_trans; eassumption).
    exact (step_single_flight pl i pl' Hwf (Hsf Hbefore) Hstep Hbound).
Qed.

Lemma start_well_formed w workers :
  Forall Pool.outside workers ->
  token_store w = Some (Pool.cached tok0 e0 text0) ->
  provider w = [Ok (tok1, Pool.cached tok1 e1 text1)] ->
  now0 <= clock w ->
  well_formed (Pool.start w workers) /\ single_flight (Pool.start w workers).
Proof.
  intros Hworkers Hstore Hprovider Hclock. split.
  - constructor; cbn; auto.
    intros i q Hq. eapply Forall_forall; [exact Hworkers |].
    eapply nth_error_In; eassumption.
  - constructor; cbn; intros Hc; [| congruence].
    repeat split; auto. intros i q Hi. discriminate.
Qed.

Lemma single_refresh w workers turns :
  Forall Pool.outside workers ->
  token_store w = Some (Pool.cached tok0 e0 text0) ->
  provider w = [Ok (tok1, Pool.cached tok1 e1 text1)] ->
  now0 <= clock w ->
  clock (Pool.shared (Pool.schedule turns (Pool.start w workers))) <= e1 - 180 ->
  (refreshes (Pool.history (Pool.schedule turns (Pool.start w workers))) <= 1)%nat
  /\ ((0 < Pool.releases (Pool.history (Pool.schedule turns (Pool.start w workers))))%nat ->
      refreshes (Pool.history (Pool.schedule turns (Pool.start w workers))) = 1%nat).
Proof.
  intros Hworkers Hstore Hprovider Hclock Hbound.
  destruct (start_well_formed w workers Hworkers Hstore Hprovider Hclock) as [Hwf Hsf].
  destruct (schedule_invariant turns _ Hwf (fun _ => Hsf)) as [_ Hfinal].
  destruct (Hfinal Hbound) as [Hbefore Hafter].
  destruct (refreshes (Pool.history (Pool.schedule turns (Pool.start w workers))))
    as [| n] eqn:Hc.
  - destruct (Hbefore eq_refl) as (_ & _ & Hr & _). split; lia.
  - destruct (Hafter ltac:(lia)) as (H1 & _). split; lia.
Qed.

End SingleFlight.


(** The three workers of the example all create their object, and one
    refresh was made. *)
Example three_workers_refresh_once :
  map finished (Pool.threads three_workers)
  = [Some (Ok (Created "web-1")); Some (Ok (Created "web-2")); Some (Ok (Created "web-1"))]
  /\ refreshes (Pool.history three_workers) = 1%nat
  /\ Pool.releases (Pool.history three_workers) = 3%nat.
Proof. repeat split; vm_compute; reflexivity. Qed.



(** ** More on [create_object] *)

Lemma loop_iterations_le {L : Type}
    (iteration : Z -> L -> result (option outcome) -> L -> list step -> Prop)
    xs l r st n :
  loop iteration xs l r st n -> (n <= length xs)%nat.
Proof.
  induction 1; cbn [length]; lia.
Qed.

Section PanApiHandlerOutcomes.
Variables (name : string) (retries : Z) (delay : Q).
Let iteration := PanApiHandlerSpec.iteration name retries delay.

Ltac iteration_cases H :=
  inv H; match goal with H' : PanApiHandlerSpec.try_block _ _ _ _ |- _ => inv H' end.

Lemma scm_loop_created xs l r st n resp :
  loop iteration xs l r st n ->
  In (Posted (Ok resp)) st ->
  (status_code resp =? 201)%Z = true ->
  r = Ok (Some (Created name))
  /\ exists before, st = (before ++ [Posted (Ok resp)])%list.
Proof.
  intros Hloop Hin Hresp. induction Hloop as [l | a xs l v l1 st Hit | a xs l e l1 st Hit
                                            | a xs l l1 st r st' n Hit Hloop IH].
  - destruct Hin.
  - iteration_cases Hit; in_steps; try congruence.
    split; [reflexivity | exists []; reflexivity].
  - iteration_cases Hit; in_steps; try congruence.
  - apply in_app_or in Hin as [Hin | Hin].
    + iteration_cases Hit; in_steps; try congruence.
    + destruct (IH Hin) as [-> [before ->]]. split; [reflexivity |].
      exists (st ++ before)%list. now rewrite app_assoc.
Qed.

Lemma scm_loop_created_inv xs l r st n :
  loop iteration xs l r st n ->
  r = Ok (Some (Created name)) ->
  exists before resp,
    st = (before ++ [Posted (Ok resp)])%list /\ (status_code resp =? 201)%Z = true.
Proof.
  intros Hloop Hr. induction Hloop as [l | a xs l v l1 st Hit | a xs l e l1 st Hit
                                     | a xs l l1 st r st' n Hit Hloop IH].
  - discriminate.
  - inv Hr. iteration_cases Hit; try discriminate.
    exists [], r. split; [reflexivity | assumption].
  - discriminate.
  - destruct (IH Hr) as (before & resp & -> & H201).
    exists (st ++ before)%list, resp. now rewrite app_assoc.
Qed.

Lemma scm_loop_outcome xs l r st n :
  loop iteration xs l r st n ->
  match r with
  | Ok (Some v) => scm_outcome name v
  | Ok None => True
  | Raise e => sleep_exception delay = Some e
  end.
Proof.
  unfold scm_outcome.
  induction 1 as [l | a xs l v l1 st Hit | a xs l e l1 st Hit
                 | a xs l l1 st r st' n Hit Hloop IH]; auto.
  - iteration_cases Hit; eauto 8; do 4 right; eexists; reflexivity.
  - inv Hit; auto.
Qed.

End PanApiHandlerOutcomes.

Section PostUtilsOutcomes.
Variables (name : string) (delay : Q).
Let iteration := PostUtilsSpec.iteration name delay.

Ltac iteration_cases H :=
  inv H; match goal with H' : PostUtilsSpec.try_block _ _ _ _ _ _ |- _ => inv H' end.

Lemma post_utils_loop_created xs l r st n resp :
  loop iteration xs l r st n ->
  In (Posted (Ok resp)) st ->
  (status_code resp =? 201)%Z = true ->
  r = Ok (Some (Created name))
  /\ exists before, st = (before ++ [Posted (Ok resp)])%list.
Proof.
  intros Hloop Hin Hresp. induction Hloop as [l | a xs l v l1 st Hit | a xs l e l1 st Hit
                                            | a xs l l1 st r st' n Hit Hloop IH].
  - destruct Hin.
  - iteration_cases Hit; in_steps; try congruence.
    split; [reflexivity | exists []; reflexivity].
  - iteration_cases Hit; in_steps; try congruence.
  - apply in_app_or in Hin as [Hin | Hin].
    + iteration_cases Hit; in_steps; try congruence.
    + destruct (IH Hin) as [-> [before ->]]. split; [reflexivity |].
      exists (st ++ before)%list. now rewrite app_assoc.
Qed.

Lemma post_utils_loop_created_inv xs l r st n :
  loop iteration xs l r st n ->
  r = Ok (Some (Created name)) ->
  exists before resp,
    st = (before ++ [Posted (Ok resp)])%list /\ (status_code resp =? 201)%Z = true.
Proof.
  intros Hloop Hr. induction Hloop as [l | a xs l v l1 st Hit | a xs l e l1 st Hit
                                     | a xs l l1 st r st' n Hit Hloop IH].
  - discriminate.
  - inv Hr. iteration_cases Hit; try discriminate.
    exists [], r. split; [reflexivity | assumption].
  - discriminate.
  - destruct (IH Hr) as (before & resp & -> & H201).
    exists (st ++ before)%list, resp. now rewrite app_assoc.
Qed.

Lemma post_utils_loop_outcome xs l r st n :
  loop iteration xs l r st n ->
  match r with
  | Ok (Some v) => post_utils_outcome name v
  | Ok None => True
  | Raise e => e = PostUtilsSpec.unbound_error
  end.
Proof.
  unfold post_utils_outcome.
  induction 1 as [l | a xs l v l1 st Hit | a xs l e l1 st Hit
                 | a xs l l1 st r st' n Hit Hloop IH]; auto.
  - iteration_cases Hit; eauto 8.
  - inv Hit; auto.
Qed.

End PostUtilsOutcomes.

(** X5.  A POST answered by status 201 ends [create_object], in both
    implementations, with ('This object created', name), and
    [create_object] returns that tuple only when its last POST was
    answered by status 201. *)
Theorem created_is_terminal :
  forall (S : Type) (h : handler S) (s : S) (item_data : object_definition)
         (retries : Z) (delay : Q),
    (forall endpoint,
        let x := run h (PanApiHandler.create_object endpoint item_data retries delay) s in
        (forall resp,
            (status_code resp =? 201)%Z = true ->
            In (Posted (Ok resp)) (steps (trace x)) ->
            returned x = Ok (Created (item_name item_data))
            /\ exists before, steps (trace x) = (before ++ [Posted (Ok resp)])%list)
        /\ (returned x = Ok (Created (item_name item_data)) ->
            exists before resp,
              steps (trace x) = (before ++ [Posted (Ok resp)])%list
              /\ (status_code resp =? 201)%Z = true))
    /\ (forall url headers client_id client_secret tsg_id token_file,
        let x := run h (PostUtils.create_object url headers item_data retries delay
                          client_id client_secret tsg_id token_file) s in
        (forall resp,
            (status_code resp =? 201)%Z = true ->
            In (Posted (Ok resp)) (steps (trace x)) ->
            returned x = Ok (Created (item_name item_data))
            /\ exists before, steps (trace x) = (before ++ [Posted (Ok resp)])%list)
        /\ (returned x = Ok (Created (item_name item_data)) ->
            exists before resp,
              steps (trace x) = (before ++ [Posted (Ok resp)])%list
              /\ (status_code resp =? 201)%Z = true)).
Proof.
  intros S h s item_data retries delay. split.
  - intros endpoint x.
    destruct (scm_create_object_sound h endpoint item_data retries delay s)
      as (r & Hloop & Hret).
    fold x in Hloop, Hret. split.
    + intros resp H201 Hin.
      destruct (scm_loop_created _ _ _ _ _ _ _ _ _ Hloop Hin H201) as [-> Hlast].
      split; [exact Hret | exact Hlast].
    + intros Hcreated. rewrite Hret in Hcreated.
      eapply scm_loop_created_inv; [exact Hloop |].
      destruct r as [[v |] | e]; cbn [after_loop] in Hcreated;
        [inv Hcreated; reflexivity | discriminate | discriminate].
  - intros url headers client_id client_secret tsg_id token_file x.
    pose proof (post_utils_create_object_sound h url headers item_data retries delay
                  client_id client_secret tsg_id token_file s) as Hsound.
    cbn zeta in Hsound. fold x in Hsound.
    destruct (fst (h _ (obtain_api_token client_id client_secret tsg_id token_file false) s)).
    + destruct Hsound as (l & r & _ & Hloop & Hret). split.
      * intros resp H201 Hin.
        destruct (post_utils_loop_created _ _ _ _ _ _ _ _ Hloop Hin H201) as [-> Hlast].
        split; [exact Hret | exact Hlast].
      * intros Hcreated. rewrite Hret in Hcreated.
        eapply post_utils_loop_created_inv; [exact Hloop |].
        destruct r as [[v |] | e']; cbn [after_loop] in Hcreated;
          [inv Hcreated; reflexivity | discriminate | discriminate].
    + destruct Hsound as [Hret Htr]. split.
      * intros resp _ Hin. rewrite Htr in Hin. destruct Hin.
      * intros Hcreated. congruence.
Qed.

Lemma created_is_terminal_witness :
  returned (scm_run [Ok invalid_reference_400; Ok created_201] 2)
  = Ok (Created "web-1")
  /\ returned (post_utils_run [Ok invalid_reference_400; Ok created_201] 2)
     = Ok (Created "web-1")
  /\ exists before resp,
       steps (trace (post_utils_run [Ok invalid_reference_400; Ok created_201] 2))
       = (before ++ [Posted (Ok resp)])%list
       /\ (status_code resp =? 201)%Z = true.
Proof.
  split; [| split].
  - refine (proj1 (proj1 (proj1 (created_is_terminal world world_handler
                                   (world_at [Ok invalid_reference_400; Ok created_201])
                                   address1 2 0.5)
                            addresses_endpoint) created_201 eq_refl _)).
    vm_compute. right. right. left. reflexivity.
  - refine (proj1 (proj1 (proj2 (created_is_terminal world world_handler
                                   (world_at [Ok invalid_reference_400; Ok created_201])
                                   address1 2 10)
                            addresses_url json_headers "id" "secret" "tsg" "token.json")
                     created_201 eq_refl _)).
    vm_compute. right. right. left. reflexivity.
  - refine (proj2 (proj2 (created_is_terminal world world_handler
                            (world_at [Ok invalid_reference_400; Ok created_201])
                            address1 2 10)
                     addresses_url json_headers "id" "secret" "tsg" "token.json") _).
    vm_compute. reflexivity.
Defined.

(** X6.  [create_object] makes at most retries+1 attempts and at most one
    POST in each, in both implementations; with negative retries it makes
    no POST. *)
Theorem create_object_requests_bound :
  forall (S : Type) (h : handler S) (s : S) (item_data : object_definition)
         (retries : Z) (delay : Q),
    (forall endpoint,
        let x := run h (PanApiHandler.create_object endpoint item_data retries delay) s in
        (length (posts (trace x)) <= attempts (trace x))%nat
        /\ (attempts (trace x) <= Z.to_nat (retries + 1))%nat)
    /\ (forall url headers client_id client_secret tsg_id token_file,
        let x := run h (PostUtils.create_object url headers item_data retries delay
                          client_id client_secret tsg_id token_file) s in
        (length (posts (trace x)) <= attempts (trace x))%nat
        /\ (attempts (trace x) <= Z.to_nat (retries + 1))%nat).
Proof.
  intros S h s item_data retries delay. split.
  - intros endpoint x.
    destruct (scm_create_object_sound h endpoint item_data retries delay s)
      as (r & Hloop & _).
    fold x in Hloop. split.
    + exact (scm_loop_posts_le _ _ _ _ _ _ _ _ Hloop).
    + apply loop_iterations_le in Hloop. now rewrite length_range in Hloop.
  - intros url headers client_id client_secret tsg_id token_file x.
    pose proof (post_utils_create_object_sound h url headers item_data retries delay
                  client_id client_secret tsg_id token_file s) as Hsound.
    cbn zeta in Hsound. fold x in Hsound.
    destruct (fst (h _ (obtain_api_token client_id client_secret tsg_id token_file false) s)).
    + destruct Hsound as (l & r & _ & Hloop & _). split.
      * exact (post_utils_loop_posts_le _ _ _ _ _ _ _ Hloop).
      * apply loop_iterations_le in Hloop. now rewrite length_range in Hloop.
    + destruct Hsound as [_ Htr]. rewrite Htr. cbn. lia.
Qed.


(** X8.  [post_utils.create_object] returns one of its five tuples, all
    with the name of the item.  It raises what the first call of
    [obtain_api_token] raises, or the UnboundLocalError of its [except]
    clause, and nothing else. *)
Theorem post_utils_create_object_outcome :
  forall (S : Type) (h : handler S) (s : S) (url : string) (headers : dict)
         (item_data : object_definition) (retries : Z) (delay : Q)
         (client_id client_secret tsg_id token_file : string),
    match returned (run h (PostUtils.create_object url headers item_data retries delay
                             client_id client_secret tsg_id token_file) s)
    with
    | Ok v => post_utils_outcome (item_name item_data) v
    | Raise e =>
        e = PostUtilsSpec.unbound_error
        \/ fst (h _ (obtain_api_token client_id client_secret tsg_id token_file false) s)
           = Raise e
    end.
Proof.
  intros S h s url headers item_data retries delay client_id client_secret tsg_id token_file.
  pose proof (post_utils_create_object_sound h url headers item_data retries delay
                client_id client_secret tsg_id token_file s) as Hsound.
  cbn zeta in Hsound.
  destruct (fst (h _ (obtain_api_token client_id client_secret tsg_id token_file false) s)).
  - destruct Hsound as (l & r & _ & Hloop & ->).
    apply post_utils_loop_outcome in Hloop.
    destruct r as [[v |] | e]; cbn [after_loop]; auto.
    unfold post_utils_outcome. auto 6.
  - destruct Hsound as [-> _]. auto.
Qed.

(** X9.  When the first call of [obtain_api_token] raises,
    [post_utils.create_object] raises the same exception and has done
    nothing else: the lock is not taken and no request is made. *)
Theorem post_utils_token_failure_propagates :
  forall (S : Type) (h : handler S) (s : S) (url : string) (headers : dict)
         (item_data : object_definition) (retries : Z) (delay : Q)
         (client_id client_secret tsg_id token_file : string) (e : exn),
    let x := run h (PostUtils.create_object url headers item_data retries delay
                      client_id client_secret tsg_id token_file) s in
    fst (h _ (obtain_api_token client_id client_secret tsg_id token_file false) s)
    = Raise e ->
    returned x = Raise e
    /\ trace x = [Event (obtain_api_token client_id client_secret tsg_id token_file false)
                    (Raise e)].
Proof.
  intros S h s url headers item_data retries delay client_id client_secret tsg_id token_file
         e x Hraise.
  pose proof (post_utils_create_object_sound h url headers item_data retries delay
                client_id client_secret tsg_id token_file s) as Hsound.
  cbn zeta in Hsound. fold x in Hsound. rewrite Hraise in Hsound. exact Hsound.
Qed.

Lemma post_utils_token_failure_propagates_witness :
  returned (run world_handler
              (PostUtils.create_object addresses_url json_headers address1 2 10
                 "id" "secret" "tsg" "token.json")
              (World None 1000 [Ok created_201] [] [Raise auth_error] []))
  = Raise auth_error.
Proof.
  refine (proj1 (post_utils_token_failure_propagates world world_handler
                   (World None 1000 [Ok created_201] [] [Raise auth_error] [])
                   addresses_url json_headers address1 2 10
                   "id" "secret" "tsg" "token.json" auth_error _)).
  reflexivity.
Defined.

Lemma is_unparsed_ok (r : response) :
  is_unparsed (Ok r) = true ->
  (status_code r =? 201)%Z = false
  /\ exists e, response_json r = Raise e /\ unparsed_error (Ok r) = Some e.
Proof.
  unfold is_unparsed, unparsed_error.
  destruct (status_code r =? 201)%Z; [discriminate |].
  destruct (response_json r) as [body | e]; [discriminate |]. eauto.
Qed.

Ltac unparsed_facts :=
  repeat match goal with
         | H : (is_unparsed _ && _)%bool = true |- _ => apply andb_prop in H as [? ?]
         | H : is_unparsed (Ok _) = true |- _ => apply is_unparsed_ok in H as (? & ? & ? & ?)
         | H : is_unparsed (Raise _) = true |- _ => discriminate H
         end.

Section Unparsed.
Variables (name : string) (retries : Z) (delay : Q).
Let iteration := PanApiHandlerSpec.iteration name retries delay.

Ltac iteration_cases H :=
  inv H; match goal with H' : PanApiHandlerSpec.try_block _ _ _ _ |- _ => inv H' end.
Ltac on_iteration :=
  match goal with H : iteration _ _ _ _ _ |- _ => iteration_cases H end.

(** Every iteration makes its request and the body of the answer does not
    parse. *)
Lemma scm_loop_unparsed m : forall k l r st n,
  sleep_exception delay = None ->
  Z.of_nat (k + m) = (retries + 1)%Z ->
  loop iteration (map Z.of_nat (seq k m)) l r st n ->
  (n <= length (flat_map post_of st))%nat ->
  forallb is_unparsed (flat_map post_of st) = true ->
  st = retry_steps delay (flat_map post_of st)
  /\ length (flat_map post_of st) = m
  /\ match m with
     | O => r = Ok None
     | _ => exists before answer e,
              flat_map post_of st = (before ++ [answer])%list
              /\ unparsed_error answer = Some e
              /\ r = Ok (Some (Failed name ("Exception: " ++ exn_text e)))
     end.
Proof.
  induction m as [| m IH]; intros k l r st n Hdelay Hk Hloop Hn Hall.
  - inv Hloop. auto.
  - cbn [seq map] in Hloop. inv Hloop.
    + on_iteration; cbn [flat_map post_of app forallb length] in *;
        try discriminate; try lia; unparsed_facts; try congruence.
      match goal with H : (_ <? _)%Z = false |- _ => apply Z.ltb_ge in H end.
      assert (m = 0)%nat as -> by lia.
      split; [reflexivity | split; [reflexivity |]].
      match goal with
      | H1 : response_json ?r = Raise ?e1, H2 : unparsed_error (Ok ?r) = Some ?e2 |- _ =>
          assert (e2 = e1) as -> by (unfold unparsed_error in H2;
                                     destruct (status_code r =? 201)%Z; [discriminate |];
                                     rewrite H1 in H2; congruence);
          exists [], (Ok r), e1; auto
      end.
    + on_iteration; congruence.
    + rewrite flat_map_app, length_app in Hn. rewrite flat_map_app, forallb_app in Hall.
      apply andb_prop in Hall as [Hall1 Hall2].
      match goal with
      | Hit : iteration _ _ _ _ _, Hrest : loop _ _ _ _ _ _ |- _ =>
          pose proof (scm_iteration_posts_le _ _ _ _ _ _ _ _ Hit) as Hle1;
          pose proof (scm_loop_posts_le _ _ _ _ _ _ _ _ Hrest) as Hle2;
          assert (Z.of_nat (Datatypes.S k + m) = (retries + 1)%Z) as Hk' by lia;
          destruct (IH _ _ _ _ _ Hdelay Hk' Hrest ltac:(lia) Hall2)
            as (Hst' & Hlen & Hr)
      end.
      assert (m <= length (flat_map post_of st') <= m)%nat as Hlen' by lia. clear Hlen.
      on_iteration; cbn [flat_map post_of app forallb length] in *;
        try discriminate; try lia; unparsed_facts; try congruence.
      match goal with H : (_ <? _)%Z = true |- _ => apply Z.ltb_lt in H end.
      destruct m as [| m]; [lia |].
      destruct Hr as (before & answer & e' & Hposts & Herr & ->).
      rewrite Hposts in *. split; [| split].
      * rewrite Hst' at 1. destruct before; reflexivity.
      * cbn. lia.
      * exists (Ok r0 :: before), answer, e'. auto.
Qed.

End Unparsed.


(** ** The discipline of the refresh lock *)

Lemma disciplined_trace {S R : Type} (h : handler S) (held : bool) (p : prog R) :
  disciplined held p ->
  forall s, lock_discipline held (trace (run h p s)) = true.
Proof.
  induction 1 as [r | X c k Hc Hk IH | k Hk IH | X c k Hc Hk IH | k Hk IH]; intros s;
    cbn [run].
  - reflexivity.
  - destruct (h X c s) as [x s1]. specialize (IH x s1).
    destruct (run h (k x) s1) as [[r s2] tr]. unfold trace in *. cbn [snd] in *.
    cbn [lock_discipline]. rewrite Hc, IH.
    destruct c; try discriminate Hc; reflexivity.
  - destruct (h unit lock_acquire s) as [[] s1]. specialize (IH s1).
    destruct (run h (k tt) s1) as [[r s2] tr]. unfold trace in *. cbn [snd] in *.
    exact IH.
  - destruct (h X c s) as [x s1]. specialize (IH x s1).
    destruct (run h (k x) s1) as [[r s2] tr]. unfold trace in *. cbn [snd] in *.
    cbn [lock_discipline]. rewrite Hc, IH.
    destruct c; try discriminate Hc; reflexivity.
  - destruct (h unit lock_release s) as [[] s1]. specialize (IH s1).
    destruct (run h (k tt) s1) as [[r s2] tr]. unfold trace in *. cbn [snd] in *.
    exact IH.
Qed.

Lemma disciplined_bind_prog {A B : Type} (held : bool) (p : prog A) (f : A -> prog B) :
  disciplined held p -> (forall a, disciplined false (f a)) ->
  disciplined held (bind_prog p f).
Proof.
  intros Hp Hf.
  induction Hp as [r | X c k Hc Hk IH | k Hk IH | X c k Hc Hk IH | k Hk IH];
    cbn [bind_prog]; try (constructor; now auto).
  apply Hf.
Qed.

Lemma disciplined_bind {L A B : Type} (m : M L A) (f : A -> M L B) (l : L) :
  disciplined false (m l) -> (forall a l1, disciplined false (f a l1)) ->
  disciplined false (bind m f l).
Proof.
  intros Hm Hf. unfold bind. apply disciplined_bind_prog; [exact Hm |].
  intros [[a | e] l1]; [apply Hf | constructor].
Qed.

Ltac discipline_step :=
  first
    [ apply disciplined_ret
    | apply disciplined_acquire
    | apply disciplined_release
    | apply disciplined_guarded;
      [ reflexivity | let x := fresh "x" in intros x; try destruct x; norm ]
    | apply disciplined_open;
      [ reflexivity | let x := fresh "x" in intros x; try destruct x; norm ]
    | match goal with
      | |- context [if ?b then _ else _] => destruct b eqn:?; norm
      | |- context [match ?r with Ok _ => _ | Raise _ => _ end] => destruct r eqn:?; norm
      | |- context [match ?r with Some _ => _ | None => _ end] => destruct r eqn:?; norm
      | |- context [match ?j with JObj _ => _ | _ => _ end] => destruct j; norm
      end ].

Lemma post_utils_attempt_disciplined url item delay client_id client_secret tsg_id
    token_file a l :
  disciplined false (PostUtils.create_object_attempt url item delay
                       client_id client_secret tsg_id token_file a l).
Proof.
  destruct l as [tok hdrs er].
  unfold PostUtils.create_object_attempt, PostUtils.token_is_expired,
    PostUtils.read_error_response, time_sleep, subscript, number.
  norm. repeat discipline_step.
Qed.

Lemma for_in_disciplined {L : Type} (body : Z -> M L (option outcome)) (xs : list Z) :
  (forall a l, disciplined false (body a l)) ->
  forall l, disciplined false (for_in xs body l).
Proof.
  intros Hbody. induction xs as [| a xs IH]; intros l.
  - constructor.
  - cbn [for_in]. apply disciplined_bind; [apply Hbody |].
    intros [v |] l1; [constructor | apply IH].
Qed.

(** X11.  In every run of [post_utils.create_object] the refresh lock is
    released after each acquisition, also when reading the token file or
    the refresh raises, and it is not held at the end.  While it is held
    the function only tests the token file and refreshes the token;
    [requests.post] and [time.sleep] are never called while it is held,
    and [obtain_api_token] with [force_refresh=True] only while it is. *)
Theorem lock_is_released :
  forall (S : Type) (h : handler S) (s : S) (url : string) (headers : dict)
         (item_data : object_definition) (retries : Z) (delay : Q)
         (client_id client_secret tsg_id token_file : string),
    lock_discipline false
      (trace (run h (PostUtils.create_object url headers item_data retries delay
                       client_id client_secret tsg_id token_file) s))
    = true.
Proof.
  intros S h s url headers item_data retries delay client_id client_secret tsg_id token_file.
  apply disciplined_trace.
  unfold PostUtils.create_object, call_with.
  apply disciplined_bind_prog; [| intros; constructor].
  apply disciplined_bind.
  - cbn. apply disciplined_open; [reflexivity |]. intros x. constructor.
  - intros tok l1. apply disciplined_bind; [constructor |]. intros _ l2.
    apply disciplined_bind; [constructor |]. intros _ l3.
    apply disciplined_bind.
    + apply for_in_disciplined. intros a l. apply post_utils_attempt_disciplined.
    + intros [v |] l4; constructor.
Qed.

(** ** The token file, again *)

(** X13.  When the token file holds an object without "expires_at",
    [token_is_expired] raises KeyError('expires_at'). *)
Theorem token_is_expired_missing_key :
  forall (S L : Type) (h : handler S) (s s1 s2 : S) (l : L)
         (access_token token_file : string) (token_data : dict),
    h _ (os_path_exists token_file) s = (true, s1) ->
    h _ (json_load token_file) s1 = (Ok (JObj token_data), s2) ->
    dict_get token_data "expires_at" = None ->
    returned (run h (PostUtils.token_is_expired access_token token_file l) s)
    = (Raise (Exn "KeyError" "'expires_at'"), l).
Proof.
  intros S L h s s1 s2 l access_token token_file token_data Hexists Hload Hkey.
  unfold PostUtils.token_is_expired, subscript. norm.
  rewrite Hexists. norm. rewrite Hload. norm.
  destruct (h Q time_time s2) as [now s3]. norm. rewrite Hkey. reflexivity.
Qed.

Lemma token_is_expired_missing_key_witness :
  returned (run world_handler (PostUtils.token_is_expired "tok-0" "token.json" tt)
              (World (Some (JObj [("access_token", JStr "tok-0")])) 1000 [] [] [] []))
  = (Raise (Exn "KeyError" "'expires_at'"), tt).
Proof.
  apply (token_is_expired_missing_key world unit world_handler
           (World (Some (JObj [("access_token", JStr "tok-0")])) 1000 [] [] [] [])
           (World (Some (JObj [("access_token", JStr "tok-0")])) 1000 [] [] [] [])
           (World (Some (JObj [("access_token", JStr "tok-0")])) 1000 [] [] [] [])
           tt "tok-0" "token.json" [("access_token", JStr "tok-0")]);
    reflexivity.
Defined.

(** ** [refresh_token_if_needed] *)

(** X14.  [refresh_token_if_needed] calls [obtain_api_token] at most once.
    The token it returns is the one this call gave, or the token it was
    given when it made no such call, and the header it returns is 'Bearer '
    followed by the token it returns. *)
Theorem refresh_token_if_needed_result :
  forall (S : Type) (h : handler S) (s : S)
         (access_token client_id client_secret tsg_id token_file : string),
    let x := run h (PostUtils.refresh_token_if_needed access_token client_id client_secret
                      tsg_id token_file) s in
    (refreshes (trace x) <= 1)%nat
    /\ forall token auth_header,
         returned x = Ok (token, auth_header) ->
         auth_header = "Bearer " ++ token
         /\ fold_left token_after (trace x) (Some access_token) = Some token.
Proof.
  intros S h s access_token client_id client_secret tsg_id token_file.
  unfold PostUtils.refresh_token_if_needed, PostUtils.token_is_expired, call_with,
    subscript, number.
  norm. repeat (answer h || branch || branch_json).
  all: unfold returned, trace, refreshes; norm; split; [lia |].
  all: intros token auth_header Hret; inv Hret; auto.
Qed.

Lemma refresh_token_if_needed_result_witness :
  fold_left token_after
    (trace (run world_handler
              (PostUtils.refresh_token_if_needed "tok-0" "id" "secret" "tsg" "token.json")
              (expiring_world [] [Ok ("tok-1", credential "tok-1" 5000)])))
    (Some "tok-0")
  = Some "tok-1".
Proof.
  refine (proj2 (proj2 (refresh_token_if_needed_result world world_handler
                          (expiring_world [] [Ok ("tok-1", credential "tok-1" 5000)])
                          "tok-0" "id" "secret" "tsg" "token.json")
                   "tok-1" "Bearer tok-1" _)).
  vm_compute. reflexivity.
Defined.

(** X15.  When the token file holds an expiry more than 180 seconds away,
    [refresh_token_if_needed] returns the token it was given, with its
    header, and does not call [obtain_api_token].  It reads the token file
    twice: once itself and once in [token_is_expired]. *)
Theorem refresh_token_if_needed_keeps_a_valid_token :
  forall (S : Type) (h : handler S) (s s1 s2 s3 s4 s5 : S)
         (access_token client_id client_secret tsg_id token_file : string)
         (first_read : json) (token_data : dict) (expires_at now : Q) (text : string),
    h _ (os_path_exists token_file) s = (true, s1) ->
    h _ (json_load token_file) s1 = (Ok first_read, s2) ->
    h _ (os_path_exists token_file) s2 = (true, s3) ->
    h _ (json_load token_file) s3 = (Ok (JObj token_data), s4) ->
    h _ time_time s4 = (now, s5) ->
    dict_get token_data "expires_at" = Some (JNum expires_at text) ->
    now <= expires_at - 180 ->
    let x := run h (PostUtils.refresh_token_if_needed access_token client_id client_secret
                      tsg_id token_file) s in
    returned x = Ok (access_token, "Bearer " ++ access_token)
    /\ refreshes (trace x) = 0%nat.
Proof.
  intros S h s s1 s2 s3 s4 s5 access_token client_id client_secret tsg_id token_file
         first_read token_data expires_at now text
         Hexists1 Hload1 Hexists2 Hload2 Htime Hkey Hnow.
  unfold PostUtils.refresh_token_if_needed, PostUtils.token_is_expired, call_with,
    subscript, number.
  norm. rewrite Hexists1. norm. rewrite Hload1. norm. rewrite Hexists2. norm.
  rewrite Hload2. norm. rewrite Htime. norm. rewrite Hkey. norm.
  rewrite (py_gt_false _ _ Hnow). norm. split; reflexivity.
Qed.

Lemma refresh_token_if_needed_keeps_a_valid_token_witness :
  returned (run world_handler
              (PostUtils.refresh_token_if_needed "tok-0" "id" "secret" "tsg" "token.json")
              (world_time 1500))
  = Ok ("tok-0", "Bearer tok-0").
Proof.
  refine (proj1 (refresh_token_if_needed_keeps_a_valid_token world world_handler
                   (world_time 1500) (world_time 1500) (world_time 1500)
                   (world_time 1500) (world_time 1500) (world_time 1500)
                   "tok-0" "id" "secret" "tsg" "token.json"
                   (credential "tok-0" 2000)
                   [("access_token", JStr "tok-0"); ("expires_at", JNum 2000 "2000")]
                   2000 1500 "2000" eq_refl eq_refl eq_refl eq_refl eq_refl eq_refl _)).
  vm_compute. discriminate.
Defined.

(** X16.  When the token file exists and cannot be read,
    [refresh_token_if_needed] raises the exception of the reading; it
    does not refresh the token. *)
Theorem refresh_token_if_needed_unreadable_file :
  forall (S : Type) (h : handler S) (s s1 : S)
         (access_token client_id client_secret tsg_id token_file : string) (e : exn),
    h _ (os_path_exists token_file) s = (true, s1) ->
    fst (h _ (json_load token_file) s1) = Raise e ->
    let x := run h (PostUtils.refresh_token_if_needed access_token client_id client_secret
                      tsg_id token_file) s in
    returned x = Raise e /\ refreshes (trace x) = 0%nat.
Proof.
  intros S h s s1 access_token client_id client_secret tsg_id token_file e Hexists Hload.
  unfold PostUtils.refresh_token_if_needed, call_with.
  norm. rewrite Hexists. norm.
  destruct (h _ (json_load token_file) s1) as [answer s2]. cbn [fst] in Hload. subst answer.
  norm. split; reflexivity.
Qed.

(** ** [create_objects] *)

(** X17.  With [max_workers] zero or negative, [create_objects] raises the
    ValueError of the executor and submits nothing:
    [PanApiHandler.create_objects] before it has printed anything,
    [post_utils.create_objects] after it has obtained the token. *)
Theorem create_objects_needs_a_worker :
  forall (S : Type) (h : handler S) (s : S) (worker_state : nat -> S)
         (completed : list nat) (scope : string) (start_index : Z)
         (object_type : string) (data : list object_definition) (max_workers : Z)
         (extra_query_params : string),
    (max_workers <= 0)%Z ->
    PanApiHandler.create_objects h s worker_state completed scope start_index
      object_type data max_workers extra_query_params
    = (Raise (Exn "ValueError" "max_workers must be greater than 0"), s, [])
    /\ forall client_id client_secret tsg_id token_file tok s1,
         h _ (obtain_api_token client_id client_secret tsg_id token_file false) s
         = (Ok tok, s1) ->
         PostUtils.create_objects h s worker_state completed scope start_index
           object_type data client_id client_secret tsg_id token_file max_workers
           extra_query_params
         = (Raise (Exn "ValueError" "max_workers must be greater than 0"), s1,
            [Event (obtain_api_token client_id client_secret tsg_id token_file false)
               (Ok tok)]).
Proof.
  intros S h s worker_state completed scope start_index object_type data max_workers
         extra_query_params Hworkers.
  assert ((max_workers <=? 0)%Z = true) as Hle by lia.
  split.
  - unfold PanApiHandler.create_objects, check_max_workers. rewrite Hle. reflexivity.
  - intros client_id client_secret tsg_id token_file tok s1 Htok.
    unfold PostUtils.create_objects, check_max_workers. rewrite Hle.
    cbn [call_with bind attempt_call raise bind_prog run]. rewrite Htok. reflexivity.
Qed.

Lemma create_objects_needs_a_worker_witness :
  PanApiHandler.create_objects world_handler (world_at []) one_timeout [1; 0]%nat
    "Shared" 0 "addresses?" [address1; address2] 0 ""
  = (Raise (Exn "ValueError" "max_workers must be greater than 0"), world_at [], []).
Proof.
  refine (proj1 (create_objects_needs_a_worker world world_handler (world_at []) one_timeout
                   [1; 0]%nat "Shared" 0 "addresses?" [address1; address2] 0 "" _)).
  lia.
Defined.

(** X18.  When every call of [create_object] that [post_utils.create_objects]
    submits returns, [post_utils.create_objects] returns the outcomes of
    all of them, in the order in which the calls complete.  The calls are
    for the elements of [data[start_index:]], with retries=2 and delay=10,
    to the URL of the object type and with the headers of the token
    obtained first. *)
Theorem post_utils_create_objects_complete_when_workers_return :
  forall (S : Type) (h : handler S) (s s1 : S) (worker_state : nat -> S)
         (completed : list nat) (scope : string) (start_index : Z)
         (object_type : string) (data : list object_definition)
         (client_id client_secret tsg_id token_file : string) (max_workers : Z)
         (extra_query_params : string) (tok : string) (outcomes : list outcome),
    (0 < max_workers)%Z ->
    Permutation completed (seq 0 (length (slice_from start_index data))) ->
    h _ (obtain_api_token client_id client_secret tsg_id token_file false) s = (Ok tok, s1) ->
    submit_all h worker_state
      (post_utils_worker scope object_type extra_query_params tok
         client_id client_secret tsg_id token_file)
      (slice_from start_index data)
    = map Ok outcomes ->
    returned (PostUtils.create_objects h s worker_state completed scope start_index
                object_type data client_id client_secret tsg_id token_file max_workers
                extra_query_params)
    = Ok (as_completed outcomes completed)
    /\ Permutation (as_completed outcomes completed) outcomes.
Proof.
  intros S h s s1 worker_state completed scope start_index object_type data
         client_id client_secret tsg_id token_file max_workers extra_query_params
         tok outcomes Hworkers Hcompleted Htok Hfutures.
  assert (length outcomes = length (slice_from start_index data)) as Hlen.
  { rewrite <- (length_map Ok outcomes), <- Hfutures. apply length_submit_all. }
  assert ((max_workers <=? 0)%Z = false) as Hle by lia.
  assert (forall futures : list outcome,
             as_completed (map Ok futures) completed
             = map (@Ok outcome) (as_completed futures completed)) as Hmap.
  { intros futures. unfold as_completed. rewrite !flat_map_concat_map, concat_map, map_map.
    f_equal. apply map_ext. intros i. rewrite nth_error_map.
    destruct (nth_error futures i); reflexivity. }
  split.
  - unfold PostUtils.create_objects, check_max_workers. rewrite Hle.
    cbn [call_with bind attempt_call ret bind_prog run]. rewrite Htok.
    unfold post_utils_worker in Hfutures. cbn [dict_set String.eqb Ascii.eqb Bool.eqb].
    rewrite !run_bind_prog.
    match goal with
    | |- context [submit_all h worker_state ?f ?items] =>
        change (submit_all h worker_state f items) with (map Ok outcomes)
          || rewrite Hfutures
    end.
    rewrite Hmap, run_bind.
    pose proof (run_collect h (as_completed outcomes completed) [] s1) as Hcollect.
    unfold returned in *.
    destruct (run h (collect (map Ok (as_completed outcomes completed)) []) s1)
      as [[rl s3] t3].
    cbn [fst] in Hcollect. subst rl. cbn [get_local run fst app]. reflexivity.
  - apply as_completed_permutation. now rewrite Hlen.
Qed.

(** X19.  Without a token file, [refresh_token_if_needed] refreshes: it
    returns the token that [obtain_api_token] gives with
    [force_refresh=True], with its header, or raises what that call
    raises. *)
Theorem refresh_token_if_needed_without_file :
  forall (S : Type) (h : handler S) (s s1 s2 : S)
         (access_token client_id client_secret tsg_id token_file : string),
    h _ (os_path_exists token_file) s = (false, s1) ->
    h _ (os_path_exists token_file) s1 = (false, s2) ->
    returned (run h (PostUtils.refresh_token_if_needed access_token client_id client_secret
                       tsg_id token_file) s)
    = match fst (h _ (obtain_api_token client_id client_secret tsg_id token_file true) s2)
      with
      | Ok token => Ok (token, "Bearer " ++ token)
      | Raise e => Raise e
      end.
Proof.
  intros S h s s1 s2 access_token client_id client_secret tsg_id token_file Hfirst Hsecond.
  unfold PostUtils.refresh_token_if_needed, PostUtils.token_is_expired, call_with.
  norm. rewrite Hfirst. norm. rewrite Hsecond. norm.
  destruct (h _ (obtain_api_token client_id client_secret tsg_id token_file true) s2)
    as [[token | e] s3]; reflexivity.
Qed.

(** ** The theorems at work on the examples, again *)

Lemma refresh_token_if_needed_without_file_witness :
  returned (run world_handler
              (PostUtils.refresh_token_if_needed "tok-0" "id" "secret" "tsg" "token.json")
              (World None 1000 [] [] [Ok ("tok-1", credential "tok-1" 5000)] []))
  = Ok ("tok-1", "Bearer tok-1").
Proof.
  apply (refresh_token_if_needed_without_file world world_handler
           (World None 1000 [] [] [Ok ("tok-1", credential "tok-1" 5000)] [])
           (World None 1000 [] [] [Ok ("tok-1", credential "tok-1" 5000)] [])
           (World None 1000 [] [] [Ok ("tok-1", credential "tok-1" 5000)] [])
           "tok-0" "id" "secret" "tsg" "token.json"); reflexivity.
Defined.

Lemma refresh_token_if_needed_unreadable_file_witness :
  returned (run unreadable_token_file
              (PostUtils.refresh_token_if_needed "tok-0" "id" "secret" "tsg" "token.json")
              (world_time 1900))
  = Raise json_error.
Proof.
  refine (proj1 (refresh_token_if_needed_unreadable_file world unreadable_token_file
                   (world_time 1900) (world_time 1900)
                   "tok-0" "id" "secret" "tsg" "token.json" json_error _ _));
    reflexivity.
Defined.


Lemma post_utils_create_objects_complete_when_workers_return_witness :
  returned (PostUtils.create_objects world_handler (world_at [])
              (fun _ => world_at [Ok created_201]) [1; 0]%nat
              "Shared" 0 "addresses?" [address1; address2]
              "id" "secret" "tsg" "token.json" 4 "")
  = Ok [Created "web-2"; Created "web-1"].
Proof.
  refine (proj1 (post_utils_create_objects_complete_when_workers_return
                   world world_handler (world_at []) (world_at [])
                   (fun _ => world_at [Ok created_201]) [1; 0]%nat
                   "Shared" 0 "addresses?" [address1; address2]
                   "id" "secret" "tsg" "token.json" 4 "" "tok-0"
                   [Created "web-1"; Created "web-2"] _ _ _ _)).
  - lia.
  - vm_compute. apply perm_swap.
  - reflexivity.
  - vm_compute. reflexivity.
Defined.


Lemma scm_other_failure_is_terminal_witness :
  returned (scm_run [Ok server_error_500; Ok created_201] 2)
  = Ok (Failed "web-1" "Error: Object creation failed").
Proof.
  refine (proj1 (scm_other_failure_is_terminal world_handler
                   (world_at [Ok server_error_500; Ok created_201])
                   addresses_endpoint address1 2 0.5 server_error_500 _ _)).
  - vm_compute. reflexivity.
  - vm_compute. left. reflexivity.
Defined.

Lemma post_utils_exception_before_400_raises_witness :
  returned (post_utils_run [Ok server_error_500; Raise timeout_error] 2)
  = Raise PostUtilsSpec.unbound_error.
Proof.
  refine (post_utils_exception_before_400_raises world_handler
            (world_at [Ok server_error_500; Raise timeout_error])
            addresses_url json_headers address1 2 10 "id" "secret" "tsg" "token.json"
            timeout_error _ _).
  - vm_compute. auto 20.
  - vm_compute. reflexivity.
Defined.

Lemma token_is_expired_without_file_witness :
  returned (run world_handler (PostUtils.token_is_expired "tok-0" "token.json" tt)
              world_without_session)
  = (Ok true, tt).
Proof.
  apply (token_is_expired_without_file world_handler world_without_session
           world_without_session tt "tok-0" "token.json").
  reflexivity.
Defined.

Lemma trace_collect {S : Type} (h : handler S) (outcomes : list outcome) :
  forall (results : list outcome) (s : S),
    trace (run h (collect (map Ok outcomes) results) s) = reported outcomes.
Proof.
  induction outcomes as [| o outcomes IH]; intros results s.
  - reflexivity.
  - unfold trace in *. cbn [map collect bind of_result set_local perform bind_prog run].
    destruct (h unit (print (str_tuple o)) s) as [[] s1].
    destruct (h unit (logging "INFO" (str_tuple o)) s1) as [[] s2].
    specialize (IH (results ++ [o])%list s2).
    destruct (run h (collect (map Ok outcomes) (results ++ [o])%list) s2) as [[rl s3] t3].
    cbn [snd] in *. rewrite IH. reflexivity.
Qed.

(** X20.  [PanApiHandler.create_objects] prints and logs the number of
    workers, and then every outcome it returns, in the order of the list
    it returns; it makes no other call itself. *)
Theorem scm_create_objects_reports_every_outcome :
  forall (S : Type) (h : handler S) (s : S) (worker_state : nat -> S)
         (completed : list nat) (scope : string) (start_index : Z)
         (object_type : string) (data : list object_definition) (max_workers : Z)
         (extra_query_params : string),
    (0 < max_workers)%Z ->
    let x := PanApiHandler.create_objects h s worker_state completed scope start_index
               object_type data max_workers extra_query_params in
    exists results : list outcome,
      returned x = Ok results
      /\ trace x
         = (Event (print ("Running with " ++ str_int max_workers ++ " workers.")) tt
            :: Event (logging "INFO" ("Running with " ++ str_int max_workers ++ " workers."))
                 tt
            :: reported results)%list.
Proof.
  intros S h s worker_state completed scope start_index object_type data max_workers
         extra_query_params Hworkers.
  unfold PanApiHandler.create_objects.
  set (endpoint := object_type ++ extra_query_params ++ "&type=container&folder=" ++ scope).
  set (futures := submit_all h worker_state _ (slice_from start_index data)).
  destruct (scm_submit_all_return h worker_state endpoint (slice_from start_index data))
    as [outcomes Houtcomes].
  fold futures in Houtcomes.
  assert (exists results, as_completed futures completed = map Ok results)
    as [results Hres].
  { rewrite Houtcomes. unfold as_completed.
    exists (flat_map (fun i => match nth_error outcomes i with
                               | Some o => [o]
                               | None => []
                               end) completed).
    rewrite !flat_map_concat_map, concat_map, map_map.
    f_equal. apply map_ext. intros i. rewrite nth_error_map.
    destruct (nth_error outcomes i); reflexivity. }
  assert ((max_workers <=? 0)%Z = false) as Hle by lia.
  exists results.
  unfold check_max_workers. rewrite Hle.
  cbn [call_with bind ret perform bind_prog run].
  match goal with |- context [h ?X ?c ?s] => destruct (h X c s) as [[] s1] end.
  match goal with |- context [h ?X ?c ?s] => destruct (h X c s) as [[] s2] end.
  rewrite !run_bind_prog, Hres, run_bind.
  pose proof (run_collect h results [] s2) as Hcollect.
  pose proof (trace_collect h results [] s2) as Htrace.
  unfold returned, trace in *.
  destruct (run h (collect (map Ok results) []) s2) as [[rl s3] t3].
  cbn [fst snd] in Hcollect, Htrace. subst rl t3.
  cbn [get_local run fst snd app]. rewrite !app_nil_r. split; reflexivity.
Qed.

Lemma scm_create_objects_reports_every_outcome_witness :
  exists results : list outcome,
    returned (PanApiHandler.create_objects world_handler (world_at []) one_timeout
                [1; 0]%nat "Shared" 0 "/sse/config/v1/addresses?" [address1; address2] 4 "")
    = Ok results
    /\ trace (PanApiHandler.create_objects world_handler (world_at []) one_timeout
                [1; 0]%nat "Shared" 0 "/sse/config/v1/addresses?" [address1; address2] 4 "")
       = (Event (print ("Running with " ++ str_int 4 ++ " workers.")) tt
          :: Event (logging "INFO" ("Running with " ++ str_int 4 ++ " workers.")) tt
          :: reported results)%list.
Proof.
  apply (scm_create_objects_reports_every_outcome world world_handler (world_at [])
           one_timeout [1; 0]%nat "Shared" 0 "/sse/config/v1/addresses?"
           [address1; address2] 4 "").
  lia.
Defined.

(** ** [get_object] and [move_security_rule] *)

Lemma exec_and_then {S A B : Type} (h : Extended.environment S)
    (p : Extended.program A) (f : A -> Extended.program B) (s : S) :
  Extended.exec h (Extended.and_then p f) s =
  let '(a, s1, t1) := Extended.exec h p s in
  let '(b, s2, t2) := Extended.exec h (f a) s1 in
  (b, s2, (t1 ++ t2)%list).
Proof.
  revert s. induction p as [a | X c k IH]; intros s;
    cbn [Extended.and_then Extended.exec].
  - destruct (Extended.exec h (f a) s) as [[b s2] t2]. reflexivity.
  - destruct (h X c s) as [x s1]. rewrite IH.
    destruct (Extended.exec h (k x) s1) as [[a s2] t1].
    destruct (Extended.exec h (f a) s2) as [[b s3] t2]. reflexivity.
Qed.

Lemma count_app (f : Extended.entry -> bool) (t1 t2 : list Extended.entry) :
  Extended.count f (t1 ++ t2) = (Extended.count f t1 + Extended.count f t2)%nat.
Proof. unfold Extended.count. now rewrite filter_app, length_app. Qed.

Lemma gets_app (t1 t2 : list Extended.entry) :
  Extended.gets (t1 ++ t2) = (Extended.gets t1 ++ Extended.gets t2)%list.
Proof. apply flat_map_app. Qed.

Ltac reply h :=
  match goal with
  | |- context [h ?X ?c ?s] =>
      let x := fresh "x" in
      let s' := fresh "s" in
      destruct (h X c s) as [x s'] eqn:?; norm
  end.

Ltac data_facts :=
  unfold Extended.has_data, Extended.data_of; cbn [existsb orb length];
  repeat match goal with
         | H : (status_code _ =? 200)%Z = _ |- _ => rewrite H
         | H : response_json _ = _ |- _ => rewrite H
         | H : dict_get _ _ = _ |- _ => rewrite H
         end;
  first [reflexivity | assumption | lia].

Lemma get_object_attempt_sound {S : Type} (h : Extended.environment S)
    url retries delay attempt s :
  let x := Extended.exec h (Extended.get_object_attempt url retries delay attempt) s in
  get_attempt retries delay attempt (Extended.value x)
    (Extended.gets (Extended.log x)) (Extended.count Extended.is_sleep (Extended.log x))
  /\ Extended.count Extended.is_token_check (Extended.log x) = 1%nat.
Proof.
  unfold Extended.get_object_attempt, Extended.ensure_valid_token,
    Extended.sleep_if_attempts_remain, Extended.time_sleep, Extended.subscript.
  norm.
  repeat (reply h || branch || branch_json).
  all: unfold Extended.value, Extended.log; norm; split; [| reflexivity].
  all: first [ apply get_data | apply get_failed | apply get_failed_sleep
             | apply get_sleep_raises ]; data_facts.
Qed.

Lemma exec_bind {S A B : Type} (h : Extended.environment S)
    (m : Extended.body A) (f : A -> Extended.body B) (s : S) :
  Extended.exec h (Extended.bind m f) s =
  let '(r, s1, t1) := Extended.exec h m s in
  match r with
  | Ok a => let '(b, s2, t2) := Extended.exec h (f a) s1 in (b, s2, (t1 ++ t2)%list)
  | Raise e => (Raise e, s1, t1)
  end.
Proof.
  unfold Extended.bind. rewrite exec_and_then.
  destruct (Extended.exec h m s) as [[[a | e] s1] t1]; cbn.
  - reflexivity.
  - now rewrite app_nil_r.
Qed.

Lemma with_attempts_left_range (retries : Z) :
  length (with_attempts_left retries (range (retries + 1))) = Z.to_nat retries.
Proof.
  unfold with_attempts_left, range.
  destruct (Z.ltb_spec retries 0) as [Hneg | Hpos].
  - replace (Z.to_nat (retries + 1)) with 0%nat by lia.
    cbn. lia.
  - replace (Z.to_nat (retries + 1)) with (Datatypes.S (Z.to_nat retries)) by lia.
    rewrite seq_S, map_app, filter_app, length_app. cbn [Nat.add map filter].
    replace (Z.of_nat (Z.to_nat retries) <? retries)%Z with false
      by (symmetry; apply Z.ltb_ge; lia).
    cbn [length]. rewrite Nat.add_0_r.
    assert (forall m k, (Z.of_nat (k + m) <= retries)%Z ->
              length (filter (fun attempt => (attempt <? retries)%Z)
                        (map Z.of_nat (seq k m))) = m) as Hall.
    { induction m as [| m IH]; intros k Hk; [reflexivity |].
      cbn [seq map filter].
      replace (Z.of_nat k <? retries)%Z with true by (symmetry; apply Z.ltb_lt; lia).
      cbn [length]. f_equal. apply IH. lia. }
    apply Hall. lia.
Qed.

Section GetObject.
Context {S : Type} (h : Extended.environment S).
Variables (url : string) (retries : Z) (delay : Q).

Lemma get_object_loop (xs : list Z) : forall s,
  let x := Extended.exec h
             (Extended.for_in xs (Extended.get_object_attempt url retries delay)) s in
  let answers := Extended.gets (Extended.log x) in
  let checks := Extended.count Extended.is_token_check (Extended.log x) in
  let naps := Extended.count Extended.is_sleep (Extended.log x) in
  (checks <= length xs)%nat
  /\ (length answers <= checks)%nat
  /\ (naps <= length (with_attempts_left retries xs))%nat
  /\ match Extended.value x with
     | Ok (Some data) =>
         exists before answer,
           answers = (before ++ [answer])%list
           /\ Extended.data_of answer = Some data
           /\ existsb Extended.has_data before = false
     | Ok None =>
         existsb Extended.has_data answers = false
         /\ checks = length xs
         /\ naps = length (with_attempts_left retries xs)
     | Raise e =>
         sleep_exception delay = Some e
         /\ with_attempts_left retries xs <> []
         /\ existsb Extended.has_data answers = false
     end.
Proof.
  induction xs as [| a xs IH]; intros s.
  - cbn. repeat split; auto.
  - cbn [Extended.for_in]. rewrite exec_bind.
    pose proof (get_object_attempt_sound h url retries delay a s) as [Hit Hn].
    cbn zeta in Hit, Hn.
    destruct (Extended.exec h (Extended.get_object_attempt url retries delay a) s)
      as [[r s1] t1].
    unfold Extended.value, Extended.log in *. cbn [fst snd] in *.
    unfold with_attempts_left in *. cbn [filter length].
    destruct r as [[data |] | e].
    + cbn [Extended.ret Extended.exec fst snd]. rewrite app_nil_r, Hn.
      assert (exists answer, Extended.gets t1 = [answer]
                             /\ Extended.data_of answer = Some data
                             /\ Extended.count Extended.is_sleep t1 = 0%nat)
        as (answer & -> & Hdata & ->) by (inversion Hit; eauto).
      cbn zeta. repeat split; cbn [length]; try lia.
      exists [], answer. repeat split; auto.
    + specialize (IH s1). cbn zeta in IH.
      destruct (Extended.exec h (Extended.for_in xs _) s1) as [[r s2] t2].
      cbn [fst snd] in *. rewrite gets_app, !count_app, Hn.
      destruct IH as (Hchecks & Hanswers & Hnaps & Hvalue).
      assert (length (Extended.gets t1) <= 1
              /\ existsb Extended.has_data (Extended.gets t1) = false
              /\ Extended.count Extended.is_sleep t1
                 = (if (a <? retries)%Z then 1 else 0))%nat as (Hlen & Hnone & Hnap).
      { inv Hit; repeat split; auto;
          match goal with H : (a <? retries)%Z = _ |- _ => now rewrite H end. }
      rewrite Hnap, length_app.
      assert (length (if (a <? retries)%Z
                      then a :: filter (fun attempt => (attempt <? retries)%Z) xs
                      else filter (fun attempt => (attempt <? retries)%Z) xs)
              = ((if (a <? retries)%Z then 1 else 0)
                 + length (filter (fun attempt => (attempt <? retries)%Z) xs))%nat) as ->
        by (destruct (a <? retries)%Z; reflexivity).
      repeat split; try lia.
      destruct r as [[data |] | e].
      * destruct Hvalue as (before & answer & -> & Hdata & Hbefore).
        exists (Extended.gets t1 ++ before)%list, answer.
        rewrite app_assoc, existsb_app, Hnone, Hbefore. auto.
      * destruct Hvalue as (Hnone' & -> & ->).
        rewrite existsb_app, Hnone, Hnone'. auto.
      * destruct Hvalue as (Hdelay & Hleft & Hnone').
        rewrite existsb_app, Hnone, Hnone'. repeat split; auto.
        destruct (a <? retries)%Z; [discriminate | assumption].
    + cbn [fst snd]. rewrite Hn.
      assert (sleep_exception delay = Some e /\ (length (Extended.gets t1) <= 1)%nat
              /\ existsb Extended.has_data (Extended.gets t1) = false
              /\ (a <? retries)%Z = true
              /\ Extended.count Extended.is_sleep t1 = 0%nat)
        as (Hdelay & Hlen & Hnone & -> & ->) by (inversion Hit; subst; auto 10).
      cbn zeta. cbn [length]. repeat split; auto; try lia. discriminate.
Qed.

End GetObject.



(** X22.  [get_object] makes at most retries+1 attempts, each with one token
    check and at most one GET, and sleeps at most retries times: there is no
    sleep after the last attempt.  With negative retries it makes no
    request at all. *)
Theorem get_object_bounds :
  forall (S : Type) (h : Extended.environment S) (s : S)
         (endpoint : string) (retries : Z) (delay : Q),
    let x := Extended.exec h (Extended.get_object endpoint retries delay) s in
    (Extended.count Extended.is_token_check (Extended.log x) <= Z.to_nat (retries + 1))%nat
    /\ (length (Extended.gets (Extended.log x))
        <= Extended.count Extended.is_token_check (Extended.log x))%nat
    /\ (Extended.count Extended.is_sleep (Extended.log x) <= Z.to_nat retries)%nat.
Proof.
  intros S h s endpoint retries delay. unfold Extended.get_object.
  rewrite exec_bind.
  pose proof (get_object_loop h (PanApiHandler.BASE_URL ++ endpoint) retries delay
                (range (retries + 1)) s) as (Hchecks & Hanswers & Hnaps & _).
  cbn zeta in Hchecks, Hanswers, Hnaps.
  rewrite length_range in Hchecks. rewrite with_attempts_left_range in Hnaps.
  destruct (Extended.exec h (Extended.for_in _ _) s) as [[r s1] t1].
  unfold Extended.log in *. cbn [fst snd] in *.
  destruct r as [[data |] | e]; cbn [Extended.ret Extended.exec fst snd];
    rewrite ?app_nil_r; auto.
Qed.



(** X24.  [move_security_rule] makes one POST and returns True exactly when
    it is answered by status 200; it does not retry, and an exception of
    [ensure_valid_token], after which no request is made, or of the POST
    goes to the caller. *)
Theorem move_security_rule_result :
  forall (S : Type) (h : Extended.environment S) (s : S)
         (rule_id folder : string) (destination destination_rule rulebase : json),
    let x := Extended.exec h
               (Extended.move_security_rule rule_id folder destination destination_rule
                  rulebase) s in
    match Extended.value x with
    | Ok moved =>
        exists url payload response,
          Extended.posted (Extended.log x) = [(url, payload, Ok response)]
          /\ moved = (status_code response =? 200)%Z
    | Raise e =>
        Extended.log x = [Extended.Entry (Extended.earlier session_ensure_valid_token)
                            (Raise e)]
        \/ exists url payload, Extended.posted (Extended.log x) = [(url, payload, Raise e)]
    end.
Proof.
  intros S h s rule_id folder destination destination_rule rulebase.
  unfold Extended.move_security_rule, Extended.ensure_valid_token.
  norm. repeat (reply h || branch).
  all: try congruence.
  all: unfold Extended.value, Extended.log in *; norm.
  all: repeat match goal with
              | H : Ok _ = Ok _ |- _ => inv H
              | H : Raise _ = Raise _ |- _ => inv H
              end.
  all: eauto 6.
  all: do 3 eexists; split; [reflexivity |].
  all: match goal with H : negb _ = _ |- _ => now destruct (status_code _ =? 200)%Z end.
Qed.

(** X25.  The POST of [move_security_rule] goes to the move action of the
    rule (the path follows two slashes) with a payload that holds the
    destination and the rulebase, the destination rule exactly when one is
    given, and nothing else: the folder is not sent. *)
Theorem move_security_rule_request :
  forall (S : Type) (h : Extended.environment S) (s : S)
         (rule_id folder : string) (destination destination_rule rulebase : json)
         (url : string) (payload : dict) (answer : result response),
    let x := Extended.exec h
               (Extended.move_security_rule rule_id folder destination destination_rule
                  rulebase) s in
    In (url, payload, answer) (Extended.posted (Extended.log x)) ->
    url = PanApiHandler.BASE_URL ++ "//sse/config/v1/security-rules/" ++ rule_id ++ ":move"
    /\ dict_get payload "destination" = Some destination
    /\ dict_get payload "rulebase" = Some rulebase
    /\ dict_get payload "destination_rule"
       = match destination_rule with
         | JNull => None
         | rule => Some rule
         end
    /\ map fst payload
       = (["destination"; "rulebase"]
          ++ match destination_rule with
             | JNull => []
             | _ => ["destination_rule"]
             end)%list.
Proof.
  intros S h s rule_id folder destination destination_rule rulebase url payload answer.
  unfold Extended.move_security_rule, Extended.ensure_valid_token.
  norm. repeat (reply h || branch).
  all: unfold Extended.log; norm; intros Hin.
  all: repeat match goal with
              | H : _ \/ _ |- _ => destruct H as [H | H]
              | H : False |- _ => destruct H
              end.
  all: inv Hin; destruct destination_rule; cbn; repeat split; auto.
Qed.

Lemma move_security_rule_request_witness :
  "https://api.sase.paloaltonetworks.com//sse/config/v1/security-rules/rule-1:move"
  = PanApiHandler.BASE_URL ++ "//sse/config/v1/security-rules/" ++ "rule-1" ++ ":move"
  /\ dict_get [("destination", JStr "before"); ("rulebase", JStr "pre");
               ("destination_rule", JStr "rule-2")] "destination"
     = Some (JStr "before")
  /\ dict_get [("destination", JStr "before"); ("rulebase", JStr "pre");
               ("destination_rule", JStr "rule-2")] "rulebase"
     = Some (JStr "pre")
  /\ dict_get [("destination", JStr "before"); ("rulebase", JStr "pre");
               ("destination_rule", JStr "rule-2")] "destination_rule"
     = Some (JStr "rule-2")
  /\ map fst [("destination", JStr "before"); ("rulebase", JStr "pre");
              ("destination_rule", JStr "rule-2")]
     = (["destination"; "rulebase"] ++ ["destination_rule"])%list.
Proof.
  apply (move_security_rule_request world Extended.world_environment
           (world_at [Ok (json_response 200 (JObj []))])
           "rule-1" "Shared" (JStr "before") (JStr "rule-2") (JStr "pre")
           "https://api.sase.paloaltonetworks.com//sse/config/v1/security-rules/rule-1:move"
           [("destination", JStr "before"); ("rulebase", JStr "pre");
            ("destination_rule", JStr "rule-2")]
           (Ok (json_response 200 (JObj [])))).
  vm_compute. left. reflexivity.
Defined.
